(** * GLB label viewer: the annotated-document model and its codecs

    A shallow embedding of the document store (src/store/annotationStore.jsx),
    the selection engine (src/utils/selectionUtils.js), the point-cloud
    decoder (src/utils/plyParser.js) and the mesh-exchange decoder and
    encoder (glbParser.js, glbExporter.js), with the properties of the
    specification stated and settled against them.

    Conventions.
    - A JavaScript number that the code uses as an index, a count or a label
      id is a [Z]; geometry payload (coordinates, colours) is a binary64
      [float], the kernel's primitive floats being IEEE 754 doubles exactly
      as JavaScript numbers are.
    - [null] and [undefined] of an optional field are [None].
    - A JavaScript [Set] of numbers is a [gset Z]; an object used as a map
      from label id to count is a [gmap Z Z], the key being the label id
      whose decimal spelling is the property name.
    - A function that can throw returns a [Completion]. *)

From Stdlib Require Import ZArith Lia List.
From Stdlib Require Import Floats.PrimFloat Floats.SpecFloat Floats.FloatOps Floats.FloatAxioms.
From Stdlib Require Import Strings.Ascii.
From stdpp Require Import gmap strings list fin_maps pretty.

Local Open Scope Z_scope.

(** ** JavaScript values shared by all components *)

(** The exceptions the modelled code can raise. *)
Inductive JsError :=
| ErrorMsg (message : string)   (* [throw new Error(message)] *)
| TypeError                     (* property read on undefined, call of a non-function *)
| RangeError.                   (* invalid array length, DataView read out of bounds *)

Inductive Completion (A : Type) :=
| Return (value : A)
| Throw (e : JsError).
Arguments Return {A} value.
Arguments Throw {A} e.

#[global] Instance completion_ret : MRet Completion := fun A a => Return a.
#[global] Instance completion_bind : MBind Completion := fun A B k c =>
  match c with
  | Return a => k a
  | Throw e => Throw e
  end.

Definition threw {A} (c : Completion A) : Prop :=
  match c with Throw _ => True | Return _ => False end.

(** Truthiness of an optional integer: [null], [undefined] and [0] are falsy. *)
Definition truthy (v : option Z) : bool :=
  match v with
  | Some z => negb (z =? 0)
  | None => false
  end.

(** [v || d] on an optional integer. *)
Definition orElse (v : option Z) (d : option Z) : option Z :=
  if truthy v then v else d.

(** The number an arithmetic operation yields when its exact result is the
    integer [z]: the nearest double, the one with the even significand when
    two are equally near. Integers of magnitude up to 2^53 are doubles; from
    there on 53 significant bits are kept. (The overflow to infinity, beyond
    the largest double, is not reached by the sums and differences below,
    whose operands are doubles.) *)
Definition toDouble (z : Z) : Z :=
  let a := Z.abs z in
  if a <=? 2 ^ 53 then z
  else
    let e := Z.log2 a - 52 in
    let q := a / 2 ^ e in
    let r := a mod 2 ^ e in
    let up := if 2 * r =? 2 ^ e then Z.odd q else 2 ^ e <? 2 * r in
    Z.sgn z * ((if up then q + 1 else q) * 2 ^ e).

(** ** Colour normalisation (plyParser.js, normalizeColorValue) *)

Module Color.
Local Open Scope float_scope.

(** The literal [0.00392156862745098] of the source, which denotes the
    double nearest to 1/255. *)
Definition inv255 : float := 0x1.010101010101p-8.

Definition normalizeColorValue (value : float) : float :=
  let normalized := if PrimFloat.ltb 1 value then PrimFloat.mul value inv255 else value in
  if PrimFloat.ltb normalized 0 then 0
  else if PrimFloat.ltb 1 normalized then 1 else normalized.

(** Clamping into [0,1], the second line of [normalizeColorValue]. *)
Definition clamp01 (x : float) : float :=
  if PrimFloat.ltb x 0 then 0 else if PrimFloat.ltb 1 x then 1 else x.

End Color.

(** ** Data model: points, faces, labels *)

(** A colour as the files and the UI give it: a hex string or an RGB triple. *)
Inductive JsColor :=
| ColorHex (hex : string)
| ColorRGB (r g b : float).

Record Point := mkPoint {
  position : list float;
  point_color : list float;
  point_labelId : option Z;
  point_textureCoords : option (list float);
  normal : option (list float)
}.

Record Face := mkFace {
  indices : list Z;
  face_labelId : option Z;
  face_textureCoords : option (list float);
  face_color : option (list float)
}.

Record Label := mkLabel {
  label_id : Z;
  label_name : string;
  label_color : option JsColor;
  label_visible : option bool;
  pointCount : option Z;
  faceCount : option Z
}.

(** The header object a decoder returns and the exporters take back:
    [{format, version, vertexCount, faceCount, properties, faceProperties,
    comments}] from the point-cloud decoder, [{format: 'glb', vertexCount,
    faceCount, comments}] from the mesh decoder. A count that [parseInt]
    could not read ([NaN]) is [None]. *)
Record Property := mkProperty {
  prop_name : string;
  prop_type : option string;
  countType : option string;
  itemType : option string
}.

Record FileHeader := mkFileHeader {
  format : string;
  version : option string;
  vertexCount : option Z;
  hdr_faceCount : option Z;
  properties : option (list Property);
  faceProperties : option (list Property);
  comments : list string
}.

(** [array[i]] for a JavaScript number [i] that is an integer: [undefined]
    outside the array. *)
Definition at_index {A} (l : list A) (i : Z) : option A :=
  if i <? 0 then None else l !! Z.to_nat i.

(** The indices [0 .. n-1] of a loop [for (i = 0; i < n; i++)]. *)
Definition upto (n : Z) : list Z := map Z.of_nat (seq 0 (Z.to_nat n)).

(** ** Selection derivation (selectionUtils.js) *)

Module Selection.

Inductive MeshSelectionMode :=
| TOUCHING
| ENCLOSED
| OtherMode (name : string).

(** The [selectedPoints] argument: the documentation of the function names a
    [Set], the store holds an [Array] and the viewport passes it as it is.
    Both are iterable, only the [Set] has a [size]. *)
Inductive PointCollection :=
| PointSet (elems : gset Z)
| PointArray (elems : list Z).

(** [selectedPoints.size]: [undefined] on an array. *)
Definition size_of (c : PointCollection) : option nat :=
  match c with
  | PointSet s => Some (size s)
  | PointArray _ => None
  end.

(** [new Set(selectedPoints)] *)
Definition toSet (c : PointCollection) : gset Z :=
  match c with
  | PointSet s => s
  | PointArray l => list_to_set l
  end.

(** [labels.forEach(label => labelVisibilityMap.set(label.id, label.visible))] *)
Definition labelVisibilityMap (labels : list Label) : gmap Z (option bool) :=
  foldl (fun m l => <[label_id l := label_visible l]> m) ∅ labels.

(** [face.labelId && labelVisibilityMap.get(face.labelId) === false] *)
Definition hidden (vis : gmap Z (option bool)) (face : Face) : bool :=
  truthy (face_labelId face) &&
  match face_labelId face with
  | Some l => bool_decide (vis !! l = Some (Some false))
  | None => false
  end.

(** The body of the [faces.forEach] callback: does it add [faceIndex]? *)
Definition selects (vis : gmap Z (option bool)) (sel : gset Z)
    (mode : MeshSelectionMode) (face : Face) : bool :=
  if hidden vis face then false
  else match mode with
       | TOUCHING => existsb (fun idx => bool_decide (idx ∈ sel)) (indices face)
       | ENCLOSED => forallb (fun idx => bool_decide (idx ∈ sel)) (indices face)
       | OtherMode _ => false
       end.

Fixpoint forEachFace (vis : gmap Z (option bool)) (sel : gset Z)
    (mode : MeshSelectionMode) (faceIndex : Z) (faces : list Face)
    (newSelectedFaces : gset Z) : gset Z :=
  match faces with
  | [] => newSelectedFaces
  | face :: rest =>
      forEachFace vis sel mode (faceIndex + 1) rest
        (if selects vis sel mode face
         then {[faceIndex]} ∪ newSelectedFaces else newSelectedFaces)
  end.

Definition calculateSelectedFaces (faces : option (list Face)) (labels : list Label)
    (selectedPoints : option PointCollection) (meshSelectionMode : MeshSelectionMode)
    : gset Z :=
  match faces, selectedPoints with
  | Some fs, Some sp =>
      if bool_decide (length fs = 0%nat) || bool_decide (size_of sp = Some 0%nat)
      then ∅
      else forEachFace (labelVisibilityMap labels) (toSet sp) meshSelectionMode 0 fs ∅
  | _, _ => ∅
  end.

End Selection.

(** ** The scene graph of the mesh-exchange codec (three.js objects)

    A scene is a tree of nodes. A node owns its metadata bag [userData]; its
    geometry is an object of its own that several nodes may reference, so
    geometries live in a store and a node holds a reference into it. *)

Module Three.

Definition Uuid := Z.
Definition GeomRef := nat.

(** A float attribute: one item (x, y, z, ... components) per vertex. *)
Record BufferAttribute := mkAttr { items : list (list float) }.
Definition count (a : BufferAttribute) : Z := Z.of_nat (length (items a)).
Definition getComponent (k : nat) (a : BufferAttribute) (i : Z) : float :=
  match at_index (items a) i with
  | Some item => nth k item nan
  | None => nan
  end.
Definition getX := getComponent 0.
Definition getY := getComponent 1.
Definition getZ := getComponent 2.

(** [geometry.groups]: [{start, count, materialIndex}] *)
Record Group := mkGroup { group_start : Z; group_count : Z; materialIndex : Z }.

(** The attributes the codec reads or writes, by name; [_label_id] is the
    per-vertex integer attribute ([Int32BufferAttribute], item size 1). *)
Record BufferGeometry := mkGeometry {
  attr_position : option BufferAttribute;
  attr_color : option BufferAttribute;
  attr_uv : option BufferAttribute;
  attr_normal : option BufferAttribute;
  attr_label_id : option (list Z);
  index : option (list Z);
  groups : list Group
}.

Abbreviation GeomStore := (gmap GeomRef BufferGeometry).

(** The custom keys of a metadata bag. [faceLabels], [labelDefinitions] and
    [originalHeader] are the ones the codec interprets; the other five known
    keys are carried as serialised JSON. *)
Record CustomData := mkCustom {
  faceLabels : option (list Z);
  labelDefinitions : option (list Label);
  originalHeader : option FileHeader;
  units : option string;
  pointLabels : option string;
  meshLabels : option string;
  annotationData : option string;
  metadata : option string
}.

Definition noCustom : CustomData := mkCustom None None None None None None None None.

(** [node.userData]: the custom keys at top level and, after the decoder's
    normalisation, the nested [extras] bag. *)
Record UserData := mkUserData {
  top : CustomData;
  extras : option CustomData
}.

Record NodeData := mkNode {
  uuid : Uuid;
  isMesh : bool;
  node_name : string;
  geometry : option GeomRef;
  matrixWorld : list float;
  userData : UserData
}.

#[local] Unset Elimination Schemes.
Inductive Object3D := Obj (node : NodeData) (children : list Object3D).
#[local] Set Elimination Schemes.

(** [{start, end}] of a [faceRange] or [pointRange] entry. *)
Record Range := mkRange { range_start : Z; range_end : Z }.

Record InteractionMapping := mkMapping {
  meshToFaceRange : option (gmap Uuid Range);
  meshToPointRange : option (gmap Uuid Range);
  faceToMesh : gmap Z (Uuid * Z)
}.

(** [object.traverse(callback)]: the node itself, then each child's subtree,
    in order. The list is the order in which the callback sees the nodes. *)
Fixpoint traverse (o : Object3D) : list NodeData :=
  match o with
  | Obj node children => node :: flat_map traverse children
  end.

(** The nodes a [traverse] callback guarded by [node.isMesh] collects. *)
Definition collectMeshes (o : Object3D) : list NodeData :=
  filter (fun n => isMesh n = true) (traverse o).

(** [object.clone(true)] as three.js implements it ([Object3D.copy],
    [Mesh.copy]): a new node with a new uuid for every node of the tree, the
    children cloned recursively in order, [userData] copied deeply (through
    JSON), and the geometry NOT copied: the clone references the geometry
    object of the node it was cloned from. Uuids are drawn from [next]. *)
Fixpoint clone (o : Object3D) (next : Uuid) : Object3D * Uuid :=
  match o with
  | Obj node children =>
      let node' := mkNode next (isMesh node) (node_name node) (geometry node)
                     (matrixWorld node) (userData node) in
      let fix cloneAll (cs : list Object3D) (next : Uuid) : list Object3D * Uuid :=
        match cs with
        | [] => ([], next)
        | c :: cs' =>
            let '(c', next1) := clone c next in
            let '(cs'', next2) := cloneAll cs' next1 in
            (c' :: cs'', next2)
        end in
      let '(children', next') := cloneAll children (next + 1) in
      (Obj node' children', next')
  end.

End Three.

(** ** The annotation document store (annotationStore.jsx) *)

Module Store.

Record LabelInfo := mkLabelInfo {
  labelStats : gmap Z Z;
  faceLabelStats : gmap Z Z;
  labeledCount : Z;
  unlabeledCount : Z;
  faceLabeledCount : Z;
  faceUnlabeledCount : Z
}.

(** The document fields of the state. The presentation fields (point size,
    view and shading modes, colours, transform state, visibility toggles of
    the viewport, modal flag, file name, materials and texture handles) are
    left out: no command below reads them, and the commands that write them
    write nothing else. *)
Record State := mkState {
  points : list Point;
  labels : list Label;
  selectedPoints : list Z;
  selectedPointsHistory : list (list Z);
  history : list (list Point);
  fileHeader : option FileHeader;
  labelInfo : option LabelInfo;
  hasMesh : bool;
  faces : list Face;
  isPointCloudVisible : bool;
  selectedFaces : gset Z;
  isManualFaceSelection : bool;
  originalScene : option Three.Object3D;
  interactionMapping : option Three.InteractionMapping;
  isNewFileLoaded : bool
}.

Definition initialState : State :=
  mkState [] [] [] [] [] None None false [] true ∅ false None None false.

(** A face of a decoded payload: the face object of the current decoders
    (the [materialIndex] the mesh decoder adds is not kept by the store and
    not modelled) or the bare index array of the old format. *)
Inductive PayloadFace :=
| FaceObject (face : Face)
| FaceArray (indices : list Z).

(** What a decoder hands to [LOAD_FILE_DATA]. *)
Record Payload := mkPayload {
  pl_points : list Point;
  pl_faces : option (list PayloadFace);
  pl_header : option FileHeader;
  pl_labelInfo : option LabelInfo;
  pl_originalScene : option Three.Object3D;
  pl_interactionMapping : option Three.InteractionMapping;
  pl_labels : option (list Label)
}.

Inductive Action :=
| SET_POINTS (payload : list Point)
| SET_PLY_DATA (points : list Point) (header : option FileHeader)
    (labelInfo : option LabelInfo)
| LOAD_FILE_DATA (payload : Payload)
| ADD_LABEL (payload : Label)
| UPDATE_LABEL (payload : Label)
| DELETE_LABEL (payload : Z)
| SET_SELECTED_POINTS (payload : list Z)
| APPLY_LABELS (pointIndices : list Z) (labelId : option Z)
| UNDO
| TOGGLE_LABEL_VISIBILITY (payload : Z)
| UNDO_SELECTION
| CLEAR_SELECTION
| INVERT_SELECTION
| TOGGLE_POINT_CLOUD_VISIBILITY
| UPDATE_SELECTED_FACES (faces : list Z) (isManual : option bool)
| APPLY_LABEL_TO_FACES (faceIndices : list Z) (labelId : option Z)
| RESET_NEW_FILE_FLAG
| OTHER.  (* a presentation command, or an unknown type: no document field changes *)

(** *** Field updates: [{...state, field: value}] *)

Definition with_points v (s : State) : State :=
  mkState v (labels s) (selectedPoints s) (selectedPointsHistory s) (history s)
    (fileHeader s) (labelInfo s) (hasMesh s) (faces s) (isPointCloudVisible s)
    (selectedFaces s) (isManualFaceSelection s) (originalScene s)
    (interactionMapping s) (isNewFileLoaded s).
Definition with_labels v (s : State) : State :=
  mkState (points s) v (selectedPoints s) (selectedPointsHistory s) (history s)
    (fileHeader s) (labelInfo s) (hasMesh s) (faces s) (isPointCloudVisible s)
    (selectedFaces s) (isManualFaceSelection s) (originalScene s)
    (interactionMapping s) (isNewFileLoaded s).
Definition with_selectedPoints v (s : State) : State :=
  mkState (points s) (labels s) v (selectedPointsHistory s) (history s)
    (fileHeader s) (labelInfo s) (hasMesh s) (faces s) (isPointCloudVisible s)
    (selectedFaces s) (isManualFaceSelection s) (originalScene s)
    (interactionMapping s) (isNewFileLoaded s).
Definition with_selectedPointsHistory v (s : State) : State :=
  mkState (points s) (labels s) (selectedPoints s) v (history s)
    (fileHeader s) (labelInfo s) (hasMesh s) (faces s) (isPointCloudVisible s)
    (selectedFaces s) (isManualFaceSelection s) (originalScene s)
    (interactionMapping s) (isNewFileLoaded s).
Definition with_history v (s : State) : State :=
  mkState (points s) (labels s) (selectedPoints s) (selectedPointsHistory s) v
    (fileHeader s) (labelInfo s) (hasMesh s) (faces s) (isPointCloudVisible s)
    (selectedFaces s) (isManualFaceSelection s) (originalScene s)
    (interactionMapping s) (isNewFileLoaded s).
Definition with_fileHeader v (s : State) : State :=
  mkState (points s) (labels s) (selectedPoints s) (selectedPointsHistory s) (history s)
    v (labelInfo s) (hasMesh s) (faces s) (isPointCloudVisible s)
    (selectedFaces s) (isManualFaceSelection s) (originalScene s)
    (interactionMapping s) (isNewFileLoaded s).
Definition with_labelInfo v (s : State) : State :=
  mkState (points s) (labels s) (selectedPoints s) (selectedPointsHistory s) (history s)
    (fileHeader s) v (hasMesh s) (faces s) (isPointCloudVisible s)
    (selectedFaces s) (isManualFaceSelection s) (originalScene s)
    (interactionMapping s) (isNewFileLoaded s).
Definition with_hasMesh v (s : State) : State :=
  mkState (points s) (labels s) (selectedPoints s) (selectedPointsHistory s) (history s)
    (fileHeader s) (labelInfo s) v (faces s) (isPointCloudVisible s)
    (selectedFaces s) (isManualFaceSelection s) (originalScene s)
    (interactionMapping s) (isNewFileLoaded s).
Definition with_faces v (s : State) : State :=
  mkState (points s) (labels s) (selectedPoints s) (selectedPointsHistory s) (history s)
    (fileHeader s) (labelInfo s) (hasMesh s) v (isPointCloudVisible s)
    (selectedFaces s) (isManualFaceSelection s) (originalScene s)
    (interactionMapping s) (isNewFileLoaded s).
Definition with_isPointCloudVisible v (s : State) : State :=
  mkState (points s) (labels s) (selectedPoints s) (selectedPointsHistory s) (history s)
    (fileHeader s) (labelInfo s) (hasMesh s) (faces s) v
    (selectedFaces s) (isManualFaceSelection s) (originalScene s)
    (interactionMapping s) (isNewFileLoaded s).
Definition with_selectedFaces v (s : State) : State :=
  mkState (points s) (labels s) (selectedPoints s) (selectedPointsHistory s) (history s)
    (fileHeader s) (labelInfo s) (hasMesh s) (faces s) (isPointCloudVisible s)
    v (isManualFaceSelection s) (originalScene s)
    (interactionMapping s) (isNewFileLoaded s).
Definition with_isManualFaceSelection v (s : State) : State :=
  mkState (points s) (labels s) (selectedPoints s) (selectedPointsHistory s) (history s)
    (fileHeader s) (labelInfo s) (hasMesh s) (faces s) (isPointCloudVisible s)
    (selectedFaces s) v (originalScene s)
    (interactionMapping s) (isNewFileLoaded s).
Definition with_originalScene v (s : State) : State :=
  mkState (points s) (labels s) (selectedPoints s) (selectedPointsHistory s) (history s)
    (fileHeader s) (labelInfo s) (hasMesh s) (faces s) (isPointCloudVisible s)
    (selectedFaces s) (isManualFaceSelection s) v
    (interactionMapping s) (isNewFileLoaded s).
Definition with_interactionMapping v (s : State) : State :=
  mkState (points s) (labels s) (selectedPoints s) (selectedPointsHistory s) (history s)
    (fileHeader s) (labelInfo s) (hasMesh s) (faces s) (isPointCloudVisible s)
    (selectedFaces s) (isManualFaceSelection s) (originalScene s)
    v (isNewFileLoaded s).
Definition with_isNewFileLoaded v (s : State) : State :=
  mkState (points s) (labels s) (selectedPoints s) (selectedPointsHistory s) (history s)
    (fileHeader s) (labelInfo s) (hasMesh s) (faces s) (isPointCloudVisible s)
    (selectedFaces s) (isManualFaceSelection s) (originalScene s)
    (interactionMapping s) v.

Definition setPointLabel (labelId : option Z) (p : Point) : Point :=
  mkPoint (position p) (point_color p) labelId (point_textureCoords p) (normal p).
Definition setFaceLabel (labelId : option Z) (f : Face) : Face :=
  mkFace (indices f) labelId (face_textureCoords f) (face_color f).
Definition setVisible (v : option bool) (l : Label) : Label :=
  mkLabel (label_id l) (label_name l) (label_color l) v (pointCount l) (faceCount l).

(** [array.slice(-n)]: the last [n] elements. *)
Definition lastN {A} (n : nat) (l : list A) : list A := drop (length l - n)%nat l.
(** [array.slice(0, -1)] *)
Definition dropLast {A} (l : list A) : list A := take (length l - 1)%nat l.

(** The indices [i] of [0 .. total-1] with [!set.has(i)], ascending: the
    loop of [INVERT_SELECTION]. *)
Definition complementOf (total : nat) (current : gset Z) : list Z :=
  filter (fun i => i ∉ current) (map Z.of_nat (seq 0 total)).

(** *** LOAD_FILE_DATA *)

Definition normalizeFace (face : PayloadFace) : Face :=
  match face with
  | FaceObject f =>
      mkFace (indices f) (orElse (face_labelId f) None)
        (face_textureCoords f) (face_color f)
  | FaceArray idx => mkFace idx None None None
  end.

(** [label.pointCount && label.pointCount > 0] *)
Definition positiveCount (c : option Z) : option Z :=
  match c with
  | Some n => if truthy c && (0 <? n) then Some n else None
  | None => None
  end.

(** The [labels.forEach] that rebuilds the statistics from exact counts;
    the accumulator is (labelStats, faceLabelStats, totalLabeledPoints,
    totalLabeledFaces). *)
Definition countLabel (acc : gmap Z Z * gmap Z Z * Z * Z) (label : Label)
    : gmap Z Z * gmap Z Z * Z * Z :=
  let '(ls, fls, tp, tf) := acc in
  let '(ls, tp) := match positiveCount (pointCount label) with
                   | Some n => (<[label_id label := n]> ls, tp + n)
                   | None => (ls, tp)
                   end in
  let '(fls, tf) := match positiveCount (faceCount label) with
                    | Some n => (<[label_id label := n]> fls, tf + n)
                    | None => (fls, tf)
                    end in
  (ls, fls, tp, tf).

Definition hasExactCounts (labels : option (list Label)) : bool :=
  match labels with
  | Some ls =>
      bool_decide (0 < length ls)%nat &&
      existsb (fun l => bool_decide (faceCount l <> None) || bool_decide (pointCount l <> None)) ls
  | None => false
  end.

Definition finalLabelInfo (payload : Payload) (facesData : list Face) : option LabelInfo :=
  if hasExactCounts (pl_labels payload) then
    let '(ls, fls, tp, tf) :=
      foldl countLabel (∅, ∅, 0, 0) (default [] (pl_labels payload)) in
    Some (mkLabelInfo ls fls tp (Z.max 0 (Z.of_nat (length (pl_points payload)) - tp))
            tf (Z.max 0 (Z.of_nat (length facesData) - tf)))
  else pl_labelInfo payload.

Definition loadFileData (state : State) (payload : Payload) : State :=
  let hasMesh := match pl_faces payload with
                 | Some fs => bool_decide (0 < length fs)%nat
                 | None => false
                 end in
  let facesData := if hasMesh then map normalizeFace (default [] (pl_faces payload)) else [] in
  mkState
    (pl_points payload)
    (default [] (pl_labels payload))
    (selectedPoints state)
    (selectedPointsHistory state)
    (history state ++ [points state])
    (pl_header payload)
    (finalLabelInfo payload facesData)
    hasMesh
    facesData
    (negb hasMesh)
    ∅
    (isManualFaceSelection state)
    (pl_originalScene payload)
    (pl_interactionMapping payload)
    true.

(** *** Incremental statistics of the label-assignment commands *)

(** [array.forEach(callback)] for a callback that can throw. *)
Fixpoint forEachC {A S} (callback : S -> A -> Completion S) (l : list A) (s : S)
    : Completion S :=
  match l with
  | [] => Return s
  | x :: rest => s' ← callback s x; forEachC callback rest s'
  end.

(** [stats[key] = (stats[key] || 1) - 1; if (stats[key] <= 0) delete stats[key];
    delta--] *)
Definition removeOld (acc : gmap Z Z * Z) (key : Z) : gmap Z Z * Z :=
  let '(stats, delta) := acc in
  let v := (match stats !! key with
            | Some c => if c =? 0 then 1 else c
            | None => 1
            end) - 1 in
  (if v <=? 0 then delete key stats else <[key := v]> stats, delta - 1).

(** [stats[key] = (stats[key] || 0) + 1; delta++] *)
Definition addNew (acc : gmap Z Z * Z) (key : Z) : gmap Z Z * Z :=
  let '(stats, delta) := acc in
  (<[key := default 0 (stats !! key) + 1]> stats, delta + 1).

(** [x.labelId && x.labelId !== 0] *)
Definition pointLabeled (l : option Z) : bool := truthy l.
(** [x.labelId && x.labelId !== 0 && x.labelId !== -1] *)
Definition faceLabeled (l : option Z) : bool :=
  truthy l && negb (bool_decide (l = Some (-1))).

Definition countIf (labeled : bool) (l : option Z)
    (f : gmap Z Z * Z -> Z -> gmap Z Z * Z) (acc : gmap Z Z * Z) : gmap Z Z * Z :=
  match l with
  | Some key => if labeled then f acc key else acc
  | None => acc
  end.

(** The callback of [pointIndices.forEach]: reading [oldPoint.labelId] of a
    point that is not there throws. *)
Definition applyLabelsStep (oldPoints newPoints : list Point) (acc : gmap Z Z * Z)
    (index : Z) : Completion (gmap Z Z * Z) :=
  match at_index oldPoints index, at_index newPoints index with
  | Some oldPoint, Some newPoint =>
      let acc := countIf (pointLabeled (point_labelId oldPoint))
                   (point_labelId oldPoint) removeOld acc in
      Return (countIf (pointLabeled (point_labelId newPoint))
                (point_labelId newPoint) addNew acc)
  | _, _ => Throw TypeError
  end.

(** The callback of [faceIndices.forEach]: both reads are guarded. *)
Definition applyFaceLabelsStep (oldFaces newFaces : list Face) (acc : gmap Z Z * Z)
    (index : Z) : gmap Z Z * Z :=
  let acc := match at_index oldFaces index with
             | Some oldFace => countIf (faceLabeled (face_labelId oldFace))
                                 (face_labelId oldFace) removeOld acc
             | None => acc
             end in
  match at_index newFaces index with
  | Some newFace => countIf (faceLabeled (face_labelId newFace))
                      (face_labelId newFace) addNew acc
  | None => acc
  end.

(** [array.map((x, index) => set.has(index) ? relabel(x) : x)] *)
Definition relabelAt {A} (relabel : A -> A) (indexSet : gset Z) (l : list A) : list A :=
  imap (fun index x => if bool_decide (Z.of_nat index ∈ indexSet) then relabel x else x) l.

Definition applyLabels (state : State) (pointIndices : list Z) (labelId : option Z)
    : Completion State :=
  let pointIndicesSet : gset Z := list_to_set pointIndices in
  let newPoints := relabelAt (setPointLabel labelId) pointIndicesSet (points state) in
  let currentLabelInfo :=
    default (mkLabelInfo ∅ ∅ 0 (Z.of_nat (length (points state))) 0 0) (labelInfo state) in
  r ← forEachC (applyLabelsStep (points state) newPoints) pointIndices
        (labelStats currentLabelInfo, 0);
  let '(labelStats', labeledCountDelta) := r in
  let updatedLabelInfo :=
    mkLabelInfo labelStats' (faceLabelStats currentLabelInfo)
      (labeledCount currentLabelInfo + labeledCountDelta)
      (unlabeledCount currentLabelInfo - labeledCountDelta)
      (faceLabeledCount currentLabelInfo) (faceUnlabeledCount currentLabelInfo) in
  Return (with_history (history state ++ [points state])
            (with_labelInfo (Some updatedLabelInfo) (with_points newPoints state))).

Definition applyLabelToFaces (state : State) (faceIndices : list Z) (faceLabelId : option Z)
    : State :=
  if negb (hasMesh state) then state else
  let faceIndicesSet : gset Z := list_to_set faceIndices in
  let updatedFaces := relabelAt (setFaceLabel faceLabelId) faceIndicesSet (faces state) in
  let currentFaceLabelInfo :=
    default (mkLabelInfo ∅ ∅ 0 (Z.of_nat (length (points state))) 0
               (Z.of_nat (length (faces state)))) (labelInfo state) in
  let '(faceLabelStats', labeledFaceCountDelta) :=
    foldl (applyFaceLabelsStep (faces state) updatedFaces)
      (faceLabelStats currentFaceLabelInfo, 0) faceIndices in
  let updatedFaceLabelInfo :=
    mkLabelInfo (labelStats currentFaceLabelInfo) faceLabelStats'
      (labeledCount currentFaceLabelInfo) (unlabeledCount currentFaceLabelInfo)
      (faceLabeledCount currentFaceLabelInfo + labeledFaceCountDelta)
      (faceUnlabeledCount currentFaceLabelInfo - labeledFaceCountDelta) in
  with_labelInfo (Some updatedFaceLabelInfo) (with_faces updatedFaces state).

(** *** Selection commands *)

(** [newSelection.length === currentSelection.length &&
    newSelection.every((val, index) => val === currentSelection[index])] *)
Definition isSameSelection (newSelection currentSelection : list Z) : bool :=
  bool_decide (length newSelection = length currentSelection) &&
  forallb (fun p => fst p =? snd p) (zip newSelection currentSelection).

Definition setSelectedPoints (state : State) (newSelection : list Z) : State :=
  let currentSelection := selectedPoints state in
  if isSameSelection newSelection currentSelection then state
  else with_selectedPointsHistory
         (lastN 10 (selectedPointsHistory state ++ [currentSelection]))
         (with_isManualFaceSelection false
            (with_selectedFaces ∅ (with_selectedPoints newSelection state))).

Definition invertSelection (state : State) : State :=
  let totalPoints := length (points state) in
  let currentSelectionSet : gset Z := list_to_set (selectedPoints state) in
  let invertedSelection := complementOf totalPoints currentSelectionSet in
  let newState := with_selectedPoints invertedSelection state in
  if hasMesh state && bool_decide (0 < length (faces state))%nat then
    let totalFaces := length (faces state) in
    let currentFaceSelectionSet := selectedFaces state in
    let invertedFaceSelection := complementOf totalFaces currentFaceSelectionSet in
    with_selectedFaces (list_to_set invertedFaceSelection) newState
  else newState.

(** *** The reducer *)

Definition annotationReducer (state : State) (action : Action) : Completion State :=
  match action with
  | SET_POINTS payload =>
      Return (with_history (history state ++ [points state]) (with_points payload state))
  | SET_PLY_DATA pts header info =>
      Return (with_history (history state ++ [points state])
                (with_labelInfo info (with_fileHeader header (with_points pts state))))
  | LOAD_FILE_DATA payload => Return (loadFileData state payload)
  | ADD_LABEL payload => Return (with_labels (labels state ++ [payload]) state)
  | UPDATE_LABEL payload =>
      Return (with_labels
                (map (fun label => if label_id label =? label_id payload
                                   then payload else label) (labels state)) state)
  | DELETE_LABEL payload =>
      Return (with_labels (filter (fun label => label_id label <> payload) (labels state)) state)
  | SET_SELECTED_POINTS payload => Return (setSelectedPoints state payload)
  | APPLY_LABELS pointIndices labelId => applyLabels state pointIndices labelId
  | UNDO =>
      match last (history state) with
      | Some previousState =>
          Return (with_history (dropLast (history state)) (with_points previousState state))
      | None => Return state
      end
  | TOGGLE_LABEL_VISIBILITY payload =>
      Return (with_labels
                (map (fun label => if label_id label =? payload
                                   then setVisible (Some (negb (default false (label_visible label)))) label
                                   else label) (labels state)) state)
  | UNDO_SELECTION =>
      match last (selectedPointsHistory state) with
      | Some previousSelection =>
          Return (with_selectedPointsHistory (dropLast (selectedPointsHistory state))
                    (with_selectedPoints previousSelection state))
      | None => Return state
      end
  | CLEAR_SELECTION => Return (with_selectedPoints [] state)
  | INVERT_SELECTION => Return (invertSelection state)
  | TOGGLE_POINT_CLOUD_VISIBILITY =>
      Return (with_isPointCloudVisible (negb (isPointCloudVisible state)) state)
  | UPDATE_SELECTED_FACES selectedFacesData isManual =>
      Return (with_isManualFaceSelection (default false isManual)
                (with_selectedFaces (list_to_set selectedFacesData) state))
  | APPLY_LABEL_TO_FACES faceIndices labelId =>
      Return (applyLabelToFaces state faceIndices labelId)
  | RESET_NEW_FILE_FLAG => Return (with_isNewFileLoaded false state)
  | OTHER => Return state
  end.

(** Commands applied one at a time in issue order; an exception leaves the
    run with that exception. *)
Fixpoint run (state : State) (actions : list Action) : Completion State :=
  match actions with
  | [] => Return state
  | a :: rest => s ← annotationReducer state a; run s rest
  end.

(** *** The statistics invariant of the specification *)

(** [Object.values(stats)] summed. *)
Definition statsSum (stats : gmap Z Z) : Z :=
  map_fold (fun _ v acc => v + acc) 0 stats.

Definition statsInvariant (state : State) : Prop :=
  match labelInfo state with
  | Some li =>
      statsSum (labelStats li) = labeledCount li /\
      labeledCount li + unlabeledCount li = Z.of_nat (length (points state)) /\
      statsSum (faceLabelStats li) = faceLabeledCount li /\
      faceLabeledCount li + faceUnlabeledCount li = Z.of_nat (length (faces state))
  | None => True   (* no statistics object: the readers recount from the arrays *)
  end.

End Store.

(** ** Default label colours (constants/colors.js) *)

Module Colors.

Definition DEFAULT_LABEL_COLORS : list string :=
  ["#ff6b6b"; "#54a0ff"; "#96ceb4"; "#4ecdc4"; "#45b7d1"; "#feca57";
   "#ff9ff3"; "#5f27cd"; "#00d2d3"; "#ff9f43";
   "#ee5a24"; "#0abde3"; "#10ac84"; "#f9ca24"; "#f0932b";
   "#eb4d4b"; "#6c5ce7"; "#a29bfe"; "#fd79a8"; "#e17055"]%string.

(** [DEFAULT_LABEL_COLORS[(labelId - 1) % DEFAULT_LABEL_COLORS.length]] for a
    positive id: the difference is a double, the remainder of a double that
    is not negative is exact. *)
Definition getDefaultColorForLabel (labelId : Z) : string :=
  if labelId <=? 0 then "#cccccc"%string
  else default ""%string
         (at_index DEFAULT_LABEL_COLORS
            (toDouble (labelId - 1) mod Z.of_nat (length DEFAULT_LABEL_COLORS))).

(** [DEFAULT_LABEL_COLORS[index % DEFAULT_LABEL_COLORS.length]]: the
    remainder has the sign of [index], so a negative index reads
    [undefined]. *)
Definition getDefaultColorByIndex (index : Z) : option string :=
  at_index DEFAULT_LABEL_COLORS (Z.rem index (Z.of_nat (length DEFAULT_LABEL_COLORS))).

End Colors.

(** ** Mesh-exchange decoder (glbParser.js)

    The part of [parseGLB] that runs on the scene the external loader
    returns. Material bookkeeping (the material table and the
    [materialIndex] of faces) is not modelled. *)

Module GlbParser.
Import Three.

Definition hasAnyCustom (c : CustomData) : bool :=
  bool_decide (faceLabels c <> None) || bool_decide (labelDefinitions c <> None) ||
  bool_decide (originalHeader c <> None) || bool_decide (units c <> None) ||
  bool_decide (pointLabels c <> None) || bool_decide (meshLabels c <> None) ||
  bool_decide (annotationData c <> None) || bool_decide (metadata c <> None).

(** Moves the known custom keys of a mesh node from the top level of
    [userData] into one nested [extras] bag. *)
Definition standardizeUserDataStructure (node : NodeData) : NodeData :=
  if negb (isMesh node) then node
  else if hasAnyCustom (top (userData node)) then
    mkNode (uuid node) (isMesh node) (node_name node) (geometry node) (matrixWorld node)
      (mkUserData noCustom (Some (top (userData node))))
  else node.

(** [scene.traverse(node => standardizeUserDataStructure(node))] *)
Fixpoint standardizeScene (o : Object3D) : Object3D :=
  match o with
  | Obj node children => Obj (standardizeUserDataStructure node) (map standardizeScene children)
  end.

(** [Vector3.applyMatrix4] of three.js on the column-major elements [e]. *)
Definition applyMatrix4 (e : list float) (x y z : float) : list float :=
  let el k := nth k e nan in
  let w := (1 / (el 3%nat * x + el 7%nat * y + el 11%nat * z + el 15%nat))%float in
  [((el 0%nat * x + el 4%nat * y + el 8%nat * z + el 12%nat) * w)%float;
   ((el 1%nat * x + el 5%nat * y + el 9%nat * z + el 13%nat) * w)%float;
   ((el 2%nat * x + el 6%nat * y + el 10%nat * z + el 14%nat) * w)%float].

(** [labelId && labelId > 0] on an entry that may be missing. *)
Definition positiveLabel (l : option Z) : option Z :=
  match l with
  | Some z => if 0 <? z then Some z else None
  | None => None
  end.

Definition extractVertex (g : BufferGeometry) (matrixWorld : list float)
    (positions : BufferAttribute) (i : Z) : Point :=
  mkPoint
    (applyMatrix4 matrixWorld (getX positions i) (getY positions i) (getZ positions i))
    (match attr_color g with
     | Some colors => [getX colors i; getY colors i; getZ colors i]
     | None => [1; 1; 1]%float
     end)
    (match attr_label_id g with
     | Some labelIds => positiveLabel (at_index labelIds i)
     | None => None
     end)
    (match attr_uv g with
     | Some uvs => Some [getX uvs i; getY uvs i]
     | None => None
     end)
    (match attr_normal g with
     | Some normals => Some [getX normals i; getY normals i; getZ normals i]
     | None => None
     end).

Definition extractVerticesFromGeometry (g : BufferGeometry) (matrixWorld : list float)
    : list Point :=
  match attr_position g with
  | None => []
  | Some positions => map (extractVertex g matrixWorld positions) (upto (count positions))
  end.

(** The start indices [0, 3, 6, ...] below [n]: the loop [for (i = 0; i < n; i += 3)]. *)
Definition strides (n : Z) : list Z := map (fun k => 3 * k) (upto ((n + 2) / 3)).

Definition uvTriple (g : BufferGeometry) (v0 v1 v2 : Z) : option (list float) :=
  match attr_uv g with
  | Some uvs => Some [getX uvs v0; getY uvs v0; getX uvs v1; getY uvs v1;
                      getX uvs v2; getY uvs v2]
  | None => None
  end.

(** Reading [geometry.attributes.position.count] of a geometry without
    positions throws. An index entry read past the end of the index buffer
    is [undefined] in the source and is left out of the face here; that
    arises only when the index count is not a multiple of 3. *)
Definition extractFacesFromGeometry (g : BufferGeometry) : Completion (list Face) :=
  match index g with
  | None =>
      match attr_position g with
      | None => Throw TypeError
      | Some positions =>
          Return (map (fun i => mkFace [i; i + 1; i + 2] None
                                  (uvTriple g i (i + 1) (i + 2)) None)
                    (strides (count positions)))
      end
  | Some idx =>
      Return (map (fun i =>
                let v k := at_index idx (i + k) in
                mkFace (omap id [v 0; v 1; v 2]) None
                  (uvTriple g (default 0 (v 0)) (default 0 (v 1)) (default 0 (v 2))) None)
               (strides (Z.of_nat (length idx))))
  end.

(** Assigning [extras.faceLabels] to the local faces by position. *)
Definition applyFaceLabels (faceLabelIds : option (list Z)) (localFaces : list Face)
    : list Face :=
  match faceLabelIds with
  | Some ids =>
      if bool_decide (0 < length ids)%nat then
        imap (fun localFaceIndex face =>
                match positiveLabel (ids !! localFaceIndex) with
                | Some labelId => mkFace (indices face) (Some labelId)
                                    (face_textureCoords face) (face_color face)
                | None => face
                end) localFaces
      else localFaces
  | None => localFaces
  end.

Definition shiftIndices (totalVertices : Z) (face : Face) : Face :=
  mkFace (map (fun index => index + totalVertices) (indices face)) (face_labelId face)
    (face_textureCoords face) (face_color face).

Definition geometryOf (store : GeomStore) (node : NodeData) : option BufferGeometry :=
  g ← geometry node; store !! g.

(** The second traversal: the accumulator is [(allPoints, allFaces)], whose
    lengths are [totalVertices] and [totalFaces]. *)
Definition extractMesh (store : GeomStore) (acc : list Point * list Face) (node : NodeData)
    : Completion (list Point * list Face) :=
  let '(allPoints, allFaces) := acc in
  if negb (isMesh node) then Return acc else
  match geometryOf store node with
  | None => Throw TypeError
  | Some g =>
      let vertices := extractVerticesFromGeometry g (matrixWorld node) in
      localFaces ← extractFacesFromGeometry g;
      let faceLabelIds := e ← extras (userData node); faceLabels e in
      let localFaces := applyFaceLabels faceLabelIds localFaces in
      let totalVertices := Z.of_nat (length allPoints) in
      Return (allPoints ++ vertices, allFaces ++ map (shiftIndices totalVertices) localFaces)
  end.

(** [geometry.index ? geometry.index.count / 3 : geometry.attributes.position.count / 3].
    JavaScript's division is exact; the quotient below is the JavaScript value
    when the count is a multiple of 3, as it is for every triangle list. *)
Definition faceCountOf (g : BufferGeometry) : Completion Z :=
  match index g, attr_position g with
  | Some idx, _ => Return (Z.of_nat (length idx) / 3)
  | None, Some positions => Return (count positions / 3)
  | None, None => Throw TypeError
  end.

Definition vertexCountOf (g : BufferGeometry) : Completion Z :=
  match attr_position g with
  | Some positions => Return (count positions)
  | None => Throw TypeError
  end.

(** The [faceToMesh] entries of one mesh. *)
Definition faceToMeshEntries (u : Uuid) (faceOffset faceCount : Z)
    (m : gmap Z (Uuid * Z)) : gmap Z (Uuid * Z) :=
  foldl (fun m k => <[faceOffset + k := (u, k)]> m) m (upto faceCount).

(** The traversal that builds the interaction mapping: the accumulator is
    the mapping so far with [faceOffset] and [vertexOffset]. *)
Definition mapMesh (store : GeomStore)
    (acc : gmap Uuid Range * gmap Uuid Range * gmap Z (Uuid * Z) * Z * Z)
    (node : NodeData)
    : Completion (gmap Uuid Range * gmap Uuid Range * gmap Z (Uuid * Z) * Z * Z) :=
  let '(faceRanges, pointRanges, f2m, faceOffset, vertexOffset) := acc in
  if negb (isMesh node) then Return acc else
  match geometryOf store node with
  | None => Throw TypeError
  | Some g =>
      faceCount ← faceCountOf g;
      vertexCount ← vertexCountOf g;
      Return (<[uuid node := mkRange faceOffset (faceOffset + faceCount)]> faceRanges,
              <[uuid node := mkRange vertexOffset (vertexOffset + vertexCount)]> pointRanges,
              faceToMeshEntries (uuid node) faceOffset faceCount f2m,
              faceOffset + faceCount, vertexOffset + vertexCount)
  end.

Definition buildInteractionMapping (store : GeomStore) (scene : Object3D)
    : Completion InteractionMapping :=
  r ← Store.forEachC (mapMesh store) (traverse scene) (∅, ∅, ∅, 0, 0);
  let '(faceRanges, pointRanges, f2m, _, _) := r in
  Return (mkMapping (Some faceRanges) (Some pointRanges) f2m).

(** Label definitions and the original header: first found wins. *)
Definition firstLabelDefinitions (nodes : list NodeData) : list Label :=
  foldl (fun defs node =>
           if isMesh node then
             match extras (userData node) with
             | Some e =>
                 if bool_decide (length defs = 0%nat)
                 then default defs (labelDefinitions e) else defs
             | None => defs
             end
           else defs) [] nodes.

Definition firstOriginalHeader (nodes : list NodeData) : option FileHeader :=
  foldl (fun hdr node =>
           if isMesh node then
             match hdr, extras (userData node) with
             | None, Some e => originalHeader e
             | _, _ => hdr
             end
           else hdr) None nodes.

(** The counting pass: every label starts at zero; each labelled face or
    point increments the label object the id maps to, which for a repeated
    id is the last definition carrying it. *)
Definition countOf (labelIds : list (option Z)) (id : Z) : Z :=
  Z.of_nat (length (filter (fun l => positiveLabel l = Some id) labelIds)).

Definition isLastWithId (defs : list Label) (k : nat) (id : Z) : bool :=
  forallb (fun l => negb (label_id l =? id)) (drop (S k) defs).

Definition withCounts (allPoints : list Point) (allFaces : list Face) (defs : list Label)
    : list Label :=
  imap (fun k label =>
          let owns := isLastWithId defs k (label_id label) in
          mkLabel (label_id label) (label_name label)
            (match label_color label with
             | Some c => Some c
             | None => Some (ColorHex (Colors.getDefaultColorForLabel
                                         (if label_id label =? 0 then Z.of_nat k + 1
                                          else label_id label)))
             end)
            (label_visible label)
            (Some (if owns then countOf (map point_labelId allPoints) (label_id label) else 0))
            (Some (if owns then countOf (map face_labelId allFaces) (label_id label) else 0)))
       defs.

(** The body of the loader callback of [parseGLB]. The normalisation writes to
    the nodes of the scene, so the scene kept as [originalScene] is the
    normalised one. *)
Definition processScene (store : GeomStore) (loaded : Object3D) (fileName : string)
    : Completion Store.Payload :=
  let scene := standardizeScene loaded in
  r ← Store.forEachC (extractMesh store) (traverse scene) ([], []);
  let '(allPoints, allFaces) := r in
  interactionMapping ← buildInteractionMapping store scene;
  let labelDefinitions := withCounts allPoints allFaces (firstLabelDefinitions (traverse scene)) in
  Return (Store.mkPayload
            allPoints
            (if bool_decide (0 < length allFaces)%nat
             then Some (map Store.FaceObject allFaces) else None)
            (Some (default
                     (mkFileHeader "glb" None (Some (Z.of_nat (length allPoints)))
                        (Some (Z.of_nat (length allFaces))) None None
                        [("Converted from GLB file: " +:+ fileName)%string])
                     (firstOriginalHeader (traverse scene))))
            None
            (Some scene)
            (Some interactionMapping)
            (Some labelDefinitions)).

(** [parseGLB] rejects with a new [Error] whatever the processing threw. *)
Definition parseGLB (store : GeomStore) (loaded : Object3D) (fileName : string)
    : Completion Store.Payload :=
  match processScene store loaded fileName with
  | Return payload => Return payload
  | Throw _ => Throw (ErrorMsg "GLTF data processing failed")
  end.

End GlbParser.

(** ** Mesh-exchange encoder (glbExporter.js)

    [exportGLB] up to the call of the external encoder: the result is the
    scene handed to [GLTFExporter.parse], and the geometry store as the
    function leaves it. *)

Module GlbExporter.
Import Three.

(** [array.slice(start, end)] *)
Definition relativeIndex (len i : Z) : Z :=
  if i <? 0 then Z.max (len + i) 0 else Z.min i len.

Definition slice {A} (l : list A) (start end_ : Z) : list A :=
  let len := Z.of_nat (length l) in
  let k := relativeIndex len start in
  let final := relativeIndex len end_ in
  take (Z.to_nat (final - k)) (drop (Z.to_nat k) l).

(** The value an [Int32Array] element holds after a number is stored. *)
Definition toInt32 (z : Z) : Z := (z + 2147483648) mod 4294967296 - 2147483648.

(** [points.forEach((point, index) => ... pointLabelMap.set(index, point.labelId))]
    for the points whose label is neither absent nor 0. *)
Definition buildPointLabelMap (points : list Point) : gmap Z Z :=
  foldl (fun m p =>
           match point_labelId (snd p) with
           | Some l => if l =? 0 then m else <[fst p := l]> m
           | None => m
           end) ∅ (zip (upto (Z.of_nat (length points))) points).

(** [faces.map(face => face.labelId || 0)], or the empty array without faces. *)
Definition buildFaceLabelIds (faces : option (list Face)) : list Z :=
  match faces with
  | Some fs => map (fun face => default 0 (orElse (face_labelId face) None)) fs
  | None => []
  end.

Definition withTop (c : CustomData) (node : NodeData) : NodeData :=
  mkNode (uuid node) (isMesh node) (node_name node) (geometry node) (matrixWorld node)
    (mkUserData c (extras (userData node))).

Definition setFaceLabels (v : list Z) (node : NodeData) : NodeData :=
  let c := top (userData node) in
  withTop (mkCustom (Some v) (labelDefinitions c) (originalHeader c) (units c)
             (pointLabels c) (meshLabels c) (annotationData c) (metadata c)) node.

Definition setLabelDefinitions (v : list Label) (node : NodeData) : NodeData :=
  let c := top (userData node) in
  withTop (mkCustom (faceLabels c) (Some v) (originalHeader c) (units c)
             (pointLabels c) (meshLabels c) (annotationData c) (metadata c)) node.

Definition setOriginalHeader (v : FileHeader) (node : NodeData) : NodeData :=
  let c := top (userData node) in
  withTop (mkCustom (faceLabels c) (labelDefinitions c) (Some v) (units c)
             (pointLabels c) (meshLabels c) (annotationData c) (metadata c)) node.

(** [geometry.setAttribute('_label_id', new THREE.Int32BufferAttribute(ids, 1))] *)
Definition setLabelIdAttribute (ids : list Z) (g : BufferGeometry) : BufferGeometry :=
  mkGeometry (attr_position g) (attr_color g) (attr_uv g) (attr_normal g)
    (Some ids) (index g) (groups g).

(** The [Int32Array] of step 4e. *)
Definition vertexLabelIds (pointLabelMap : gmap Z Z) (nPoints : Z) (pointRange : Range)
    (vertexCount : Z) : list Z :=
  map (fun localIndex =>
         let globalIndex := range_start pointRange + localIndex in
         if globalIndex <? nPoints
         then toInt32 (default 0 (pointLabelMap !! globalIndex))
         else 0)
      (upto vertexCount).

(** [{id, name, color, visible}] of a label. *)
Definition labelDefinitionOf (label : Label) : Label :=
  mkLabel (label_id label) (label_name label) (label_color label) (label_visible label)
    None None.

(** One turn of the attachment loop for the pair at position [i]. *)
Definition attachPair (faceRanges pointRanges : gmap Uuid Range)
    (nPoints : Z) (pointLabelMap : gmap Z Z) (faceLabelIds : list Z)
    (labels : list Label) (originalHeader : option FileHeader)
    (i : nat) (originalMesh clonedMesh : NodeData) (store : GeomStore)
    : NodeData * GeomStore :=
  match geometry clonedMesh with
  | None => (clonedMesh, store)
  | Some gref =>
  match store !! gref with
  | None => (clonedMesh, store)
  | Some g =>
  match pointRanges !! uuid originalMesh, faceRanges !! uuid originalMesh with
  | Some pointRange, Some faceRange =>
      let store :=
        if bool_decide (0 < size pointLabelMap)%nat then
          match attr_position g with
          | Some positionAttribute =>
              <[gref := setLabelIdAttribute
                          (vertexLabelIds pointLabelMap nPoints pointRange
                             (count positionAttribute)) g]> store
          | None => store
          end
        else store in
      let clonedMesh :=
        if bool_decide (0 < length faceLabelIds)%nat
        then setFaceLabels (slice faceLabelIds (range_start faceRange) (range_end faceRange))
               clonedMesh
        else clonedMesh in
      let clonedMesh :=
        if bool_decide (i = 0%nat) then
          let clonedMesh :=
            if bool_decide (0 < length labels)%nat
            then setLabelDefinitions (map labelDefinitionOf labels) clonedMesh
            else clonedMesh in
          match originalHeader with
          | Some h => setOriginalHeader h clonedMesh
          | None => clonedMesh
          end
        else clonedMesh in
      (clonedMesh, store)
  | _, _ => (clonedMesh, store)
  end end end.

(** [for (let i = 0; i < originalMeshes.length; i++)] over the two arrays. *)
Fixpoint attachLoop (faceRanges pointRanges : gmap Uuid Range)
    (nPoints : Z) (pointLabelMap : gmap Z Z) (faceLabelIds : list Z)
    (labels : list Label) (originalHeader : option FileHeader)
    (i : nat) (originalMeshes clonedMeshes : list NodeData) (store : GeomStore)
    : list NodeData * GeomStore :=
  match originalMeshes, clonedMeshes with
  | originalMesh :: os, clonedMesh :: cs =>
      let '(clonedMesh', store1) :=
        attachPair faceRanges pointRanges nPoints pointLabelMap faceLabelIds labels
          originalHeader i originalMesh clonedMesh store in
      let '(cs', store2) :=
        attachLoop faceRanges pointRanges nPoints pointLabelMap faceLabelIds labels
          originalHeader (S i) os cs store1 in
      (clonedMesh' :: cs', store2)
  | _, _ => (clonedMeshes, store)
  end.

(** The cloned scene after the loop: the loop writes to the mesh nodes that
    [clonedMeshes] references, which are the mesh nodes of the cloned tree
    in traversal order. [putMeshes] writes the updated nodes back in that
    order. *)
Fixpoint putMeshes (o : Object3D) (meshes : list NodeData) : Object3D * list NodeData :=
  match o with
  | Obj node children =>
      let '(node', meshes) :=
        if isMesh node then
          match meshes with
          | m :: rest => (m, rest)
          | [] => (node, [])
          end
        else (node, meshes) in
      let fix putAll (cs : list Object3D) (meshes : list NodeData)
          : list Object3D * list NodeData :=
        match cs with
        | [] => ([], meshes)
        | c :: cs' =>
            let '(c', meshes1) := putMeshes c meshes in
            let '(cs'', meshes2) := putAll cs' meshes1 in
            (c' :: cs'', meshes2)
        end in
      let '(children', meshes') := putAll children meshes in
      (Obj node' children', meshes')
  end.

(** [exportGLB(originalScene, interactionMapping, points, fileName, faces,
    labels, originalHeader)] up to the encoder call. [freshUuid] is the supply
    the clone draws its new uuids from. The geometry store is returned in
    every case, so that what the function wrote is visible after an error
    as well. *)
Definition exportGLB (store : GeomStore) (freshUuid : Uuid)
    (originalScene : option Object3D) (interactionMapping : option InteractionMapping)
    (points : list Point) (faces : option (list Face)) (labels : list Label)
    (originalHeader : option FileHeader)
    : GeomStore * Completion Object3D :=
  match originalScene with
  | None => (store, Throw (ErrorMsg "Missing original scene object (originalScene)."))
  | Some originalScene =>
  match interactionMapping with
  | Some (mkMapping (Some faceRanges) (Some pointRanges) _) =>
      let sceneToExport := fst (clone originalScene freshUuid) in
      let pointLabelMap := buildPointLabelMap points in
      let faceLabelIds := buildFaceLabelIds faces in
      let originalMeshes := collectMeshes originalScene in
      let clonedMeshes := collectMeshes sceneToExport in
      if bool_decide (length originalMeshes <> length clonedMeshes) then
        (store, Throw (ErrorMsg "Parallel traversal failed"))
      else
        let '(clonedMeshes', store') :=
          attachLoop faceRanges pointRanges (Z.of_nat (length points)) pointLabelMap
            faceLabelIds labels originalHeader 0 originalMeshes clonedMeshes store in
        (store', Return (fst (putMeshes sceneToExport clonedMeshes')))
  | _ => (store, Throw (ErrorMsg "Missing interaction mapping object (interactionMapping)."))
  end end.

End GlbExporter.

(** ** Point-cloud decoder (plyParser.js)

    The buffer is a [string] holding one character per byte; the header is
    ASCII text, so decoding it is the identity and the byte length of the
    re-encoded header is its length. White space is ASCII white space. The
    side channel of material files ([materialMap]) is not modelled. *)

Module PlyParser.

(** A JavaScript number read from the file: an integer (integer readers,
    [parseInt]) or a double (float readers, [parseFloat], [NaN]). *)
Inductive JsNumber :=
| NumZ (z : Z)
| NumF (f : float).

Definition zToFloat (z : Z) : float :=
  match z with
  | Z0 => PrimFloat.zero
  | Zpos p => SF2Prim (S754_finite false p 0)
  | Zneg p => SF2Prim (S754_finite true p 0)
  end.

Definition toFloat (n : JsNumber) : float :=
  match n with NumZ z => zToFloat z | NumF f => f end.

(** The integer a number is, when it is one. *)
Definition floatToZ (f : float) : option Z :=
  match Prim2SF f with
  | S754_zero _ => Some 0
  | S754_finite s m e =>
      let magnitude :=
        if 0 <=? e then Some (Zpos m * 2 ^ e)
        else if Zpos m mod 2 ^ (- e) =? 0 then Some (Zpos m / 2 ^ (- e)) else None in
      (fun z => if s then - z else z) <$> magnitude
  | _ => None
  end.

Definition asInteger (n : JsNumber) : option Z :=
  match n with NumZ z => Some z | NumF f => floatToZ f end.

(** [new Array(n)] throws unless [n] is an integer in [0, 2^32). *)
Definition arrayLength (n : JsNumber) : Completion nat :=
  match asInteger n with
  | Some z => if (0 <=? z) && (z <? 4294967296) then Return (Z.to_nat z) else Throw RangeError
  | None => Throw RangeError
  end.

(** *** Strings *)

Fixpoint split (sep : ascii) (s : string) : list string :=
  match s with
  | EmptyString => [EmptyString]
  | String c rest =>
      if Ascii.eqb c sep then EmptyString :: split sep rest
      else match split sep rest with
           | h :: t => String c h :: t
           | [] => [String c EmptyString]
           end
  end.

Fixpoint trimStart (s : string) : string :=
  match s with
  | String c rest => if Ascii.is_space c then trimStart rest else s
  | EmptyString => EmptyString
  end.

Definition trim (s : string) : string :=
  String.rev (trimStart (String.rev (trimStart s))).

(** [s.split(/\s+/)] of a trimmed string. *)
Definition splitSpaces (s : string) : list string :=
  match String.words s with
  | [] => [EmptyString]
  | ws => ws
  end.

Definition lowerChar (c : ascii) : ascii :=
  let n := nat_of_ascii c in
  if (65 <=? n)%nat && (n <=? 90)%nat then ascii_of_nat (n + 32) else c.

Fixpoint toLowerCase (s : string) : string :=
  match s with
  | String c rest => String (lowerChar c) (toLowerCase rest)
  | EmptyString => EmptyString
  end.

Definition startsWith (s pre : string) : bool := String.prefix pre s.

(** [s.includes(sub)] *)
Fixpoint includes (s sub : string) : bool :=
  String.prefix sub s ||
  match s with
  | String _ rest => includes rest sub
  | EmptyString => false
  end.

(** [s.substring(n)] *)
Fixpoint substringFrom (n : nat) (s : string) : string :=
  match n, s with
  | S n', String _ rest => substringFrom n' rest
  | _, _ => s
  end.

Definition digitValue (radix : Z) (c : ascii) : option Z :=
  let n := Z.of_nat (nat_of_ascii c) in
  let d := if (48 <=? n) && (n <=? 57) then Some (n - 48)
           else if (97 <=? n) && (n <=? 122) then Some (n - 87)
           else if (65 <=? n) && (n <=? 90) then Some (n - 55)
           else None in
  d' ← d; if d' <? radix then Some d' else None.

Fixpoint digitsValue (radix : Z) (s : string) (acc : option Z) : option Z :=
  match s with
  | String c rest =>
      match digitValue radix c with
      | Some d => digitsValue radix rest (Some (radix * default 0 acc + d))
      | None => acc
      end
  | EmptyString => acc
  end.

(** [parseInt(input)]: [None] is [NaN]. *)
Definition parseInt (input : option string) : option Z :=
  s ← input;
  let s := trimStart s in
  let '(sign, s) := match s with
                    | String "-" rest => (-1, rest)
                    | String "+" rest => (1, rest)
                    | _ => (1, s)
                    end in
  let '(radix, s) := match s with
                     | String "0" (String "x" rest) => (16, rest)
                     | String "0" (String "X" rest) => (16, rest)
                     | _ => (10, s)
                     end in
  z ← digitsValue radix s None; Some (sign * z).

Definition parseIntNumber (input : option string) : JsNumber :=
  match parseInt input with
  | Some z => NumZ z
  | None => NumF PrimFloat.nan
  end.

(** *** Binary readers *)

Inductive Reader :=
| getInt8 | getUint8 | getInt16 | getUint16 | getInt32 | getUint32
| getFloat32 | getFloat64.

(** What [DATA_TYPE_MAP[key]] yields: an entry of the table, a property
    inherited from [Object.prototype] (which is truthy and has neither
    [reader] nor [size]), or [undefined]. *)
Inductive TypeInfo :=
| Entry (reader : Reader) (size : Z)
| Inherited
| NoEntry.

Definition DATA_TYPE_MAP (key : string) : TypeInfo :=
  if String.eqb key "char" then Entry getInt8 1
  else if String.eqb key "uchar" then Entry getUint8 1
  else if String.eqb key "short" then Entry getInt16 2
  else if String.eqb key "ushort" then Entry getUint16 2
  else if String.eqb key "int" then Entry getInt32 4
  else if String.eqb key "uint" then Entry getUint32 4
  else if String.eqb key "float" then Entry getFloat32 4
  else if String.eqb key "float32" then Entry getFloat32 4
  else if String.eqb key "double" then Entry getFloat64 8
  else if String.eqb key "float64" then Entry getFloat64 8
  else if String.eqb key "constructor" || String.eqb key "__proto__" then Inherited
  else NoEntry.

Definition byteAt (c : ascii) : Z := Z.of_nat (nat_of_ascii c).

(** The unsigned little-endian value of a run of bytes. *)
Definition littleEndian (bytes : list Z) : Z :=
  foldr (fun b acc => b + 256 * acc) 0 bytes.

Definition signed (bits : Z) (v : Z) : Z :=
  if v <? 2 ^ (bits - 1) then v else v - 2 ^ bits.

(** The double an IEEE 754 bit pattern denotes: [mbits] mantissa bits,
    [ebits] exponent bits. *)
Definition ieee (mbits ebits : Z) (v : Z) : float :=
  let m := v mod 2 ^ mbits in
  let e := (v / 2 ^ mbits) mod 2 ^ ebits in
  let s := negb (v / 2 ^ (mbits + ebits) =? 0) in
  let bias := 2 ^ (ebits - 1) - 1 in
  if e =? 2 ^ ebits - 1 then
    (if m =? 0 then (if s then PrimFloat.neg_infinity else PrimFloat.infinity) else PrimFloat.nan)
  else
    let '(mant, exp) := if e =? 0 then (m, 1 - bias - mbits)
                        else (m + 2 ^ mbits, e - bias - mbits) in
    match mant with
    | Zpos p => SF2Prim (S754_finite s p exp)
    | _ => if s then PrimFloat.neg_zero else PrimFloat.zero
    end.

Definition decode (reader : Reader) (bytes : list Z) : JsNumber :=
  let v := littleEndian bytes in
  match reader with
  | getInt8 => NumZ (signed 8 v)
  | getUint8 => NumZ v
  | getInt16 => NumZ (signed 16 v)
  | getUint16 => NumZ v
  | getInt32 => NumZ (signed 32 v)
  | getUint32 => NumZ v
  | getFloat32 => NumF (ieee 23 8 v)
  | getFloat64 => NumF (ieee 52 11 v)
  end.

(** [dataView[reader](offset, littleEndian)]: a read that does not lie
    within the buffer throws. *)
Definition dataViewGet (buffer : string) (reader : Reader) (size : Z) (offset : Z)
    : Completion JsNumber :=
  if (offset <? 0) || (Z.of_nat (String.length buffer) <? offset + size)
  then Throw RangeError
  else Return (decode reader
                 (map byteAt (take (Z.to_nat size)
                                (drop (Z.to_nat offset) (String.list_ascii_of_string buffer))))).

(** [readDataValue(dataView, type, offset)] *)
Definition readDataValue (buffer : string) (type : option string) (offset : Z)
    : Completion (JsNumber * Z) :=
  match type with
  | None => Throw TypeError
  | Some t =>
      match DATA_TYPE_MAP (toLowerCase t) with
      | NoEntry => Return (NumZ 0, offset)
      | Inherited => Throw TypeError
      | Entry reader size =>
          value ← dataViewGet buffer reader size offset;
          Return (value, offset + size)
      end
  end.

(** *** Decoded points and faces *)

Record PlyPoint := mkPlyPoint {
  ply_position : list float;
  ply_color : list float;
  ply_labelId : option JsNumber;
  ply_textureCoords : option (list float)
}.

Record PlyFace := mkPlyFace {
  ply_indices : list JsNumber;
  ply_faceLabelId : option JsNumber;
  ply_faceTextureCoords : option (list JsNumber);
  ply_faceColor : option (list float)
}.

Definition emptyFace : PlyFace := mkPlyFace [] None None None.

(** [if (!face.color) face.color = [1, 1, 1]; face.color[k] = v] *)
Definition setFaceColor (k : nat) (v : float) (face : PlyFace) : PlyFace :=
  mkPlyFace (ply_indices face) (ply_faceLabelId face) (ply_faceTextureCoords face)
    (Some (<[k := v]> (default [1; 1; 1]%float (ply_faceColor face)))).

Definition setFaceLabelId (v : JsNumber) (face : PlyFace) : PlyFace :=
  mkPlyFace (ply_indices face) (Some v) (ply_faceTextureCoords face) (ply_faceColor face).

(** The assignment after a list property is read. *)
Definition setFaceList (name : string) (l : list JsNumber) (face : PlyFace) : PlyFace :=
  if String.eqb name "vertex_indices"
  then mkPlyFace l (ply_faceLabelId face) (ply_faceTextureCoords face) (ply_faceColor face)
  else if String.eqb name "texcoord"
  then mkPlyFace (ply_indices face) (ply_faceLabelId face) (Some l) (ply_faceColor face)
  else face.

Definition isList (prop : Property) : bool :=
  bool_decide (prop_type prop = Some "list"%string).

(** [n > 0] *)
Definition isPositive (n : JsNumber) : bool :=
  match n with
  | NumZ z => 0 <? z
  | NumF f => PrimFloat.ltb 0 f
  end.

(** *** The header *)

Record HeaderState := mkHeaderState {
  isBinary : bool;
  h_vertexCount : JsNumber;
  h_faceCount : JsNumber;
  headerEndIndex : Z;
  h_properties : list Property;
  h_faceProperties : list Property;
  h_format : option string;
  h_version : option string;
  h_comments : list string;
  currentElement : option string
}.

Definition initialHeader : HeaderState :=
  mkHeaderState false (NumZ 0) (NumZ 0) (-1) [] [] (Some ""%string) None [] None.

(** The [switch (command)] of the header loop on one trimmed line. *)
Definition headerLine (line : string) (st : HeaderState) : Completion HeaderState :=
  let parts := splitSpaces line in
  let part k := at_index parts k in
  let command := default ""%string (part 0) in
  if String.eqb command "format" then
    match part 1 with
    | None => Throw TypeError      (* [format.startsWith] of undefined *)
    | Some fmt =>
        Return (mkHeaderState (startsWith fmt "binary") (h_vertexCount st) (h_faceCount st)
                  (headerEndIndex st) (h_properties st) (h_faceProperties st)
                  (Some fmt) (part 2) (h_comments st) (currentElement st))
    end
  else if String.eqb command "element" then
    let count := parseIntNumber (part 2) in
    let isVertex := bool_decide (part 1 = Some "vertex"%string) in
    let isFace := bool_decide (part 1 = Some "face"%string) in
    Return (mkHeaderState (isBinary st)
              (if isVertex then count else h_vertexCount st)
              (if isVertex then h_faceCount st else if isFace then count else h_faceCount st)
              (headerEndIndex st) (h_properties st) (h_faceProperties st)
              (h_format st) (h_version st) (h_comments st) (part 1))
  else if String.eqb command "property" then
    let isListType := bool_decide (part 1 = Some "list"%string) in
    let property :=
      mkProperty (default ""%string (last parts)) (part 1)
        (if isListType then part 2 else None) (if isListType then part 3 else None) in
    let toVertex := bool_decide (currentElement st = Some "vertex"%string) in
    Return (mkHeaderState (isBinary st) (h_vertexCount st) (h_faceCount st)
              (headerEndIndex st)
              (if toVertex then h_properties st ++ [property] else h_properties st)
              (if toVertex then h_faceProperties st else h_faceProperties st ++ [property])
              (h_format st) (h_version st) (h_comments st) (currentElement st))
  else if String.eqb command "comment" then
    Return (mkHeaderState (isBinary st) (h_vertexCount st) (h_faceCount st)
              (headerEndIndex st) (h_properties st) (h_faceProperties st)
              (h_format st) (h_version st)
              (h_comments st ++ [trim (substringFrom 8 line)]) (currentElement st))
  else Return st.

(** The header loop from line [i] on; it stops at [end_header]. *)
Fixpoint headerLoop (i : Z) (lines : list string) (st : HeaderState)
    : Completion HeaderState :=
  match lines with
  | [] => Return st
  | raw :: rest =>
      let line := trim raw in
      if String.eqb line "end_header" then
        Return (mkHeaderState (isBinary st) (h_vertexCount st) (h_faceCount st)
                  (i + 1) (h_properties st) (h_faceProperties st)
                  (h_format st) (h_version st) (h_comments st) (currentElement st))
      else st' ← headerLine line st; headerLoop (i + 1) rest st'
  end.

(** *** Comments: texture file and label definitions (step 3) *)

Definition findTexture (parts : list string) : option string :=
  match list_find (fun part => toLowerCase part = "texturefile"%string) parts with
  | Some (tfIndex, _) => parts !! S tfIndex
  | None => None
  end.

Definition scanComment (acc : option string * gmap Z string) (comment : string)
    : option string * gmap Z string :=
  let '(textureFile, labelDefinitions) := acc in
  let lowerComment := toLowerCase comment in
  if includes lowerComment "texturefile" then
    match findTexture (splitSpaces comment) with
    | Some file => (Some file, labelDefinitions)
    | None => acc
    end
  else if startsWith lowerComment "label" then
    let parts := splitSpaces comment in
    if bool_decide (3 <= length parts)%nat then
      match parseInt (parts !! 1%nat) with
      | Some labelId =>
          (textureFile, <[labelId := String.concat " " (drop 2 parts)]> labelDefinitions)
      | None => acc
      end
    else acc
  else acc.

Section Decoder.

(** The two number conversions of the language that the decoder relies on
    and that are taken as given: [parseFloat] on a token that may be
    missing, and the spelling of a number that is not an integer when it is
    used as a property name. *)
Variable parseFloat : option string -> float.
Variable numberToString : float -> string.

(** *** ASCII body *)

(** [propMap[properties[i].name.toLowerCase()] = i] *)
Definition propMapOf (properties : list Property) : gmap string Z :=
  foldl (fun m p => <[toLowerCase (prop_name (snd p)) := fst p]> m) ∅
    (zip (upto (Z.of_nat (length properties))) properties).

(** [a ?? b] *)
Definition coalesce {A} (a b : option A) : option A :=
  match a with Some _ => a | None => b end.

Definition parseVertexLine (propMap : gmap string Z) (line : string) : PlyPoint :=
  let values := splitSpaces line in
  let number idx := parseFloat (at_index values idx) in
  let coordinate name := match propMap !! name with
                         | Some idx => number idx
                         | None => 0%float
                         end in
  let channel idx := match idx with
                     | Some idx => Color.normalizeColorValue (number idx)
                     | None => 1%float
                     end in
  let sIdx := propMap !! "s"%string in
  let tIdx := propMap !! "t"%string in
  mkPlyPoint
    [coordinate "x"%string; coordinate "y"%string; coordinate "z"%string]
    [channel (coalesce (propMap !! "red"%string) (propMap !! "r"%string));
     channel (coalesce (propMap !! "green"%string) (propMap !! "g"%string));
     channel (coalesce (propMap !! "blue"%string) (propMap !! "b"%string))]
    (match propMap !! "label"%string with
     | Some idx => Some (parseIntNumber (at_index values idx))
     | None => None
     end)
    (match sIdx, tIdx with
     | None, None => None
     | _, _ => Some [match sIdx with Some idx => number idx | None => 0%float end;
                     match tIdx with Some idx => number idx | None => 0%float end]
     end).

(** [lines[k]?.trim()] with the test [if (!line) continue]: the line to
    parse, or nothing when the slot is skipped. *)
Definition dataLine (lines : list string) (k : Z) : option string :=
  match at_index lines k with
  | Some raw => let line := trim raw in
                if String.eqb line "" then None else Some line
  | None => None
  end.

(** The loop over the face properties of one line, from [valueIndex] on. *)
Fixpoint asciiFaceProps (values : list string) (props : list Property)
    (valueIndex : Z) (face : PlyFace) : Completion PlyFace :=
  match props with
  | [] => Return face
  | prop :: rest =>
      if Z.of_nat (length values) <=? valueIndex then Return face
      else if isList prop then
        n ← arrayLength (parseIntNumber (at_index values valueIndex));
        let l := map (fun k => parseIntNumber (at_index values (valueIndex + 1 + k)))
                   (upto (Z.of_nat n)) in
        asciiFaceProps values rest (valueIndex + 1 + Z.of_nat n)
          (setFaceList (prop_name prop) l face)
      else
        let value := at_index values valueIndex in
        let name := prop_name prop in
        let face :=
          if String.eqb name "label" then setFaceLabelId (parseIntNumber value) face
          else if String.eqb name "red"
          then setFaceColor 0 (Color.normalizeColorValue (parseFloat value)) face
          else if String.eqb name "green"
          then setFaceColor 1 (Color.normalizeColorValue (parseFloat value)) face
          else if String.eqb name "blue"
          then setFaceColor 2 (Color.normalizeColorValue (parseFloat value)) face
          else face in
        asciiFaceProps values rest (valueIndex + 1) face
  end.

(** A loop that fills the slots of an array, any turn of which can throw. *)
Fixpoint fillSlots {A} (turn : Z -> Completion (option A)) (ks : list Z)
    : Completion (list (option A)) :=
  match ks with
  | [] => Return []
  | k :: rest => slot ← turn k; slots ← fillSlots turn rest; Return (slot :: slots)
  end.

Definition parseAsciiPLY (lines : list string) (vertexCount faceCount : JsNumber)
    (properties faceProperties : list Property) (startLine : Z)
    : Completion (list (option PlyPoint) * option (list (option PlyFace))) :=
  nVertices ← arrayLength vertexCount;
  let propMap := propMapOf properties in
  let points := map (fun i => parseVertexLine propMap <$> dataLine lines (startLine + i))
                  (upto (Z.of_nat nVertices)) in
  if isPositive faceCount then
    nFaces ← arrayLength faceCount;
    let faceStartLine := startLine + Z.of_nat nVertices in
    faces ← fillSlots
              (fun i =>
                 if faceStartLine + i <? Z.of_nat (length lines) then
                   match dataLine lines (faceStartLine + i) with
                   | Some line =>
                       face ← asciiFaceProps (splitSpaces line) faceProperties 0 emptyFace;
                       Return (Some face)
                   | None => Return None
                   end
                 else Return None)
              (upto (Z.of_nat nFaces));
    Return (points, Some faces)
  else Return (points, None).

(** *** Binary body *)

Definition setPosition (k : nat) (v : float) (p : PlyPoint) : PlyPoint :=
  mkPlyPoint (<[k := v]> (ply_position p)) (ply_color p) (ply_labelId p) (ply_textureCoords p).
Definition setColor (k : nat) (v : float) (p : PlyPoint) : PlyPoint :=
  mkPlyPoint (ply_position p) (<[k := v]> (ply_color p)) (ply_labelId p) (ply_textureCoords p).
Definition setLabelId (v : JsNumber) (p : PlyPoint) : PlyPoint :=
  mkPlyPoint (ply_position p) (ply_color p) (Some v) (ply_textureCoords p).
Definition setTexture (k : nat) (v : float) (p : PlyPoint) : PlyPoint :=
  mkPlyPoint (ply_position p) (ply_color p) (ply_labelId p)
    (Some (<[k := v]> (default [0; 0]%float (ply_textureCoords p)))).

(** The [switch (propName)] of the binary vertex loop. *)
Definition assignVertex (propName : string) (value : JsNumber) (p : PlyPoint) : PlyPoint :=
  let v := toFloat value in
  if String.eqb propName "x" then setPosition 0 v p
  else if String.eqb propName "y" then setPosition 1 v p
  else if String.eqb propName "z" then setPosition 2 v p
  else if String.eqb propName "red" || String.eqb propName "r"
  then setColor 0 (Color.normalizeColorValue v) p
  else if String.eqb propName "green" || String.eqb propName "g"
  then setColor 1 (Color.normalizeColorValue v) p
  else if String.eqb propName "blue" || String.eqb propName "b"
  then setColor 2 (Color.normalizeColorValue v) p
  else if String.eqb propName "label" then setLabelId value p
  else if String.eqb propName "s" then setTexture 0 v p
  else if String.eqb propName "t" then setTexture 1 v p
  else p.

Fixpoint binaryVertexProps (buffer : string) (props : list Property) (offset : Z)
    (p : PlyPoint) : Completion (PlyPoint * Z) :=
  match props with
  | [] => Return (p, offset)
  | prop :: rest =>
      r ← readDataValue buffer (prop_type prop) offset;
      binaryVertexProps buffer rest (snd r)
        (assignVertex (toLowerCase (prop_name prop)) (fst r) p)
  end.

Fixpoint binaryVertices (buffer : string) (props : list Property) (n : nat) (offset : Z)
    : Completion (list (option PlyPoint) * Z) :=
  match n with
  | O => Return ([], offset)
  | S n' =>
      r ← binaryVertexProps buffer props offset
            (mkPlyPoint [0; 0; 0]%float [1; 1; 1]%float None None);
      rs ← binaryVertices buffer props n' (snd r);
      Return (Some (fst r) :: fst rs, snd rs)
  end.

Fixpoint binaryItems (buffer : string) (itemType : option string) (n : nat) (offset : Z)
    : Completion (list JsNumber * Z) :=
  match n with
  | O => Return ([], offset)
  | S n' =>
      r ← readDataValue buffer itemType offset;
      rs ← binaryItems buffer itemType n' (snd r);
      Return (fst r :: fst rs, snd rs)
  end.

Fixpoint binaryFaceProps (buffer : string) (props : list Property) (offset : Z)
    (face : PlyFace) : Completion (PlyFace * Z) :=
  match props with
  | [] => Return (face, offset)
  | prop :: rest =>
      if isList prop then
        c ← readDataValue buffer (countType prop) offset;
        n ← arrayLength (fst c);
        l ← binaryItems buffer (itemType prop) n (snd c);
        binaryFaceProps buffer rest (snd l) (setFaceList (prop_name prop) (fst l) face)
      else
        r ← readDataValue buffer (prop_type prop) offset;
        let name := prop_name prop in
        let v := Color.normalizeColorValue (toFloat (fst r)) in
        let face :=
          if String.eqb name "label" then setFaceLabelId (fst r) face
          else if String.eqb name "red" then setFaceColor 0 v face
          else if String.eqb name "green" then setFaceColor 1 v face
          else if String.eqb name "blue" then setFaceColor 2 v face
          else face in
        binaryFaceProps buffer rest (snd r) face
  end.

Fixpoint binaryFaces (buffer : string) (props : list Property) (n : nat) (offset : Z)
    : Completion (list (option PlyFace) * Z) :=
  match n with
  | O => Return ([], offset)
  | S n' =>
      r ← binaryFaceProps buffer props offset emptyFace;
      rs ← binaryFaces buffer props n' (snd r);
      Return (Some (fst r) :: fst rs, snd rs)
  end.

Definition parseBinaryPLY (buffer : string) (vertexCount faceCount : JsNumber)
    (properties faceProperties : list Property) (dataOffset : Z)
    : Completion (list (option PlyPoint) * option (list (option PlyFace))) :=
  nVertices ← arrayLength vertexCount;
  vs ← binaryVertices buffer properties nVertices dataOffset;
  if isPositive faceCount then
    nFaces ← arrayLength faceCount;
    fs ← binaryFaces buffer faceProperties nFaces (snd vs);
    Return (fst vs, Some (fst fs))
  else Return (fst vs, None).

(** *** Label statistics (step 4) *)

(** The property name a label value becomes. *)
Definition labelKey (n : JsNumber) : string :=
  match asInteger n, n with
  | Some z, _ => pretty z
  | None, NumF f => numberToString f
  | None, NumZ z => pretty z
  end.

Definition bump (key : string) (acc : gmap string Z * Z) : gmap string Z * Z :=
  (<[key := default 0 (fst acc !! key) + 1]> (fst acc), snd acc + 1).

(** [for (const point of points)]: an empty slot of the array is visited as
    [undefined], and reading its [labelId] throws. *)
Definition countPoint (acc : gmap string Z * Z) (slot : option PlyPoint)
    : Completion (gmap string Z * Z) :=
  match slot with
  | None => Throw TypeError
  | Some point =>
      match ply_labelId point with
      | Some l => Return (bump (labelKey l) acc)
      | None => Return acc
      end
  end.

Definition countFace (acc : gmap string Z * Z) (slot : option PlyFace)
    : Completion (gmap string Z * Z) :=
  match slot with
  | None => Throw TypeError
  | Some face =>
      match ply_faceLabelId face with
      | Some l => if bool_decide (asInteger l = Some (-1)) then Return acc
                  else Return (bump (labelKey l) acc)
      | None => Return acc
      end
  end.

Record PlyLabelInfo := mkPlyLabelInfo {
  ply_labeledCount : Z;
  ply_unlabeledCount : Z;
  ply_labelStats : gmap string Z;
  ply_faceLabeledCount : Z;
  ply_faceUnlabeledCount : Z;
  ply_faceLabelStats : gmap string Z
}.

Record PlyPayload := mkPlyPayload {
  pp_points : list (option PlyPoint);
  pp_faces : option (list (option PlyFace));
  pp_textureFile : option string;
  pp_labelDefinitions : gmap Z string;
  pp_header : FileHeader;
  pp_fields : list string;
  pp_labelInfo : PlyLabelInfo
}.

(** *** parsePLY *)

(** The byte length of [lines.slice(0, headerEndIndex).join('\n') + '\n']. *)
Definition headerByteLength (lines : list string) (headerEndIndex : Z) : Z :=
  foldr (fun line acc => Z.of_nat (String.length line) + 1 + acc) 0
    (take (Z.to_nat headerEndIndex) lines).

Definition parsePLY (buffer : string) : Completion PlyPayload :=
  let headerText := String.substring 0 4096 buffer in
  let lines := split "010" headerText in
  st ← headerLoop 0 lines initialHeader;
  if headerEndIndex st =? -1
  then Throw (ErrorMsg "PLY header parsing failed: end_header not found")
  else
    result ← (if isBinary st
              then parseBinaryPLY buffer (h_vertexCount st) (h_faceCount st)
                     (h_properties st) (h_faceProperties st)
                     (headerByteLength lines (headerEndIndex st))
              else parseAsciiPLY (split "010" buffer) (h_vertexCount st) (h_faceCount st)
                     (h_properties st) (h_faceProperties st) (headerEndIndex st));
    let '(points, faces) := result in
    let '(textureFile, labelDefinitions) := foldl scanComment (None, ∅) (h_comments st) in
    pointStats ← Store.forEachC countPoint points (∅, 0);
    faceStats ← match faces with
                | Some fs => Store.forEachC countFace fs (∅, 0)
                | None => Return (∅, 0)
                end;
    Return (mkPlyPayload points faces textureFile labelDefinitions
              (mkFileHeader (default ""%string (h_format st)) (h_version st)
                 (asInteger (h_vertexCount st)) (asInteger (h_faceCount st))
                 (Some (h_properties st)) (Some (h_faceProperties st)) (h_comments st))
              (map prop_name (h_properties st))
              (mkPlyLabelInfo (snd pointStats)
                 (Z.of_nat (length points) - snd pointStats) (fst pointStats)
                 (snd faceStats)
                 (match faces with
                  | Some fs => Z.of_nat (length fs) - snd faceStats
                  | None => 0
                  end)
                 (fst faceStats))).

End Decoder.

End PlyParser.

(** ** The label dialog (components/LabelManager.jsx)

    The id field of the form is taken as an integer: [parseInt] of what the
    form holds. *)

Module LabelManager.
Import Store Colors.

(** [labels.length > 0 ? Math.max(...labels.map(l => l.id)) + 1 : 1]: the
    maximum of doubles is one of them, the sum is a double. *)
Definition nextId (labels : list Label) : Z :=
  match map label_id labels with
  | [] => 1
  | id :: ids => toDouble (foldl Z.max id ids + 1)
  end.

(** The values [showModal] puts into the form for a new label. *)
Definition newLabelDefaults (labels : list Label) : Z * string * option string :=
  (nextId labels, ("Label " +:+ pretty (nextId labels))%string,
   getDefaultColorByIndex (Z.of_nat (length labels))).

(** [handleOk] when no label is being edited: the command it dispatches,
    with the payload [{...values, id, visible: true}], or none when the id
    is taken (an error message is shown instead). *)
Definition handleOkAdd (labels : list Label) (id : Z) (name : string)
    (color : option JsColor) : option Action :=
  if existsb (fun l => label_id l =? id) labels then None
  else Some (ADD_LABEL (mkLabel id name color (Some true) None None)).

End LabelManager.

(** ** The mesh geometry of the viewport (useMeshGeometries.js)

    [createLabelMeshGeometry] cuts every face into a fan of triangles and
    fills the position, colour and uv buffers from the points the triangles
    name. The geometry it returns is represented by the triangle list it
    stores under [userData.triangles]; the three float buffers are not
    modelled, only the reads of [points] that fill them, which throw on a
    vertex index that names no point. *)

Module MeshGeometries.

Record Triangle := mkTriangle {
  vertices : list Z;
  tri_labelId : option Z;
  faceIndex : Z;
  tri_textureCoords : option (list float);
  faceColor : option (list float)
}.

(** The triangle pushed by turn [i] of the loop over one face. *)
Definition triangleAt (face : Face) (index : Z) (i : Z) : option Triangle :=
  let faceIndices := indices face in
  v0 ← at_index faceIndices 0;
  vi ← at_index faceIndices i;
  vj ← at_index faceIndices (i + 1);
  Some (mkTriangle [v0; vi; vj] (orElse (face_labelId face) None) index
          (face_textureCoords face) (face_color face)).

(** [for (let i = 1; i < faceIndices.length - 1; i++)] under
    [if (faceIndices.length >= 3)]. *)
Definition faceTriangles (index : Z) (face : Face) : list Triangle :=
  let n := Z.of_nat (length (indices face)) in
  if 3 <=? n then omap (triangleAt face index) (map (fun k => 1 + k) (upto (n - 2)))
  else [].

(** [faces.forEach((face, faceIndex) => ...)]: the array [triangles]. *)
Definition triangulate (faces : list Face) : list Triangle :=
  concat (imap (fun k face => faceTriangles (Z.of_nat k) face) faces).

(** [const point = points[vertexIndex]; const [x, y, z] = point.position] *)
Definition namesPoint (points : list Point) (vertexIndex : Z) : bool :=
  bool_decide (is_Some (at_index points vertexIndex)).

(** [createLabelMeshGeometry(hasMesh, faces, points, centerOffset)]: [null],
    the triangles of the geometry, or the exception of a read of a missing
    point. The offset is subtracted in the position buffer only. *)
Definition createLabelMeshGeometry (hasMesh : bool) (faces : list Face) (points : list Point)
    : Completion (option (list Triangle)) :=
  if negb hasMesh || bool_decide (length faces = 0%nat) || bool_decide (length points = 0%nat)
  then Return None
  else
    let triangles := triangulate faces in
    if forallb (fun triangle => forallb (namesPoint points) (vertices triangle)) triangles
    then Return (Some triangles)
    else Throw TypeError.

End MeshGeometries.

(** ** The export command of the overview panel (DataOverview.jsx,
    validateExportData) *)

Module DataOverview.
Import Three Store GlbExporter.

Record Validation := mkValidation {
  valid : bool;
  warnings : list string;
  errors : list string
}.

(** [x.labelId && x.labelId > 0] as a filter test. *)
Definition isLabelled (l : option Z) : bool :=
  match GlbParser.positiveLabel l with Some _ => true | None => false end.

(** [validateExportData(points, faces, labels)]; [points.filter] throws on
    missing points after the error has been recorded. *)
Definition validateExportData (points : option (list Point)) (faces : option (list Face))
    (labels : list Label) : Completion Validation :=
  let empty := match points with Some (_ :: _) => false | _ => true end in
  match points with
  | None => Throw TypeError
  | Some ps =>
      let labeledPoints := length (filter (fun p => isLabelled (point_labelId p) = true) ps) in
      let labeledFaces :=
        match faces with
        | Some fs => length (filter (fun f => isLabelled (face_labelId f) = true) fs)
        | None => 0%nat
        end in
      Return (mkValidation (negb empty)
                ((if bool_decide (labeledPoints = 0%nat /\ labeledFaces = 0%nat)
                  then ["没有发现任何标注数据"%string] else [])
                 ++ (if bool_decide (length labels = 0%nat)
                     then ["没有定义任何标签"%string] else []))
                (if empty then ["点云数据为空"%string] else []))
  end.

(** How [handleGLBExport] ends: one of its three early returns, the return
    on a failed validation, an exception caught by its [catch], or the
    scene [exportGLB] hands to the encoder. *)
Inductive ExportOutcome :=
| NoPoints
| NoScene
| NoMapping
| Rejected (errors : list string)
| Failed (e : JsError)
| Exported (scene : Object3D).

(** [handleGLBExport] on the state the panel reads. The warnings of the
    validation are logged only. *)
Definition handleGLBExport (store : GeomStore) (freshUuid : Uuid) (state : State)
    : GeomStore * ExportOutcome :=
  if bool_decide (length (points state) = 0%nat) then (store, NoPoints)
  else match originalScene state with
  | None => (store, NoScene)
  | Some _ =>
  match interactionMapping state with
  | None => (store, NoMapping)
  | Some _ =>
      match validateExportData (Some (points state)) (Some (faces state)) (labels state) with
      | Throw e => (store, Failed e)
      | Return validation =>
          if negb (valid validation) then (store, Rejected (errors validation))
          else
            let '(store', result) :=
              exportGLB store freshUuid (originalScene state) (interactionMapping state)
                (points state) (if hasMesh state then Some (faces state) else None)
                (labels state) (fileHeader state) in
            (store', match result with
                     | Return scene => Exported scene
                     | Throw e => Failed e
                     end)
      end
  end end.

End DataOverview.

(** * Vocabulary of the statements and example documents *)

Module Examples.
Import Store Three.

Definition aFace (idx : list Z) : Face := mkFace idx None None None.

Definition aPoint (labelId : option Z) : Point :=
  mkPoint [0; 0; 0]%float [1; 1; 1]%float labelId None None.

(** A state with one point, that point selected, and a manual face
    selection in force. *)
Definition busyState : State :=
  with_isManualFaceSelection true
    (with_selectedPoints [0] (with_points [aPoint None] initialState)).

Definition emptyPayload : Payload := mkPayload [] None None None None None None.

(** A state with a mesh of two faces over three points, one point and one
    face selected, the face selection not manual. *)
Definition meshState : State :=
  with_selectedFaces {[0]}
    (with_selectedPoints [1]
       (with_faces [mkFace [0; 1; 2] None None None; mkFace [0; 2; 1] None None None]
          (with_hasMesh true
             (with_points [aPoint None; aPoint None; aPoint None] initialState)))).

Definition isApplyLabels (a : Action) : bool :=
  match a with APPLY_LABELS _ _ => true | _ => false end.

(** A scene as the loader returns it for an asset without annotations: a
    root with one mesh, a single triangle over three vertices. *)
Definition identity4 : list float :=
  [1; 0; 0; 0;  0; 1; 0; 0;  0; 0; 1; 0;  0; 0; 0; 1]%float.

Definition triangleGeometry : BufferGeometry :=
  mkGeometry (Some (mkAttr [[0; 0; 0]; [1; 0; 0]; [0; 1; 0]]%float))
    None None None None (Some [0; 1; 2]) [].

Definition triangleMesh : NodeData :=
  mkNode 1 true "triangle" (Some 0%nat) identity4 (mkUserData noCustom None).

Definition triangleScene : Object3D :=
  Obj (mkNode 0 false "root" None identity4 (mkUserData noCustom None))
    [Obj triangleMesh []].

Definition triangleStore : GeomStore := {[0%nat := triangleGeometry]}.

(** A scene of two meshes, one triangle and two triangles, under a root;
    the ranges are the ones the decoder records for it. *)
Definition quadGeometry : BufferGeometry :=
  mkGeometry (Some (mkAttr [[0; 0; 0]; [1; 0; 0]; [1; 1; 0]; [0; 1; 0]]%float))
    None None None None (Some [0; 1; 2; 0; 2; 3]) [].

Definition twoMeshScene : Object3D :=
  Obj (mkNode 0 false "root" None identity4 (mkUserData noCustom None))
    [Obj triangleMesh [];
     Obj (mkNode 2 true "quad" (Some 1%nat) identity4 (mkUserData noCustom None)) []].

Definition twoMeshStore : GeomStore := {[0%nat := triangleGeometry; 1%nat := quadGeometry]}.

Definition threeFaces : list Face :=
  [mkFace [0; 1; 2] (Some 3) None None;
   mkFace [3; 4; 5] None None None;
   mkFace [3; 5; 6] (Some 5) None None].

(** A document whose statistics are exact: one of two points and one of
    two faces labelled. *)
Definition labelledState : State :=
  with_labelInfo (Some (mkLabelInfo {[1 := 1]} {[3 := 1]} 1 1 1 1))
    (with_faces [mkFace [0; 1; 2] (Some 3) None None; mkFace [0; 2; 1] None None None]
       (with_hasMesh true (with_points [aPoint (Some 1); aPoint None] initialState))).

(** Twelve selections, each of another point. *)
Definition manySelections : list Action :=
  map (fun k => SET_SELECTED_POINTS [k]) (upto 12).

(** A square over four points, cut in two triangles, and a face that names
    a fifth point. *)
Definition squareFaces : list Face :=
  [mkFace [0; 1; 2; 3] (Some 4) None None; mkFace [0; 1] None None None].

Definition fourPoints : list Point := [aPoint None; aPoint None; aPoint None; aPoint None].

Definition danglingFaces : list Face := [mkFace [0; 1; 4] None None None].

End Examples.

(** The notions the statements about the encoder are phrased in. *)

Module ExportFacts.
Import Three GlbExporter.

Definition reidentify (u : Uuid) (n : NodeData) : NodeData :=
  mkNode u (isMesh n) (node_name n) (geometry n) (matrixWorld n) (userData n).

Fixpoint renumber (u : Uuid) (nodes : list NodeData) : list NodeData :=
  match nodes with
  | [] => []
  | n :: rest => reidentify u n :: renumber (u + 1) rest
  end.

(** [putMeshes] at the level of the traversal. *)
Fixpoint putList (nodes meshes : list NodeData) : list NodeData * list NodeData :=
  match nodes with
  | [] => ([], meshes)
  | n :: rest =>
      if isMesh n then
        match meshes with
        | m :: ms => let '(rest', remaining) := putList rest ms in (m :: rest', remaining)
        | [] => let '(rest', remaining) := putList rest [] in (n :: rest', remaining)
        end
      else let '(rest', remaining) := putList rest meshes in (n :: rest', remaining)
  end.

Definition meshesOf (nodes : list NodeData) : list NodeData :=
  filter (fun n => isMesh n = true) nodes.

(** A cloned mesh differs from its original in the uuid only. *)
Definition cloneOf (original cloned : NodeData) : Prop :=
  isMesh cloned = isMesh original /\ geometry cloned = geometry original /\
  userData cloned = userData original.

Fixpoint contiguous (ranges : list Range) (from to : Z) : Prop :=
  match ranges with
  | [] => from = to
  | r :: rest => range_start r = from /\ from <= range_end r /\ contiguous rest (range_end r) to
  end.

Definition faceLabelsOf (n : NodeData) : list Z :=
  default [] (faceLabels (top (userData n))).

Definition registered (faceRanges pointRanges : gmap Uuid Range) (mesh : NodeData) (r : Range)
    : Prop :=
  faceRanges !! uuid mesh = Some r /\ is_Some (pointRanges !! uuid mesh).

(** The global face-label array in the words of the specification: the
    [labelId] of every face of the document in order, a missing one mapped
    to 0; a document without faces has the empty array. *)
Definition globalFaceLabels (faces : option (list Face)) : list Z :=
  map (fun face => default 0 (face_labelId face)) (default [] faces).

(** Two states of a geometry that differ at most in the label attribute. *)
Definition sameButLabelId (before after : option BufferGeometry) : Prop :=
  match before, after with
  | Some g, Some g' =>
      attr_position g' = attr_position g /\ attr_color g' = attr_color g /\
      attr_uv g' = attr_uv g /\ attr_normal g' = attr_normal g /\
      index g' = index g /\ groups g' = groups g
  | None, None => True
  | _, _ => False
  end.

End ExportFacts.

(** Vocabulary of the decoder's statements. *)

Module DecodeFacts.
Import Three GlbParser.

(** A geometry is a triangle list: the count its faces are cut from is a
    multiple of 3. *)
Definition triangleList (g : BufferGeometry) : Prop :=
  match index g, attr_position g with
  | Some idx, _ => Z.of_nat (length idx) mod 3 = 0
  | None, Some positions => count positions mod 3 = 0
  | None, None => True
  end.

(** The number of faces the mapping pass counts for a node. *)
Definition nodeFaces (store : GeomStore) (node : NodeData) : Z :=
  if isMesh node then
    match geometryOf store node with
    | Some g => match faceCountOf g with Return c => c | Throw _ => 0 end
    | None => 0
    end
  else 0.

Definition sumFaces (store : GeomStore) (nodes : list NodeData) : Z :=
  foldr (fun n acc => nodeFaces store n + acc) 0 nodes.

End DecodeFacts.

(** The notions the statements about the point-cloud decoder are phrased
    in, and three small buffers. *)

Module PlyFacts.
Import PlyParser.

(** Some declared element of an ASCII body has no line: the line at its
    position is past the end of the buffer, or blank. *)
Definition lineMissing (lines : list string) (startLine nv nf : Z) : Prop :=
  exists k, 0 <= k < nv + nf /\ dataLine lines (startLine + k) = None.










(** Buffers: the lines joined by line feeds. *)
Definition unlines (lines : list string) : string :=
  String.concat (String "010" EmptyString) lines.

(** Two vertices declared, one line present. *)
Definition shortAscii : string :=
  unlines ["ply"; "format ascii 1.0"; "element vertex 2"; "property float x";
           "property float y"; "property float z"; "property int label";
           "end_header"; "0 0 0 1"; ""]%string.




End PlyFacts.

(** Vocabulary of the statements about the store. *)

Module StoreFacts.
Import Store.

(** The commands that push a snapshot of the points. *)
Definition pushesSnapshot (a : Action) : bool :=
  match a with
  | SET_POINTS _ | SET_PLY_DATA _ _ _ | LOAD_FILE_DATA _ | APPLY_LABELS _ _ => true
  | _ => false
  end.

(** The number of entries of a list of label ids that carry the id [k]. *)
Definition labelCount (ids : list (option Z)) (k : Z) : Z :=
  Z.of_nat (length (filter (fun l => l = Some k) ids)).

(** The number of entries that count as labelled. *)
Definition labelledCount (labeled : option Z -> bool) (ids : list (option Z)) : Z :=
  Z.of_nat (length (filter (fun l => labeled l = true) ids)).

(** A statistics object and a count agree with a list of label ids: every
    id that counts as labelled has as its entry the number of its
    occurrences (a missing entry standing for 0), no other id has an entry
    other than 0, and the count is the number of labelled entries. *)
Definition countsExactly (labeled : option Z -> bool) (ids : list (option Z))
    (stats : gmap Z Z) (n : Z) : Prop :=
  (forall k, default 0 (stats !! k) = if labeled (Some k) then labelCount ids k else 0) /\
  n = labelledCount labeled ids.

Definition pointStatsExact (state : State) (li : LabelInfo) : Prop :=
  countsExactly pointLabeled (map point_labelId (points state))
    (labelStats li) (labeledCount li) /\
  labeledCount li + unlabeledCount li = Z.of_nat (length (points state)).

Definition faceStatsExact (state : State) (li : LabelInfo) : Prop :=
  countsExactly faceLabeled (map face_labelId (faces state))
    (faceLabelStats li) (faceLabeledCount li) /\
  faceLabeledCount li + faceUnlabeledCount li = Z.of_nat (length (faces state)).

(** One turn of a statistics loop, on the old and the new label of the
    element. *)
Definition stepStats (labeled : option Z -> bool) (oldL newL : option Z)
    (acc : gmap Z Z * Z) : gmap Z Z * Z :=
  countIf (labeled newL) newL addNew (countIf (labeled oldL) oldL removeOld acc).

(** The label ids while the loop runs: the new label at the positions
    already visited, the old one elsewhere. *)
Definition relabelled (newL : option Z) (visited : gset Z) (ids : list (option Z))
    : list (option Z) :=
  imap (fun j l => if bool_decide (Z.of_nat j ∈ visited) then newL else l) ids.

(** One turn of the loop for the index [i]: nothing happens when no
    element is there. *)
Definition stepAt (labeled : option Z -> bool) (oldIds : list (option Z)) (newL : option Z)
    (acc : gmap Z Z * Z) (i : Z) : gmap Z Z * Z :=
  match at_index oldIds i with
  | Some oldL => stepStats labeled oldL newL acc
  | None => acc
  end.

End StoreFacts.

(** Vocabulary of the statements about scenes: what the normalisation of
    the decoder and the encoder may change on a node, and what the decoder
    can read. *)

Module SceneFacts.
Import Store Three GlbParser GlbExporter.

(** What the normalisation does to one node. *)
Definition standardized (before after : NodeData) : Prop :=
  uuid after = uuid before /\ isMesh after = isMesh before /\
  node_name after = node_name before /\ geometry after = geometry before /\
  matrixWorld after = matrixWorld before /\
  if isMesh before && hasAnyCustom (top (userData before))
  then top (userData after) = noCustom /\
       extras (userData after) = Some (top (userData before))
  else after = before.

(** The face-to-mesh table agrees with the face ranges. *)
Definition tableAgrees (faceRanges : gmap Uuid Range) (f2m : gmap Z (Uuid * Z)) : Prop :=
  forall i u k, f2m !! i = Some (u, k) <->
                exists r, faceRanges !! u = Some r /\
                          range_start r <= i < range_end r /\ k = i - range_start r.

(** The index buffer of a geometry names existing vertices; without index
    buffer the vertices come in triples. *)
Definition wellIndexed (g : BufferGeometry) : Prop :=
  match attr_position g, index g with
  | Some positions, Some idx => Forall (fun v => 0 <= v < count positions) idx
  | Some positions, None => count positions mod 3 = 0
  | None, Some idx => idx = []
  | None, None => True
  end.

(** Every point index of the face is below [n]. *)
Definition indicesBelow (n : Z) (face : Face) : Prop :=
  Forall (fun idx => 0 <= idx < n) (indices face).

(** What the encoder may change on a node of the clone: the custom keys at
    the top level of the metadata bag of a mesh. *)
Definition sameButTop (before after : NodeData) : Prop :=
  uuid after = uuid before /\ isMesh after = isMesh before /\
  node_name after = node_name before /\ geometry after = geometry before /\
  matrixWorld after = matrixWorld before /\
  extras (userData after) = extras (userData before) /\
  (isMesh before = false -> after = before).

(** An exported node and the node of the original scene it stands for. *)
Definition exportedFrom (original exported : NodeData) : Prop :=
  isMesh exported = isMesh original /\ node_name exported = node_name original /\
  geometry exported = geometry original /\ matrixWorld exported = matrixWorld original /\
  extras (userData exported) = extras (userData original) /\
  (isMesh original = false -> userData exported = userData original).

(** The face labels the extraction pass gives the faces of one mesh. *)
Definition meshFaceLabels (store : GeomStore) (n : NodeData) : list (option Z) :=
  match geometryOf store n with
  | Some g =>
      match extractFacesFromGeometry g with
      | Return localFaces =>
          map face_labelId (applyFaceLabels (extras (userData n) ≫= faceLabels) localFaces)
      | Throw _ => []
      end
  | None => []
  end.

(** The label of a face of a payload. *)
Definition payloadFaceLabel (f : PayloadFace) : option Z :=
  match f with
  | FaceObject face => face_labelId face
  | FaceArray _ => None
  end.

(** A mesh the two passes of the decoder can read: it has a geometry with
    positions. *)
Definition decodable (store : GeomStore) (n : NodeData) : Prop :=
  isMesh n = true ->
  exists g positions, geometryOf store n = Some g /\ attr_position g = Some positions.

End SceneFacts.

(** Vocabulary of the statements about decoded point-cloud payloads. *)

Module PlyPayloadFacts.
Import PlyParser PlyFacts.



(** Two vertices declared, two lines present. *)
Definition completeAscii : string :=
  unlines ["ply"; "format ascii 1.0"; "element vertex 2"; "property float x";
           "property float y"; "property float z"; "property int label";
           "end_header"; "0 0 0 1"; "1 0 0 2"; ""]%string.

(** The declared count is the length of the list. *)
Definition countsMatch (n : JsNumber) {A} (l : list A) : Prop :=
  asInteger n = Some (Z.of_nat (length l)).

End PlyPayloadFacts.

(** * Properties *)

(** ** Colour normalisation *)

Section ColorProperties.
Import Color.

(** Zero and one as [spec_float]s, and what a float must look like to pass
    the two tests of [normalizeColorValue]. *)
Lemma below_zero_not_above_one (value : float) :
  PrimFloat.ltb value 0 = true -> PrimFloat.ltb 1 value = false.
Proof.
  rewrite !ltb_spec.
  replace (Prim2SF 0) with (S754_zero false) by reflexivity.
  replace (Prim2SF 1) with (S754_finite false 4503599627370496 (-52)) by reflexivity.
  destruct (Prim2SF value) as [[]|[]| |[] m e]; cbn; try discriminate; reflexivity.
Qed.

(** C8, as the specification states it, fails: a channel value that is at
    most 1 does not always pass through unchanged, since a negative value
    is clamped to 0. *)
Lemma normalizeColorValue_negative_clamped :
  PrimFloat.leb (-1)%float 1%float = true /\
  normalizeColorValue (-1)%float = 0%float /\
  normalizeColorValue (-1)%float <> (-1)%float.
Proof.
  split; [reflexivity|]. split; [reflexivity|].
  vm_compute. intros H. discriminate H.
Qed.

(** C8 (amended): a value above 1 is scaled by the constant for 1/255 and
    clamped into [0,1]; a value below 0 becomes 0; a value that is neither
    above 1 nor below 0 passes through unchanged. *)
Theorem normalizeColorValue_cases (value : float) :
  (PrimFloat.ltb 1 value = true ->
     normalizeColorValue value = clamp01 (PrimFloat.mul value inv255)) /\
  (PrimFloat.ltb value 0 = true -> normalizeColorValue value = 0%float) /\
  (PrimFloat.ltb 1 value = false -> PrimFloat.ltb value 0 = false ->
     normalizeColorValue value = value).
Proof.
  unfold normalizeColorValue, clamp01. repeat split.
  - intros ->. reflexivity.
  - intros Hneg. rewrite (below_zero_not_above_one _ Hneg), Hneg. reflexivity.
  - intros Habove Hbelow. rewrite Habove. cbn zeta. rewrite Hbelow, Habove. reflexivity.
Qed.

End ColorProperties.

(** ** Selection derivation *)

Section SelectionProperties.
Import Selection Examples.

(** Every face index [forEachFace] adds under ENCLOSED it adds under
    TOUCHING as well, as long as each face names at least one point. *)
Lemma forEachFace_enclosed_touching vis sel faces : forall faceIndex acc1 acc2,
  Forall (fun face => indices face <> []) faces ->
  acc1 ⊆ acc2 ->
  forEachFace vis sel ENCLOSED faceIndex faces acc1 ⊆
  forEachFace vis sel TOUCHING faceIndex faces acc2.
Proof.
  induction faces as [|face rest IH]; intros faceIndex acc1 acc2 Hne Hsub; simpl.
  - exact Hsub.
  - inversion Hne as [|? ? Hface Hrest]; subst.
    apply IH; [exact Hrest|].
    unfold selects. destruct (hidden vis face); [exact Hsub|].
    destruct (indices face) as [|idx more] eqn:Hidx; [congruence|].
    simpl. destruct (bool_decide (idx ∈ sel)); simpl.
    + destruct (forallb _ more);
        [apply union_mono_l; exact Hsub
        |etrans; [exact Hsub|apply union_subseteq_r]].
    + destruct (existsb _ more);
        [etrans; [exact Hsub|apply union_subseteq_r]|exact Hsub].
Qed.

(** What [forEachFace] returns when no face is selected. *)
Lemma forEachFace_none vis sel mode faces : forall faceIndex acc,
  Forall (fun face => selects vis sel mode face = false) faces ->
  forEachFace vis sel mode faceIndex faces acc = acc.
Proof.
  induction faces as [|face rest IH]; intros faceIndex acc Hnone; simpl; [reflexivity|].
  inversion Hnone as [|? ? Hface Hrest]; subst. rewrite Hface. apply IH, Hrest.
Qed.

(** C4, as the specification states it, fails: a face with no point index
    satisfies the all-vertices test vacuously and the any-vertex test never,
    so ENCLOSED selects it and TOUCHING does not. *)
Lemma enclosed_selects_empty_face :
  calculateSelectedFaces (Some [aFace []]) [] (Some (PointSet {[7]})) ENCLOSED = {[0]} /\
  calculateSelectedFaces (Some [aFace []]) [] (Some (PointSet {[7]})) TOUCHING = ∅ /\
  ¬ (calculateSelectedFaces (Some [aFace []]) [] (Some (PointSet {[7]})) ENCLOSED ⊆
     calculateSelectedFaces (Some [aFace []]) [] (Some (PointSet {[7]})) TOUCHING).
Proof.
  assert (He : calculateSelectedFaces (Some [aFace []]) [] (Some (PointSet {[7]})) ENCLOSED
               = {[0]}) by (vm_compute; reflexivity).
  assert (Ht : calculateSelectedFaces (Some [aFace []]) [] (Some (PointSet {[7]})) TOUCHING
               = ∅) by (vm_compute; reflexivity).
  rewrite He, Ht. repeat split.
  intros Hsub. apply (not_elem_of_empty (C := gset Z) 0), Hsub, elem_of_singleton.
  reflexivity.
Qed.

(** C4 (amended): when every face has at least one point index, the face
    set derived under ENCLOSED is a subset of the one derived under TOUCHING
    from the same faces, labels and selected points. *)
Theorem enclosed_subset_touching (faces : option (list Face)) (labels : list Label)
    (selectedPoints : option PointCollection) :
  (forall fs, faces = Some fs -> Forall (fun face => indices face <> []) fs) ->
  calculateSelectedFaces faces labels selectedPoints ENCLOSED ⊆
  calculateSelectedFaces faces labels selectedPoints TOUCHING.
Proof.
  intros Hne. unfold calculateSelectedFaces.
  destruct faces as [fs|]; [|set_solver].
  destruct selectedPoints as [sp|]; [|set_solver].
  destruct (_ || _); [set_solver|].
  apply forEachFace_enclosed_touching; [apply Hne; reflexivity|set_solver].
Qed.

Lemma enclosed_subset_touching_witness :
  calculateSelectedFaces (Some [aFace [0; 1; 2]; aFace [1; 2; 3]]) []
    (Some (PointArray [0; 1; 2])) ENCLOSED ⊆
  calculateSelectedFaces (Some [aFace [0; 1; 2]; aFace [1; 2; 3]]) []
    (Some (PointArray [0; 1; 2])) TOUCHING.
Proof.
  apply (enclosed_subset_touching (Some [aFace [0; 1; 2]; aFace [1; 2; 3]]) []
           (Some (PointArray [0; 1; 2]))).
  intros fs Hfs. injection Hfs as <-.
  repeat constructor; discriminate.
Defined.

(** With a [Set] as the documentation of the function has it, the guard on
    [size] returns the empty face set for an empty selection. *)
Lemma empty_set_selects_nothing faces labels mode :
  calculateSelectedFaces faces labels (Some (PointSet ∅)) mode = ∅.
Proof.
  unfold calculateSelectedFaces. destruct faces as [fs|]; [|reflexivity].
  replace (bool_decide (size_of (PointSet ∅) = Some 0%nat)) with true
    by (symmetry; apply bool_decide_eq_true_2; reflexivity).
  rewrite orb_true_r. reflexivity.
Qed.

(** An array has no [size], so the guard does not fire for the empty array
    the store holds; the loop runs, and it selects nothing when every face
    names at least one point. *)
Lemma empty_array_selects_nothing faces labels mode :
  (forall fs, faces = Some fs -> Forall (fun face => indices face <> []) fs) ->
  calculateSelectedFaces faces labels (Some (PointArray [])) mode = ∅.
Proof.
  intros Hne. unfold calculateSelectedFaces.
  destruct faces as [fs|]; [|reflexivity].
  destruct (_ || _); [reflexivity|].
  apply forEachFace_none.
  specialize (Hne fs eq_refl). induction Hne as [|face rest Hface _ IH]; constructor; [|exact IH].
  unfold selects. destruct (hidden _ face); [reflexivity|].
  destruct mode; [| |reflexivity].
  - clear Hface. induction (indices face) as [|idx more IHidx]; [reflexivity|]. simpl.
    rewrite bool_decide_eq_false_2 by set_solver. apply IHidx.
  - destruct (indices face) as [|idx more]; [congruence|]. simpl.
    rewrite bool_decide_eq_false_2 by set_solver. reflexivity.
Qed.

(** C10: the code misses the claim. The store keeps [selectedPoints] as an
    array and the viewport passes it as it is; for the empty array the guard
    [selectedPoints.size === 0] compares [undefined] with 0 and does not
    return, and under ENCLOSED a face without point indices is selected by
    vacuous truth. *)
Theorem empty_array_enclosed_selects_face :
  calculateSelectedFaces (Some [aFace []]) [] (Some (PointArray [])) ENCLOSED = {[0]}.
Proof. vm_compute. reflexivity. Qed.

End SelectionProperties.

(** ** The document store *)

Section StoreProperties.
Import Store Examples.

(** *** Load document *)

(** C1, as the specification states it, fails: loading keeps the point
    selection and the manual-face-selection flag of the prior state, and it
    pushes the prior points onto the undo history. *)
Lemma load_keeps_selection_and_pushes_history :
  exists s', annotationReducer busyState (LOAD_FILE_DATA emptyPayload) = Return s' /\
    selectedPoints s' = [0] /\
    isManualFaceSelection s' = true /\
    history busyState = [] /\
    history s' = [[aPoint None]].
Proof. eexists. repeat split. Qed.

(** C1 (amended): for every prior state and every decoded payload, the load
    command replaces the points, the faces (normalised; none when the
    payload has none) and the labels by the payload's and empties
    [selectedFaces]; [selectedPoints] and the manual-face-selection flag
    keep their prior values, and the prior points array is appended to the
    undo history. *)
Theorem load_file_data_effect (state : State) (payload : Payload) :
  exists s', annotationReducer state (LOAD_FILE_DATA payload) = Return s' /\
    points s' = pl_points payload /\
    faces s' = map normalizeFace (default [] (pl_faces payload)) /\
    labels s' = default [] (pl_labels payload) /\
    selectedFaces s' = ∅ /\
    selectedPoints s' = selectedPoints state /\
    isManualFaceSelection s' = isManualFaceSelection state /\
    history s' = history state ++ [points state].
Proof.
  eexists. split; [reflexivity|]. cbn. repeat split.
  destruct (pl_faces payload) as [[|face fs]|]; reflexivity.
Qed.

(** *** Invert selection *)

Lemma elem_of_complementOf (total : nat) (current : gset Z) (i : Z) :
  i ∈ complementOf total current <-> 0 <= i < Z.of_nat total /\ i ∉ current.
Proof.
  unfold complementOf. rewrite list_elem_of_filter, list_elem_of_fmap.
  setoid_rewrite elem_of_seq. split.
  - intros [Hnot (k & -> & Hk)]. split; [lia|exact Hnot].
  - intros [Hrange Hnot]. split; [exact Hnot|].
    exists (Z.to_nat i). split; lia.
Qed.

(** The point selection becomes its complement over [0, totalPoints). *)
Lemma invertSelection_points (state : State) (i : Z) :
  i ∈ selectedPoints (invertSelection state) <->
  0 <= i < Z.of_nat (length (points state)) /\ i ∉ selectedPoints state.
Proof.
  unfold invertSelection.
  destruct (_ && _); cbn; rewrite elem_of_complementOf, elem_of_list_to_set; reflexivity.
Qed.

(** With a mesh present the face selection becomes its complement over
    [0, totalFaces). *)
Lemma invertSelection_faces (state : State) (i : Z) :
  hasMesh state = true -> faces state <> [] ->
  i ∈ selectedFaces (invertSelection state) <->
  0 <= i < Z.of_nat (length (faces state)) /\ i ∉ selectedFaces state.
Proof.
  intros Hmesh Hfaces. unfold invertSelection. rewrite Hmesh.
  rewrite bool_decide_eq_true_2 by (destruct (faces state); [congruence|simpl; lia]).
  cbn. rewrite elem_of_list_to_set, elem_of_complementOf. reflexivity.
Qed.

(** The command never writes the manual-face-selection flag. *)
Lemma invertSelection_keeps_manual_flag (state : State) :
  isManualFaceSelection (invertSelection state) = isManualFaceSelection state.
Proof. unfold invertSelection. destruct (_ && _); reflexivity. Qed.

(** C6: the code misses the claim. Both selections are complemented, but
    the command leaves [isManualFaceSelection] as it was, here [false], so
    the next derivation from the point selection overwrites the inverted
    face selection. *)
Theorem invert_selection_leaves_flag_unset :
  exists s', annotationReducer meshState INVERT_SELECTION = Return s' /\
    selectedPoints s' = [0; 2] /\
    selectedFaces s' = {[1]} /\
    isManualFaceSelection meshState = false /\
    isManualFaceSelection s' = false.
Proof.
  eexists. split; [reflexivity|]. repeat split.
Qed.

(** *** Undo history *)

Lemma applyLabels_history state pointIndices labelId s' :
  applyLabels state pointIndices labelId = Return s' ->
  history s' = history state ++ [points state].
Proof.
  unfold applyLabels. destruct (forEachC _ _ _) as [[stats delta]|e]; cbn; [|discriminate].
  intros [= <-]. reflexivity.
Qed.

(** C7 (amended): the points-snapshot history has no cap. Every
    point-label assignment that completes appends one snapshot, so after a
    sequence of n of them the history holds n more snapshots than before. *)
Theorem apply_labels_history_grows (actions : list Action) : forall (state s' : State),
  Forall (fun a => isApplyLabels a = true) actions ->
  run state actions = Return s' ->
  length (history s') = (length (history state) + length actions)%nat.
Proof.
  induction actions as [|a rest IH]; intros state s' Hall Hrun; cbn in Hrun.
  - injection Hrun as <-. cbn. lia.
  - inversion Hall as [|? ? Ha Hrest]; subst.
    destruct a; try discriminate Ha. cbn in Hrun.
    destruct (applyLabels state pointIndices labelId) as [s1|e] eqn:Happly;
      cbn in Hrun; [|discriminate].
    rewrite (IH _ _ Hrest Hrun), (applyLabels_history _ _ _ _ Happly), length_app.
    cbn. lia.
Qed.

Lemma apply_labels_history_grows_witness :
  exists s', run initialState [APPLY_LABELS [] None; APPLY_LABELS [] (Some 1)] = Return s' /\
    length (history s') = 2%nat.
Proof.
  eexists. split; [reflexivity|].
  apply (apply_labels_history_grows [APPLY_LABELS [] None; APPLY_LABELS [] (Some 1)]
           initialState).
  - repeat constructor.
  - reflexivity.
Defined.

(** An assignment to no point completes and adds a snapshot. *)
Lemma applyLabels_nothing (state : State) (labelId : option Z) :
  exists s1, applyLabels state [] labelId = Return s1 /\
    history s1 = history state ++ [points state].
Proof. eexists. split; reflexivity. Qed.

Lemma run_empty_assignments (n : nat) : forall state,
  exists s', run state (replicate n (APPLY_LABELS [] None)) = Return s' /\
    length (history s') = (length (history state) + n)%nat.
Proof.
  induction n as [|n IH]; intros state; cbn [replicate run annotationReducer].
  - eexists. split; [reflexivity|]. lia.
  - destruct (applyLabels_nothing state None) as (s1 & -> & Hstep).
    destruct (IH s1) as (s' & Hrun & Hlen).
    exists s'. split; [exact Hrun|]. rewrite Hlen, Hstep, length_app. cbn. lia.
Qed.

(** C7, as the specification states it, fails: whatever cap is proposed,
    some run of the store takes the undo history beyond it. *)
Lemma history_has_no_cap :
  ¬ exists cap : nat, forall state actions s',
      run state actions = Return s' -> (length (history s') <= cap)%nat.
Proof.
  intros [cap Hcap].
  destruct (run_empty_assignments (S cap) initialState) as (s' & Hrun & Hlen).
  pose proof (Hcap _ _ _ Hrun) as Hle. rewrite Hlen in Hle. cbn in Hle. lia.
Qed.

(** *** The lengths of the two histories *)

Lemma length_dropLast {A} (l : list A) : length (dropLast l) = pred (length l).
Proof. unfold dropLast. rewrite length_take. lia. Qed.

Lemma length_lastN {A} (n : nat) (l : list A) : (length (lastN n l) <= n)%nat.
Proof. unfold lastN. rewrite length_drop. lia. Qed.

(** X5: how each command moves the length of the undo history: the four
    commands that push a snapshot add one entry, UNDO removes one (none
    from an empty history), every other command leaves the length alone. *)
Lemma history_length_step (state : State) (action : Action) (s' : State) :
  annotationReducer state action = Return s' ->
  length (history s') =
  match action with
  | SET_POINTS _ | SET_PLY_DATA _ _ _ | LOAD_FILE_DATA _ | APPLY_LABELS _ _ =>
      S (length (history state))
  | UNDO => pred (length (history state))
  | _ => length (history state)
  end.
Proof.
  destruct action; cbn; try (intros [= <-]; cbn; rewrite ?length_app; cbn; lia).
  - intros [= <-]. unfold setSelectedPoints. destruct (isSameSelection _ _); reflexivity.
  - intros Happly. rewrite (applyLabels_history _ _ _ _ Happly), length_app. cbn. lia.
  - destruct (last (history state)) as [previous|] eqn:Hlast; intros [= <-]; cbn.
    + apply length_dropLast.
    + apply last_None in Hlast. rewrite Hlast. reflexivity.
  - destruct (last (selectedPointsHistory state)); intros [= <-]; reflexivity.
  - intros [= <-]. unfold invertSelection. destruct (_ && _); reflexivity.
  - intros [= <-]. unfold applyLabelToFaces. destruct (negb _); [reflexivity|].
    destruct (foldl _ _ _). reflexivity.
Qed.

(** The selection history, unlike the undo history, is capped at 10. *)
Lemma selection_history_capped (state : State) (newSelection : list Z) :
  setSelectedPoints state newSelection = state \/
  (length (selectedPointsHistory (setSelectedPoints state newSelection)) <= 10)%nat.
Proof.
  unfold setSelectedPoints. destruct (isSameSelection _ _); [left; reflexivity|].
  right. cbn. apply length_lastN.
Qed.

End StoreProperties.

(** ** Statistics under the label-assignment commands *)

Section StatisticsProperties.
Import Store Three Examples.

(** Whatever the assignment, the two point counts keep their sum. *)
Lemma applyLabels_point_total state pointIndices labelId s' li li' :
  applyLabels state pointIndices labelId = Return s' ->
  labelInfo state = Some li -> labelInfo s' = Some li' ->
  labeledCount li' + unlabeledCount li' = labeledCount li + unlabeledCount li.
Proof.
  unfold applyLabels. intros Happly Hli.
  destruct (forEachC _ _ _) as [[stats delta]|e]; cbn in Happly; [|discriminate].
  injection Happly as <-. rewrite Hli. cbn. intros [= <-]. cbn. lia.
Qed.

(** On a state without statistics, a point-label assignment creates them
    with both face counts at zero, whatever the number of faces. *)
Lemma applyLabels_default_face_counts state pointIndices labelId s' :
  labelInfo state = None ->
  applyLabels state pointIndices labelId = Return s' ->
  exists li', labelInfo s' = Some li' /\
    faceLabeledCount li' = 0 /\ faceUnlabeledCount li' = 0 /\
    faces s' = faces state.
Proof.
  unfold applyLabels. intros Hnone Happly. rewrite Hnone in Happly.
  destruct (forEachC _ _ _) as [[stats delta]|e]; cbn in Happly; [|discriminate].
  injection Happly as <-. eexists. repeat split.
Qed.

(** The face-label assignment, in the same situation, starts the count of
    unlabelled faces at the number of faces. *)
Lemma applyLabelToFaces_point_counts state faceIndices labelId li' :
  labelInfo state = None -> hasMesh state = true ->
  labelInfo (applyLabelToFaces state faceIndices labelId) = Some li' ->
  faceLabeledCount li' + faceUnlabeledCount li' = Z.of_nat (length (faces state)).
Proof.
  unfold applyLabelToFaces. intros Hnone Hmesh. rewrite Hmesh, Hnone. cbn.
  destruct (foldl _ _ _) as [stats delta]. cbn. intros [= <-]. cbn. lia.
Qed.

(** C2: the code misses the claim. The document decoded from a mesh file
    without label definitions carries no statistics; the first point-label
    assignment then builds them from a default whose face counts are both 0,
    so the two face counts sum to 0 and not to the number of faces. (The
    face-label assignment builds its default with the number of faces.) *)
Theorem apply_labels_breaks_face_statistics :
  exists payload s1 s2,
    GlbParser.parseGLB triangleStore triangleScene "triangle.glb" = Return payload /\
    annotationReducer initialState (LOAD_FILE_DATA payload) = Return s1 /\
    annotationReducer s1 (APPLY_LABELS [0] (Some 1)) = Return s2 /\
    length (faces s2) = 1%nat /\
    (faceLabeledCount <$> labelInfo s2) = Some 0 /\
    (faceUnlabeledCount <$> labelInfo s2) = Some 0 /\
    ¬ statsInvariant s2.
Proof.
  eexists _, _, _. split; [vm_compute; reflexivity|].
  split; [vm_compute; reflexivity|].
  split; [vm_compute; reflexivity|].
  repeat split. unfold statsInvariant. cbn. intros (_ & _ & _ & Hfaces). discriminate Hfaces.
Qed.

End StatisticsProperties.

(** ** Mesh-exchange encoder *)

Section ExportProperties.
Import Store Three GlbExporter Examples ExportFacts.

(** Induction over a scene tree, with the hypothesis for every child. *)
Lemma Object3D_tree_ind (P : Object3D -> Prop) :
  (forall node children, Forall P children -> P (Obj node children)) ->
  forall o, P o.
Proof.
  intros step. fix IH 1. intros [node children]. apply step.
  induction children as [|c cs IHcs]; constructor; [apply IH|exact IHcs].
Qed.

Lemma renumber_app u l1 l2 :
  renumber u (l1 ++ l2) = renumber u l1 ++ renumber (u + Z.of_nat (length l1)) l2.
Proof.
  revert u. induction l1 as [|n l1 IH]; intros u; cbn.
  - f_equal. lia.
  - rewrite IH. do 3 f_equal. lia.
Qed.

Lemma traverse_clone (o : Object3D) : forall u,
  traverse (fst (clone o u)) = renumber u (traverse o) /\
  snd (clone o u) = u + Z.of_nat (length (traverse o)).
Proof.
  induction o as [node children IH] using Object3D_tree_ind. intros u.
  cbn [clone].
  match goal with
  | |- context [(fix cloneAll (cs : list Object3D) (next : Uuid) {struct cs} := _) children (u + 1)] =>
      set (cloneAll := fix cloneAll (cs : list Object3D) (next : Uuid) {struct cs}
                         : list Object3D * Uuid := _)
  end.
  assert (Hall : forall v,
             flat_map traverse (fst (cloneAll children v)) = renumber v (flat_map traverse children) /\
             snd (cloneAll children v) = v + Z.of_nat (length (flat_map traverse children))).
  { induction IH as [|c cs Hc _ IHcs]; intros v; cbn.
    - split; [reflexivity|lia].
    - destruct (Hc v) as [Hc1 Hc2]. destruct (clone c v) as [c' v1]. cbn in Hc1, Hc2.
      destruct (IHcs v1) as [Hcs1 Hcs2]. destruct (cloneAll cs v1) as [cs' v2].
      cbn in *. rewrite Hc1, Hcs1, renumber_app, length_app. subst. split; [reflexivity|lia]. }
  destruct (Hall (u + 1)) as [H1 H2]. destruct (cloneAll children (u + 1)) as [children' u'].
  cbn in *. rewrite H1. split; [reflexivity|lia].
Qed.

Lemma putList_app l1 l2 meshes :
  putList (l1 ++ l2) meshes =
  (fst (putList l1 meshes) ++ fst (putList l2 (snd (putList l1 meshes))),
   snd (putList l2 (snd (putList l1 meshes)))).
Proof.
  revert meshes. induction l1 as [|n l1 IH]; intros meshes; cbn.
  - destruct (putList l2 meshes); reflexivity.
  - destruct (isMesh n); [destruct meshes as [|m ms]|];
      rewrite IH; repeat (destruct (putList _ _)); reflexivity.
Qed.

Lemma traverse_putMeshes (o : Object3D) : forall meshes,
  traverse (fst (putMeshes o meshes)) = fst (putList (traverse o) meshes) /\
  snd (putMeshes o meshes) = snd (putList (traverse o) meshes).
Proof.
  induction o as [node children IH] using Object3D_tree_ind. intros meshes.
  cbn [putMeshes].
  match goal with
  | |- context [(fix putAll (cs : list Object3D) (meshes : list NodeData) {struct cs} := _)] =>
      set (putAll := fix putAll (cs : list Object3D) (meshes : list NodeData) {struct cs}
                       : list Object3D * list NodeData := _)
  end.
  assert (Hall : forall ms,
             flat_map traverse (fst (putAll children ms)) =
               fst (putList (flat_map traverse children) ms) /\
             snd (putAll children ms) = snd (putList (flat_map traverse children) ms)).
  { induction IH as [|c cs Hc _ IHcs]; intros ms; cbn.
    - split; reflexivity.
    - destruct (Hc ms) as [Hc1 Hc2]. destruct (putMeshes c ms) as [c' ms1]. cbn in Hc1, Hc2.
      destruct (IHcs ms1) as [Hcs1 Hcs2]. destruct (putAll cs ms1) as [cs' ms2].
      cbn in *. rewrite putList_app. cbn. rewrite Hc1, Hcs1, Hcs2, Hc2. split; reflexivity. }
  cbn [traverse putList].
  destruct (isMesh node); [destruct meshes as [|m ms]|].
  - destruct (Hall []) as [H1 H2]. destruct (putAll children []) as [children' remaining].
    destruct (putList (flat_map traverse children) []) as [l r]. cbn in *. subst. split; reflexivity.
  - destruct (Hall ms) as [H1 H2]. destruct (putAll children ms) as [children' remaining].
    destruct (putList (flat_map traverse children) ms) as [l r]. cbn in *. subst. split; reflexivity.
  - destruct (Hall meshes) as [H1 H2]. destruct (putAll children meshes) as [children' remaining].
    destruct (putList (flat_map traverse children) meshes) as [l r]. cbn in *. subst. split; reflexivity.
Qed.

Lemma meshesOf_putList (nodes : list NodeData) : forall meshes,
  length meshes = length (meshesOf nodes) ->
  Forall (fun m => isMesh m = true) meshes ->
  meshesOf (fst (putList nodes meshes)) = meshes.
Proof.
  unfold meshesOf.
  induction nodes as [|n rest IH]; intros meshes Hlen Hall; cbn [putList].
  - destruct meshes; [reflexivity|discriminate].
  - destruct (isMesh n) eqn:Hn.
    + rewrite filter_cons_True in Hlen by exact Hn.
      destruct meshes as [|m ms]; [discriminate|]. cbn [length] in Hlen.
      inversion Hall as [|? ? Hm Hms]; subst.
      specialize (IH ms ltac:(lia) Hms). destruct (putList rest ms) as [rest' remaining].
      cbn [fst] in *. rewrite filter_cons_True by exact Hm. rewrite IH. reflexivity.
    + rewrite filter_cons_False in Hlen by (rewrite Hn; discriminate).
      specialize (IH meshes Hlen Hall). destruct (putList rest meshes) as [rest' remaining].
      cbn [fst] in *. rewrite filter_cons_False by (rewrite Hn; discriminate). exact IH.
Qed.

Lemma collectMeshes_putMeshes (o : Object3D) (meshes : list NodeData) :
  length meshes = length (collectMeshes o) ->
  Forall (fun m => isMesh m = true) meshes ->
  collectMeshes (fst (putMeshes o meshes)) = meshes.
Proof.
  intros Hlen Hall. unfold collectMeshes.
  rewrite (proj1 (traverse_putMeshes o meshes)). apply meshesOf_putList; assumption.
Qed.

Lemma meshesOf_renumber (nodes : list NodeData) : forall u,
  Forall2 cloneOf (meshesOf nodes) (meshesOf (renumber u nodes)).
Proof.
  unfold meshesOf. induction nodes as [|n rest IH]; intros u; cbn [renumber]; [constructor|].
  destruct (isMesh n) eqn:Hn.
  - rewrite !filter_cons_True by (cbn; assumption).
    constructor; [repeat split|apply IH].
  - rewrite !filter_cons_False by (cbn; rewrite Hn; discriminate). apply IH.
Qed.

Lemma collectMeshes_clone (o : Object3D) (u : Uuid) :
  Forall2 cloneOf (collectMeshes o) (collectMeshes (fst (clone o u))).
Proof.
  unfold collectMeshes. rewrite (proj1 (traverse_clone o u)). apply meshesOf_renumber.
Qed.

(** *** Slices over contiguous ranges *)

Lemma contiguous_le ranges : forall from to, contiguous ranges from to -> from <= to.
Proof.
  induction ranges as [|r rest IH]; intros from to; cbn.
  - lia.
  - intros (_ & Hle & Hrest). specialize (IH _ _ Hrest). lia.
Qed.

Lemma slice_within {A} (l : list A) (a b : Z) :
  0 <= a <= b -> b <= Z.of_nat (length l) ->
  slice l a b = take (Z.to_nat (b - a)) (drop (Z.to_nat a) l).
Proof.
  intros Hab Hb. unfold slice, relativeIndex.
  destruct (Z.ltb_spec a 0), (Z.ltb_spec b 0); try lia.
  rewrite !Z.min_l by lia. reflexivity.
Qed.

Lemma slice_nil {A} (a b : Z) : slice (@nil A) a b = [].
Proof. unfold slice. rewrite drop_nil, take_nil. reflexivity. Qed.

Lemma concat_slices {A} (l : list A) (ranges : list Range) : forall from,
  0 <= from -> contiguous ranges from (Z.of_nat (length l)) ->
  concat (map (fun r => slice l (range_start r) (range_end r)) ranges) =
  drop (Z.to_nat from) l.
Proof.
  induction ranges as [|r rest IH]; intros from Hfrom; cbn.
  - intros ->. rewrite Nat2Z.id, drop_all. reflexivity.
  - intros (Hstart & Hle & Hrest). pose proof (contiguous_le _ _ _ Hrest) as Hend.
    rewrite (IH (range_end r)) by (lia || exact Hrest).
    rewrite Hstart, slice_within by lia.
    replace (Z.to_nat (range_end r)) with (Z.to_nat from + Z.to_nat (range_end r - from))%nat by lia.
    rewrite <- drop_drop. apply take_drop.
Qed.

(** *** The attachment loop *)

Lemma attachPair_result faceRanges pointRanges nPoints pointLabelMap faceLabelIds labels
    originalHeader i originalMesh clonedMesh store r :
  is_Some (GlbParser.geometryOf store clonedMesh) ->
  registered faceRanges pointRanges originalMesh r ->
  isMesh (fst (attachPair faceRanges pointRanges nPoints pointLabelMap faceLabelIds labels
                 originalHeader i originalMesh clonedMesh store)) = isMesh clonedMesh /\
  faceLabels (top (userData (fst (attachPair faceRanges pointRanges nPoints pointLabelMap
                                    faceLabelIds labels originalHeader i originalMesh
                                    clonedMesh store)))) =
    (if bool_decide (0 < length faceLabelIds)%nat
     then Some (slice faceLabelIds (range_start r) (range_end r))
     else faceLabels (top (userData clonedMesh))) /\
  (forall n, is_Some (GlbParser.geometryOf store n) ->
             is_Some (GlbParser.geometryOf
                        (snd (attachPair faceRanges pointRanges nPoints pointLabelMap
                                faceLabelIds labels originalHeader i originalMesh
                                clonedMesh store)) n)).
Proof.
  unfold GlbParser.geometryOf, registered, attachPair.
  intros [g Hg] [Hface [pr Hpoint]].
  destruct (geometry clonedMesh) as [gref|]; [|discriminate]. cbn in Hg. rewrite Hg.
  rewrite Hface, Hpoint.
  repeat split.
  - destruct (bool_decide (0 < length faceLabelIds)%nat), (bool_decide (i = 0%nat)),
      (bool_decide (0 < length labels)%nat), originalHeader; reflexivity.
  - destruct (bool_decide (0 < length faceLabelIds)%nat), (bool_decide (i = 0%nat)),
      (bool_decide (0 < length labels)%nat), originalHeader; reflexivity.
  - intros n [gn Hn]. cbn.
    destruct (geometry n) as [nref|]; [|discriminate]. cbn in Hn |- *.
    destruct (bool_decide (0 < size pointLabelMap)%nat); [|eauto].
    destruct (attr_position g); [|eauto].
    destruct (decide (gref = nref)) as [->|Hne].
    + rewrite lookup_insert_eq. eauto.
    + rewrite lookup_insert_ne by exact Hne. eauto.
Qed.

Lemma attachLoop_result faceRanges pointRanges nPoints pointLabelMap faceLabelIds labels
    originalHeader (originalMeshes : list NodeData) :
  forall (clonedMeshes : list NodeData) (ranges : list Range) (i : nat) (store : GeomStore),
  length clonedMeshes = length originalMeshes ->
  Forall2 (registered faceRanges pointRanges) originalMeshes ranges ->
  Forall (fun c => is_Some (GlbParser.geometryOf store c)) clonedMeshes ->
  Forall (fun c => isMesh c = true) clonedMeshes ->
  Forall (fun c => faceLabels (top (userData c)) = None) clonedMeshes ->
  let result := attachLoop faceRanges pointRanges nPoints pointLabelMap faceLabelIds labels
                  originalHeader i originalMeshes clonedMeshes store in
  length (fst result) = length clonedMeshes /\
  Forall (fun c => isMesh c = true) (fst result) /\
  Forall2 (fun c r => faceLabelsOf c = slice faceLabelIds (range_start r) (range_end r))
    (fst result) ranges.
Proof.
  induction originalMeshes as [|o os IH];
    intros clonedMeshes ranges i store Hlen Hreg Hgeom Hmesh Hnone; cbn.
  - destruct clonedMeshes; [|discriminate]. inversion Hreg; subst.
    repeat split; constructor.
  - destruct clonedMeshes as [|c cs]; [discriminate|].
    inversion Hreg as [|? r ? rest Hr Hrest]; subst.
    inversion Hgeom as [|? ? Hc Hcs]; subst.
    inversion Hmesh as [|? ? Hcm Hcsm]; subst.
    inversion Hnone as [|? ? Hcn Hcsn]; subst.
    pose proof (attachPair_result faceRanges pointRanges nPoints pointLabelMap faceLabelIds
                  labels originalHeader i o c store r Hc Hr) as (Hm & Hf & Hstore).
    destruct (attachPair _ _ _ _ _ _ _ i o c store) as [c' store1]. cbn [fst snd] in *.
    assert (Hcs1 : Forall (fun c => is_Some (GlbParser.geometryOf store1 c)) cs).
    { eapply Forall_impl; [exact Hcs|]. intros n Hn. apply Hstore, Hn. }
    specialize (IH cs rest (S i) store1 ltac:(cbn in Hlen; lia) Hrest Hcs1 Hcsm Hcsn).
    destruct (attachLoop _ _ _ _ _ _ _ (S i) os cs store1) as [cs' store2].
    cbn [fst snd] in *. destruct IH as (IHlen & IHmesh & IHslices).
    repeat split.
    + cbn. lia.
    + constructor; [congruence|exact IHmesh].
    + constructor; [|exact IHslices].
      unfold faceLabelsOf. rewrite Hf. case_bool_decide as Hfl; [reflexivity|].
      rewrite Hcn. destruct faceLabelIds; [symmetry; apply slice_nil|cbn in Hfl; lia].
Qed.

(** The array the encoder slices is the global face-label array: the label
    of every face, 0 for a face without label. *)
Lemma buildFaceLabelIds_labels (faces : option (list Face)) :
  buildFaceLabelIds faces = globalFaceLabels faces.
Proof.
  unfold buildFaceLabelIds, globalFaceLabels. destruct faces as [fs|]; [|reflexivity]. cbn.
  apply map_ext. intros face. unfold orElse, truthy.
  destruct (face_labelId face) as [l|]; [|reflexivity].
  destruct (Z.eqb_spec l 0) as [->|_]; reflexivity.
Qed.

(** C3: for every scene whose meshes all have a geometry and whose
    interaction-map face ranges, taken in traversal order, run contiguously
    from 0 to the number of faces, the encoder leaves on each cloned mesh a
    face-label array equal to the slice of the global face-label array (the
    [labelId] of every face of the document, a missing one mapped to 0)
    over that mesh's range, and the concatenation of these arrays in
    traversal order is the global array. The scene is one the decoder
    normalised (no mesh carries a top-level [faceLabels] key), and a mesh
    without array, which the encoder leaves so when there is no face at
    all, reads as the empty array. *)
Theorem export_face_labels_by_range (store : GeomStore) (freshUuid : Uuid)
    (scene : Object3D) (faceRanges pointRanges : gmap Uuid Range)
    (faceToMesh : gmap Z (Uuid * Z)) (points : list Point) (faces : option (list Face))
    (labels : list Label) (originalHeader : option FileHeader) (ranges : list Range) :
  Forall (fun m => is_Some (GlbParser.geometryOf store m)) (collectMeshes scene) ->
  Forall (fun m => faceLabels (top (userData m)) = None) (collectMeshes scene) ->
  Forall2 (registered faceRanges pointRanges) (collectMeshes scene) ranges ->
  contiguous ranges 0 (Z.of_nat (length (default [] faces))) ->
  exists store' exported,
    exportGLB store freshUuid (Some scene)
      (Some (mkMapping (Some faceRanges) (Some pointRanges) faceToMesh))
      points faces labels originalHeader = (store', Return exported) /\
    Forall2 (fun m r => faceLabelsOf m =
                        slice (globalFaceLabels faces) (range_start r) (range_end r))
      (collectMeshes exported) ranges /\
    concat (map faceLabelsOf (collectMeshes exported)) = globalFaceLabels faces.
Proof.
  intros Hgeom Hnone Hreg Hfaces.
  assert (Hcontiguous : contiguous ranges 0 (Z.of_nat (length (buildFaceLabelIds faces)))).
  { rewrite buildFaceLabelIds_labels. unfold globalFaceLabels. rewrite length_map.
    exact Hfaces. }
  clear Hfaces. rewrite <- (buildFaceLabelIds_labels faces). unfold exportGLB.
  pose proof (collectMeshes_clone scene freshUuid) as Hclone.
  set (sceneToExport := fst (clone scene freshUuid)) in *.
  set (originalMeshes := collectMeshes scene) in *.
  set (clonedMeshes := collectMeshes sceneToExport) in *.
  pose proof (Forall2_length _ _ _ Hclone) as Hlen.
  rewrite bool_decide_eq_false_2 by (intros Hne; apply Hne; exact Hlen).
  assert (Hcgeom : Forall (fun c => is_Some (GlbParser.geometryOf store c)) clonedMeshes).
  { clear -Hclone Hgeom. induction Hclone as [|o c os cs (_ & Hg & _) _ IH]; [constructor|].
    inversion Hgeom; subst. constructor; [|apply IH; assumption].
    unfold GlbParser.geometryOf in *. rewrite Hg. assumption. }
  assert (Hcmesh : Forall (fun c => isMesh c = true) clonedMeshes).
  { apply Forall_forall. intros c Hc. apply list_elem_of_filter in Hc. apply Hc. }
  assert (Hcnone : Forall (fun c => faceLabels (top (userData c)) = None) clonedMeshes).
  { clear -Hclone Hnone. induction Hclone as [|o c os cs (_ & _ & Hu) _ IH]; [constructor|].
    inversion Hnone; subst. constructor; [|apply IH; assumption].
    rewrite Hu. assumption. }
  pose proof (attachLoop_result faceRanges pointRanges (Z.of_nat (length points))
                (buildPointLabelMap points) (buildFaceLabelIds faces) labels originalHeader
                originalMeshes clonedMeshes ranges 0%nat store (eq_sym Hlen) Hreg
                Hcgeom Hcmesh Hcnone) as (Hrlen & Hrmesh & Hrslices).
  destruct (attachLoop _ _ _ _ _ _ _ 0%nat originalMeshes clonedMeshes store)
    as [clonedMeshes' store'].
  cbn [fst snd] in *.
  exists store', (fst (putMeshes sceneToExport clonedMeshes')).
  split; [reflexivity|].
  rewrite (collectMeshes_putMeshes sceneToExport clonedMeshes' Hrlen Hrmesh).
  split; [exact Hrslices|].
  transitivity (concat (map (fun r => slice (buildFaceLabelIds faces) (range_start r)
                                        (range_end r)) ranges)).
  - f_equal. clear -Hrslices. induction Hrslices as [|c r cs rs Hc _ IH]; [reflexivity|].
    cbn. rewrite Hc, IH. reflexivity.
  - rewrite (concat_slices _ _ 0) by (lia || exact Hcontiguous). reflexivity.
Qed.

Lemma export_face_labels_by_range_witness :
  exists mapping faceRanges pointRanges store' exported,
    GlbParser.buildInteractionMapping twoMeshStore twoMeshScene = Return mapping /\
    meshToFaceRange mapping = Some faceRanges /\
    meshToPointRange mapping = Some pointRanges /\
    exportGLB twoMeshStore 100 (Some twoMeshScene)
      (Some (mkMapping (Some faceRanges) (Some pointRanges) (faceToMesh mapping)))
      [] (Some threeFaces) [] None = (store', Return exported) /\
    Forall2 (fun m r => faceLabelsOf m =
                        slice (globalFaceLabels (Some threeFaces))
                          (range_start r) (range_end r))
      (collectMeshes exported) [mkRange 0 1; mkRange 1 3] /\
    concat (map faceLabelsOf (collectMeshes exported)) = [3; 0; 5].
Proof.
  eexists _, _, _.
  assert (Hexport := export_face_labels_by_range twoMeshStore 100 twoMeshScene
                       {[1 := mkRange 0 1; 2 := mkRange 1 3]}
                       {[1 := mkRange 0 3; 2 := mkRange 3 7]}
                       {[0 := (1, 0); 1 := (2, 0); 2 := (2, 1)]}
                       [] (Some threeFaces) [] None [mkRange 0 1; mkRange 1 3]).
  destruct Hexport as (store' & exported & Hexport).
  - repeat constructor; eexists; vm_compute; reflexivity.
  - repeat constructor.
  - repeat constructor; eexists; vm_compute; reflexivity.
  - cbn. repeat split; lia.
  - exists store', exported.
    split; [vm_compute; reflexivity|]. split; [reflexivity|]. split; [reflexivity|].
    exact Hexport.
Defined.

(** *** What the encoder writes outside the clone *)

(** The loop writes to the geometry store only when some point carries a
    label. *)
Lemma attachLoop_without_point_labels faceRanges pointRanges nPoints pointLabelMap
    faceLabelIds labels originalHeader (originalMeshes : list NodeData) :
  forall (clonedMeshes : list NodeData) (i : nat) (store : GeomStore),
  size pointLabelMap = 0%nat ->
  snd (attachLoop faceRanges pointRanges nPoints pointLabelMap faceLabelIds labels
         originalHeader i originalMeshes clonedMeshes store) = store.
Proof.
  induction originalMeshes as [|o os IH]; intros clonedMeshes i store Hsize; cbn;
    [reflexivity|].
  destruct clonedMeshes as [|c cs]; [reflexivity|].
  assert (Hpair : snd (attachPair faceRanges pointRanges nPoints pointLabelMap faceLabelIds
                         labels originalHeader i o c store) = store).
  { unfold attachPair. rewrite Hsize.
    destruct (geometry c) as [gref|]; [|reflexivity].
    destruct (store !! gref); [|reflexivity].
    destruct (pointRanges !! uuid o), (faceRanges !! uuid o); reflexivity. }
  destruct (attachPair _ _ _ _ _ _ _ i o c store) as [c' store1]. cbn in Hpair. subst store1.
  specialize (IH cs (S i) store Hsize).
  destruct (attachLoop _ _ _ _ _ _ _ (S i) os cs store) as [cs' store2]. exact IH.
Qed.

(** When no point carries a label, the encoder leaves every geometry as it
    found it. *)
Lemma export_without_point_labels_keeps_geometries (store : GeomStore) (freshUuid : Uuid)
    originalScene interactionMapping (points : list Point) faces labels originalHeader :
  size (buildPointLabelMap points) = 0%nat ->
  fst (exportGLB store freshUuid originalScene interactionMapping points faces labels
         originalHeader) = store.
Proof.
  intros Hsize. unfold exportGLB.
  destruct originalScene as [scene|]; [|reflexivity].
  destruct interactionMapping as [[[faceRanges|] [pointRanges|] f2m]|]; try reflexivity.
  case_bool_decide; [reflexivity|].
  pose proof (attachLoop_without_point_labels faceRanges pointRanges
                (Z.of_nat (length points)) (buildPointLabelMap points)
                (buildFaceLabelIds faces) labels originalHeader (collectMeshes scene)
                (collectMeshes (fst (clone scene freshUuid))) 0%nat store Hsize) as Hloop.
  destruct (attachLoop _ _ _ _ _ _ _ 0%nat _ _ store) as [cs' store']. exact Hloop.
Qed.

(** An export that ends in an error has written nothing. *)
Lemma export_error_keeps_geometries (store : GeomStore) (freshUuid : Uuid)
    originalScene interactionMapping (points : list Point) faces labels originalHeader e :
  snd (exportGLB store freshUuid originalScene interactionMapping points faces labels
         originalHeader) = Throw e ->
  fst (exportGLB store freshUuid originalScene interactionMapping points faces labels
         originalHeader) = store.
Proof.
  unfold exportGLB.
  destruct originalScene as [scene|]; [|reflexivity].
  destruct interactionMapping as [[[faceRanges|] [pointRanges|] f2m]|]; try reflexivity.
  case_bool_decide; [reflexivity|].
  destruct (attachLoop _ _ _ _ _ _ _ 0%nat _ _ store) as [cs' store']. discriminate.
Qed.

(** C5: the code misses the claim. The clone shares each geometry with the
    node it was cloned from, so the label attribute the encoder sets on the
    geometry of a cloned mesh is set on the geometry of the original mesh:
    after the export of a document with one labelled point, the original
    node's geometry carries a [_label_id] attribute it did not have. *)
Theorem export_writes_label_attribute_to_original_geometry :
  exists mapping store' exported,
    GlbParser.buildInteractionMapping triangleStore triangleScene = Return mapping /\
    exportGLB triangleStore 100 (Some triangleScene) (Some mapping)
      [aPoint (Some 5); aPoint None; aPoint None] None [] None
      = (store', Return exported) /\
    collectMeshes triangleScene = [triangleMesh] /\
    (attr_label_id <$> GlbParser.geometryOf triangleStore triangleMesh) = Some None /\
    (attr_label_id <$> GlbParser.geometryOf store' triangleMesh) = Some (Some [5; 0; 0]).
Proof.
  eexists _, _, _. split; [vm_compute; reflexivity|].
  split; [vm_compute; reflexivity|].
  repeat split.
Qed.

(** *** What the encoder may change in the geometry store *)

Lemma sameButLabelId_refl g : sameButLabelId g g.
Proof. destruct g; cbn; repeat split. Qed.

Lemma sameButLabelId_trans a b c :
  sameButLabelId a b -> sameButLabelId b c -> sameButLabelId a c.
Proof.
  destruct a, b, c; cbn; try tauto.
  intros (?&?&?&?&?&?) (?&?&?&?&?&?). repeat split; congruence.
Qed.

Lemma attachPair_store faceRanges pointRanges nPoints pointLabelMap faceLabelIds labels
    originalHeader i originalMesh clonedMesh (store : GeomStore) (g : GeomRef) :
  sameButLabelId (store !! g)
    (snd (attachPair faceRanges pointRanges nPoints pointLabelMap faceLabelIds labels
            originalHeader i originalMesh clonedMesh store) !! g) /\
  (geometry clonedMesh <> Some g ->
   snd (attachPair faceRanges pointRanges nPoints pointLabelMap faceLabelIds labels
          originalHeader i originalMesh clonedMesh store) !! g = store !! g).
Proof.
  unfold attachPair.
  destruct (geometry clonedMesh) as [gref|]; [|split; [apply sameButLabelId_refl|reflexivity]].
  destruct (store !! gref) as [geom|] eqn:Hgeom;
    [|split; [apply sameButLabelId_refl|reflexivity]].
  destruct (pointRanges !! uuid originalMesh), (faceRanges !! uuid originalMesh);
    try (split; [apply sameButLabelId_refl|reflexivity]).
  cbn. destruct (bool_decide (0 < size pointLabelMap)%nat);
    [|split; [apply sameButLabelId_refl|reflexivity]].
  destruct (attr_position geom); [|split; [apply sameButLabelId_refl|reflexivity]].
  destruct (decide (gref = g)) as [->|Hne].
  - rewrite lookup_insert_eq, Hgeom. split; [cbn; repeat split|congruence].
  - rewrite lookup_insert_ne by exact Hne. split; [apply sameButLabelId_refl|reflexivity].
Qed.

Lemma attachLoop_store faceRanges pointRanges nPoints pointLabelMap faceLabelIds labels
    originalHeader (originalMeshes : list NodeData) (g : GeomRef) :
  forall (clonedMeshes : list NodeData) (i : nat) (store : GeomStore),
  sameButLabelId (store !! g)
    (snd (attachLoop faceRanges pointRanges nPoints pointLabelMap faceLabelIds labels
            originalHeader i originalMeshes clonedMeshes store) !! g) /\
  (Forall (fun c => geometry c <> Some g) clonedMeshes ->
   snd (attachLoop faceRanges pointRanges nPoints pointLabelMap faceLabelIds labels
          originalHeader i originalMeshes clonedMeshes store) !! g = store !! g).
Proof.
  induction originalMeshes as [|o os IH]; intros clonedMeshes i store; cbn;
    [split; [apply sameButLabelId_refl|reflexivity]|].
  destruct clonedMeshes as [|c cs]; [split; [apply sameButLabelId_refl|reflexivity]|].
  destruct (attachPair_store faceRanges pointRanges nPoints pointLabelMap faceLabelIds labels
              originalHeader i o c store g) as [Hsame Hother].
  destruct (attachPair _ _ _ _ _ _ _ i o c store) as [c' store1]. cbn [snd] in *.
  destruct (IH cs (S i) store1) as [IHsame IHother].
  destruct (attachLoop _ _ _ _ _ _ _ (S i) os cs store1) as [cs' store2]. cbn [snd] in *.
  split.
  - eapply sameButLabelId_trans; eassumption.
  - intros Hall. inversion Hall as [|? ? Hc Hcs]; subst.
    rewrite (IHother Hcs). apply Hother, Hc.
Qed.

(** X20: whatever it is given, the encoder changes in the geometry store
    nothing but the label attribute, and that only on geometries that meshes
    of the original scene reference. *)
Lemma export_changes_label_attribute_only (store : GeomStore) (freshUuid : Uuid)
    originalScene interactionMapping (points : list Point) faces labels originalHeader
    (g : GeomRef) :
  sameButLabelId (store !! g)
    (fst (exportGLB store freshUuid originalScene interactionMapping points faces labels
            originalHeader) !! g) /\
  ((forall scene, originalScene = Some scene ->
      Forall (fun m => geometry m <> Some g) (collectMeshes scene)) ->
   fst (exportGLB store freshUuid originalScene interactionMapping points faces labels
          originalHeader) !! g = store !! g).
Proof.
  unfold exportGLB.
  destruct originalScene as [scene|]; [|split; [apply sameButLabelId_refl|reflexivity]].
  destruct interactionMapping as [[[faceRanges|] [pointRanges|] f2m]|];
    try (split; [apply sameButLabelId_refl|reflexivity]).
  case_bool_decide; [split; [apply sameButLabelId_refl|reflexivity]|].
  destruct (attachLoop_store faceRanges pointRanges (Z.of_nat (length points))
              (buildPointLabelMap points) (buildFaceLabelIds faces) labels originalHeader
              (collectMeshes scene) g (collectMeshes (fst (clone scene freshUuid))) 0%nat store)
    as [Hsame Hother].
  destruct (attachLoop _ _ _ _ _ _ _ 0%nat _ _ store) as [cs' store']. cbn [fst snd] in *.
  split; [exact Hsame|].
  intros Hmeshes. apply Hother. specialize (Hmeshes scene eq_refl).
  pose proof (collectMeshes_clone scene freshUuid) as Hclone.
  clear -Hclone Hmeshes.
  induction Hclone as [|o c os cs (_ & Hg & _) _ IH]; [constructor|].
  inversion Hmeshes; subst. constructor; [rewrite Hg; assumption|apply IH; assumption].
Qed.

End ExportProperties.

(** ** Mesh-exchange decoder *)

Section DecodeProperties.
Import Store Three GlbExporter GlbParser Examples ExportFacts DecodeFacts.

Lemma traverse_standardizeScene (o : Object3D) :
  traverse (standardizeScene o) = map standardizeUserDataStructure (traverse o).
Proof.
  induction o as [node children IH] using Object3D_tree_ind. cbn. f_equal.
  induction IH as [|c cs Hc _ IHcs]; [reflexivity|].
  cbn. rewrite Hc, IHcs, map_app. reflexivity.
Qed.

Lemma standardize_isMesh node : isMesh (standardizeUserDataStructure node) = isMesh node.
Proof.
  unfold standardizeUserDataStructure. destruct (isMesh node) eqn:Hm; cbn; [|exact Hm].
  destruct (hasAnyCustom _); [reflexivity|exact Hm].
Qed.

Lemma standardize_no_top_faceLabels node :
  isMesh node = true ->
  faceLabels (top (userData (standardizeUserDataStructure node))) = None.
Proof.
  unfold standardizeUserDataStructure. intros ->. cbn.
  destruct (hasAnyCustom _) eqn:Hany; [reflexivity|].
  unfold hasAnyCustom in Hany. repeat (apply orb_false_iff in Hany as [Hany _]).
  apply bool_decide_eq_false in Hany.
  destruct (faceLabels _); [exfalso; apply Hany; discriminate|reflexivity].
Qed.

(** After the decoder's normalisation no mesh carries its face labels at
    the top level of its metadata bag. *)
Lemma standardizeScene_no_top_faceLabels (o : Object3D) :
  Forall (fun m => faceLabels (top (userData m)) = None) (collectMeshes (standardizeScene o)).
Proof.
  unfold collectMeshes. rewrite traverse_standardizeScene.
  apply Forall_forall. intros m Hm. apply list_elem_of_filter in Hm as [Hmesh Hin].
  apply list_elem_of_fmap in Hin as (n & -> & _).
  apply standardize_no_top_faceLabels. rewrite <- Hmesh. symmetry. apply standardize_isMesh.
Qed.

Lemma sumFaces_cons store n rest :
  sumFaces store (n :: rest) = nodeFaces store n + sumFaces store rest.
Proof. reflexivity. Qed.

Lemma length_upto (n : Z) : length (upto n) = Z.to_nat n.
Proof. unfold upto. rewrite length_map, length_seq. reflexivity. Qed.

Lemma length_strides (n : Z) : length (strides n) = Z.to_nat ((n + 2) / 3).
Proof. unfold strides. rewrite length_map. apply length_upto. Qed.

Lemma faceCountOf_nonneg g c : faceCountOf g = Return c -> 0 <= c.
Proof.
  unfold faceCountOf, count.
  destruct (index g); [|destruct (attr_position g)]; intros [= <-]; try discriminate;
    apply Z.div_pos; lia.
Qed.

Lemma extracted_face_count g fs c :
  triangleList g ->
  extractFacesFromGeometry g = Return fs -> faceCountOf g = Return c ->
  Z.of_nat (length fs) = c.
Proof.
  unfold triangleList, extractFacesFromGeometry, faceCountOf.
  destruct (index g) as [idx|]; [|destruct (attr_position g) as [positions|]].
  - intros Hmod [= <-] [= <-]. rewrite length_map, length_strides.
    rewrite Z2Nat.id by (apply Z.div_pos; lia).
    pose proof (Z.div_mod (Z.of_nat (length idx)) 3 ltac:(lia)) as Hdm.
    rewrite Hmod in Hdm. symmetry. apply Z.div_unique with (r := 2); lia.
  - intros Hmod [= <-] [= <-]. rewrite length_map, length_strides.
    assert (0 <= count positions) by (unfold count; lia).
    rewrite Z2Nat.id by (apply Z.div_pos; lia).
    pose proof (Z.div_mod (count positions) 3 ltac:(lia)) as Hdm.
    rewrite Hmod in Hdm. symmetry. apply Z.div_unique with (r := 2); lia.
  - discriminate.
Qed.

Lemma length_applyFaceLabels ids fs : length (applyFaceLabels ids fs) = length fs.
Proof.
  unfold applyFaceLabels. destruct ids as [ids|]; [|reflexivity].
  case_bool_decide; [apply length_imap|reflexivity].
Qed.

(** The extraction pass: every mesh has a geometry, and the faces
    extracted are as many as the mapping pass will count. *)
Lemma extract_pass store (nodes : list NodeData) : forall allPoints allFaces allPoints' allFaces',
  forEachC (extractMesh store) nodes (allPoints, allFaces) = Return (allPoints', allFaces') ->
  Forall (fun n => isMesh n = true -> forall g, geometryOf store n = Some g -> triangleList g)
    nodes ->
  Forall (fun n => isMesh n = true -> is_Some (geometryOf store n)) nodes /\
  (forall faceRanges pointRanges f2m fo vo r,
     forEachC (mapMesh store) nodes (faceRanges, pointRanges, f2m, fo, vo) = Return r ->
     Z.of_nat (length allFaces') = Z.of_nat (length allFaces) + sumFaces store nodes).
Proof.
  induction nodes as [|n rest IH]; intros allPoints allFaces allPoints' allFaces' Hrun Htri;
    cbn in Hrun.
  - injection Hrun as <- <-. split; [constructor|]. intros. cbn. lia.
  - inversion Htri as [|? ? Hn Hrest]; subst.
    unfold extractMesh at 1 in Hrun.
    destruct (isMesh n) eqn:Hmesh; cbn in Hrun.
    + destruct (geometryOf store n) as [g|] eqn:Hg; cbn in Hrun; [|discriminate].
      destruct (extractFacesFromGeometry g) as [localFaces|] eqn:Hfaces; cbn in Hrun;
        [|discriminate].
      destruct (IH _ _ _ _ Hrun Hrest) as [IHgeom IHcount].
      split; [constructor; [intros _; rewrite Hg; eauto|exact IHgeom]|].
      intros faceRanges pointRanges f2m fo vo r Hmap. cbn in Hmap.
      unfold mapMesh at 1 in Hmap. rewrite Hmesh, Hg in Hmap. cbn in Hmap.
      destruct (faceCountOf g) as [c|] eqn:Hc; cbn in Hmap; [|discriminate].
      destruct (vertexCountOf g) as [v|]; cbn in Hmap; [|discriminate].
      rewrite (IHcount _ _ _ _ _ _ Hmap), length_app, length_map, length_applyFaceLabels.
      pose proof (extracted_face_count g localFaces c (Hn eq_refl g eq_refl) Hfaces Hc).
      rewrite sumFaces_cons. unfold nodeFaces. rewrite Hmesh, Hg, Hc. lia.
    + destruct (IH _ _ _ _ Hrun Hrest) as [IHgeom IHcount].
      split; [constructor; [intros ?; congruence|exact IHgeom]|].
      intros faceRanges pointRanges f2m fo vo r Hmap. cbn in Hmap.
      unfold mapMesh at 1 in Hmap. rewrite Hmesh in Hmap. cbn in Hmap.
      rewrite (IHcount _ _ _ _ _ _ Hmap), sumFaces_cons. unfold nodeFaces. rewrite Hmesh. lia.
Qed.

(** The mapping pass: the ranges recorded for the meshes, in traversal
    order, run contiguously from the initial face offset. *)
Lemma mapping_pass store (nodes : list NodeData) :
  forall faceRanges pointRanges f2m fo vo faceRanges' pointRanges' f2m' fo' vo',
  forEachC (mapMesh store) nodes (faceRanges, pointRanges, f2m, fo, vo)
    = Return (faceRanges', pointRanges', f2m', fo', vo') ->
  NoDup (map uuid (meshesOf nodes)) ->
  fo' = fo + sumFaces store nodes /\
  (forall u, u ∉ map uuid (meshesOf nodes) ->
     faceRanges' !! u = faceRanges !! u /\ pointRanges' !! u = pointRanges !! u) /\
  exists ranges,
    Forall2 (registered faceRanges' pointRanges') (meshesOf nodes) ranges /\
    contiguous ranges fo fo'.
Proof.
  unfold meshesOf.
  induction nodes as [|n rest IH];
    intros faceRanges pointRanges f2m fo vo faceRanges' pointRanges' f2m' fo' vo' Hrun Hdup;
    cbn in Hrun.
  - injection Hrun as <- <- _ <- _. cbn. split; [lia|]. split; [auto|].
    exists []. split; [constructor|reflexivity].
  - unfold mapMesh at 1 in Hrun. rewrite sumFaces_cons. unfold nodeFaces.
    destruct (isMesh n) eqn:Hmesh; cbn in Hrun.
    + rewrite filter_cons_True in Hdup |- * by exact Hmesh.
      cbn in Hdup. apply NoDup_cons in Hdup as [Hfresh Hdup].
      destruct (geometryOf store n) as [g|] eqn:Hg; cbn in Hrun; [|discriminate].
      destruct (faceCountOf g) as [c|] eqn:Hc; cbn in Hrun; [|discriminate].
      destruct (vertexCountOf g) as [v|] eqn:Hv; cbn in Hrun; [|discriminate].
      destruct (IH _ _ _ _ _ _ _ _ _ _ Hrun Hdup) as (Hfo & Hkeep & ranges & Hreg & Hcont).
      split; [lia|]. split.
      * intros u Hu. cbn in Hu. apply not_elem_of_cons in Hu as [Hne Hu].
        destruct (Hkeep u Hu) as [-> ->]. rewrite !lookup_insert_ne by congruence. auto.
      * exists (mkRange fo (fo + c) :: ranges). split.
        -- constructor; [|exact Hreg]. destruct (Hkeep (uuid n) Hfresh) as [Hf Hp].
           unfold registered. rewrite Hf, Hp, !lookup_insert_eq. eauto.
        -- cbn. pose proof (faceCountOf_nonneg g c Hc). repeat split; [lia|exact Hcont].
    + rewrite filter_cons_False in Hdup |- * by (rewrite Hmesh; discriminate).
      destruct (IH _ _ _ _ _ _ _ _ _ _ Hrun Hdup) as (Hfo & Hkeep & ranges & Hreg & Hcont).
      split; [lia|]. split; [exact Hkeep|]. exists ranges. split; assumption.
Qed.

Lemma meshesOf_standardize (nodes : list NodeData) :
  meshesOf (map standardizeUserDataStructure nodes) =
  map standardizeUserDataStructure (meshesOf nodes).
Proof.
  unfold meshesOf. induction nodes as [|n rest IH]; [reflexivity|]. cbn [map].
  destruct (isMesh n) eqn:Hmesh.
  - rewrite !filter_cons_True by (rewrite ?standardize_isMesh; exact Hmesh).
    cbn. rewrite IH. reflexivity.
  - rewrite !filter_cons_False by (rewrite ?standardize_isMesh, Hmesh; discriminate).
    exact IH.
Qed.

Lemma standardize_uuid node : uuid (standardizeUserDataStructure node) = uuid node.
Proof.
  unfold standardizeUserDataStructure. destruct (negb _); [reflexivity|].
  destruct (hasAnyCustom _); reflexivity.
Qed.

Lemma standardize_geometry store node :
  geometryOf store (standardizeUserDataStructure node) = geometryOf store node.
Proof.
  unfold geometryOf, standardizeUserDataStructure. destruct (negb _); [reflexivity|].
  destruct (hasAnyCustom _); reflexivity.
Qed.

(** X21: what the decoder returns is what the encoder's slicing relies on:
    for a loaded scene of triangle lists with distinct uuids, every mesh of the
    payload's scene has a geometry and no top-level face-label key, and the
    face ranges of the payload's interaction map, in traversal order, run
    contiguously from 0 to the payload's number of faces. *)
Lemma decode_meets_export_hypotheses (store : GeomStore) (loaded : Object3D)
    (fileName : string) (payload : Payload) :
  processScene store loaded fileName = Return payload ->
  NoDup (map uuid (collectMeshes loaded)) ->
  Forall (fun m => forall g, geometryOf store m = Some g -> triangleList g)
    (collectMeshes loaded) ->
  exists scene faceRanges pointRanges f2m ranges,
    pl_originalScene payload = Some scene /\
    pl_interactionMapping payload = Some (mkMapping (Some faceRanges) (Some pointRanges) f2m) /\
    Forall (fun m => is_Some (geometryOf store m)) (collectMeshes scene) /\
    Forall (fun m => faceLabels (top (userData m)) = None) (collectMeshes scene) /\
    Forall2 (registered faceRanges pointRanges) (collectMeshes scene) ranges /\
    contiguous ranges 0 (Z.of_nat (length (default [] (pl_faces payload)))).
Proof.
  unfold processScene. intros Hrun Hdup Htri.
  set (scene := standardizeScene loaded) in *.
  destruct (forEachC (extractMesh store) (traverse scene) ([], [])) as [[allPoints allFaces]|]
    eqn:Hextract; cbn in Hrun; [|discriminate].
  unfold buildInteractionMapping in Hrun.
  destruct (forEachC (mapMesh store) (traverse scene) (∅, ∅, ∅, 0, 0))
    as [[[[[faceRanges pointRanges] f2m] fo] vo]|] eqn:Hmap; cbn in Hrun; [|discriminate].
  injection Hrun as <-. cbn.
  assert (Htraverse : traverse scene = map standardizeUserDataStructure (traverse loaded))
    by apply traverse_standardizeScene.
  assert (Hmeshes : collectMeshes scene = map standardizeUserDataStructure (collectMeshes loaded)).
  { unfold collectMeshes. rewrite Htraverse. apply meshesOf_standardize. }
  assert (Htri' : Forall (fun n => isMesh n = true ->
                                   forall g, geometryOf store n = Some g -> triangleList g)
                    (traverse scene)).
  { rewrite Htraverse. apply Forall_forall. intros n Hn Hmesh g Hg.
    apply list_elem_of_fmap in Hn as (n0 & -> & Hn0).
    rewrite standardize_isMesh in Hmesh. rewrite standardize_geometry in Hg.
    rewrite Forall_forall in Htri. apply (Htri n0); [|exact Hg].
    apply list_elem_of_filter. split; assumption. }
  destruct (extract_pass store _ _ _ _ _ Hextract Htri') as [Hgeom Hcount].
  specialize (Hcount _ _ _ _ _ _ Hmap).
  assert (Hdup' : NoDup (map uuid (meshesOf (traverse scene)))).
  { change (meshesOf (traverse scene)) with (collectMeshes scene).
    rewrite Hmeshes, <- list_fmap_compose.
    erewrite list_fmap_ext; [exact Hdup|]. intros _ n _. apply standardize_uuid. }
  destruct (mapping_pass store _ _ _ _ _ _ _ _ _ _ _ Hmap Hdup')
    as (Hfo & _ & ranges & Hreg & Hcont).
  exists scene, faceRanges, pointRanges, f2m, ranges.
  split; [reflexivity|]. split; [reflexivity|]. split.
  { apply Forall_forall. intros m Hm. apply list_elem_of_filter in Hm as [Hmesh Hin].
    rewrite Forall_forall in Hgeom. apply (Hgeom m Hin Hmesh). }
  split; [apply standardizeScene_no_top_faceLabels|]. split; [exact Hreg|].
  replace (Z.of_nat (length (default [] (if bool_decide (0 < length allFaces)%nat
                                         then Some (map FaceObject allFaces) else None))))
    with fo; [exact Hcont|].
  assert (Hsame : fo = Z.of_nat (length allFaces)) by (cbn [length] in Hcount; lia).
  rewrite Hsame. case_bool_decide as Hlen; cbn; [rewrite length_map; reflexivity|].
  destruct allFaces; [reflexivity|cbn in Hlen; lia].
Qed.

End DecodeProperties.

(** ** Point-cloud decoder *)

Section PlyProperties.
Import PlyParser PlyFacts.


Local Arguments isPositive : simpl never.
Local Arguments arrayLength : simpl never.

Variable parseFloat : option string -> float.
Variable numberToString : float -> string.

Lemma threw_bind {A B} (c : Completion A) (k : A -> Completion B) :
  threw c -> threw (c ≫= k).
Proof. destruct c; cbn; [intros []|trivial]. Qed.

Lemma arrayLength_Return (z : Z) (n : nat) :
  arrayLength (NumZ z) = Return n -> 0 <= z /\ Z.of_nat n = z.
Proof.
  unfold arrayLength. cbn.
  destruct (Z.leb_spec 0 z); cbn; [|discriminate].
  destruct (z <? 4294967296); [|discriminate]. intros [= <-]. lia.
Qed.

Lemma upto_lookup (n k : Z) : 0 <= k < n -> upto n !! Z.to_nat k = Some k.
Proof.
  intros Hk. unfold upto. rewrite list_lookup_fmap, lookup_seq_lt by lia. cbn. f_equal. lia.
Qed.

Lemma at_index_beyond {A} (l : list A) (k : Z) :
  Z.of_nat (length l) <= k -> at_index l k = None.
Proof.
  intros Hk. unfold at_index. destruct (k <? 0); [reflexivity|].
  apply lookup_ge_None. lia.
Qed.

(** A position past the last line has no data line. *)
Lemma dataLine_beyond (lines : list string) (k : Z) :
  Z.of_nat (length lines) <= k -> dataLine lines k = None.
Proof. intros Hk. unfold dataLine. rewrite at_index_beyond by exact Hk. reflexivity. Qed.

Lemma fillSlots_lookup {A} (turn : Z -> Completion (option A)) (ks : list Z) :
  forall slots j k,
  fillSlots turn ks = Return slots -> ks !! j = Some k ->
  exists slot, turn k = Return slot /\ slots !! j = Some slot.
Proof.
  induction ks as [|k0 rest IH]; intros slots j k Hfill Hj; [discriminate|].
  cbn in Hfill. destruct (turn k0) as [slot0|] eqn:Hturn; cbn in Hfill; [|discriminate].
  destruct (fillSlots turn rest) as [slots'|] eqn:Hrest; cbn in Hfill; [|discriminate].
  injection Hfill as <-. destruct j as [|j]; cbn in Hj.
  - injection Hj as <-. eauto.
  - apply (IH slots' j k eq_refl Hj).
Qed.

Lemma parseAsciiPLY_hole (lines : list string) (nv nf : Z) properties faceProperties
    (startLine : Z) points faces :
  parseAsciiPLY parseFloat lines (NumZ nv) (NumZ nf) properties faceProperties startLine
    = Return (points, faces) ->
  lineMissing lines startLine nv nf ->
  None ∈ points \/ exists fs, faces = Some fs /\ None ∈ fs.
Proof.
  unfold parseAsciiPLY, lineMissing. intros Hparse (k & Hk & Hline).
  destruct (arrayLength (NumZ nv)) as [n|] eqn:Hn; cbn in Hparse; [|discriminate].
  apply arrayLength_Return in Hn as [Hnv Hn].
  destruct (Z.lt_ge_cases k nv) as [Hlt|Hge].
  - left.
    assert (Hpoints : points = map (fun i => parseVertexLine parseFloat (propMapOf properties)
                                            <$> dataLine lines (startLine + i))
                               (upto (Z.of_nat n))).
    { destruct (isPositive (NumZ nf)); [|injection Hparse as <- _; reflexivity].
      destruct (arrayLength (NumZ nf)); cbn in Hparse; [|discriminate].
      destruct (fillSlots _ _); cbn in Hparse; [|discriminate].
      injection Hparse as <- _. reflexivity. }
    rewrite Hpoints. apply list_elem_of_lookup. exists (Z.to_nat k).
    rewrite list_lookup_fmap, upto_lookup by lia. cbn.
    rewrite Hline. reflexivity.
  - right. unfold isPositive in Hparse.
    destruct (Z.ltb_spec 0 nf); [|lia].
    destruct (arrayLength (NumZ nf)) as [m|] eqn:Hm; cbn in Hparse; [|discriminate].
    apply arrayLength_Return in Hm as [Hnf Hm].
    destruct (fillSlots _ _) as [fs|] eqn:Hfill; cbn in Hparse; [|discriminate].
    injection Hparse as _ <-. exists fs. split; [reflexivity|].
    destruct (fillSlots_lookup _ _ _ (Z.to_nat (k - nv)) (k - nv) Hfill) as (slot & Hturn & Hslot).
    { apply upto_lookup. lia. }
    cbn in Hturn.
    replace (startLine + Z.of_nat n + (k - nv)) with (startLine + k) in Hturn by lia.
    rewrite Hline in Hturn.
    destruct (_ <? _); injection Hturn as <-; apply list_elem_of_lookup; eauto.
Qed.

Lemma countPoint_hole (points : list (option PlyPoint)) : forall acc,
  None ∈ points -> threw (Store.forEachC (countPoint numberToString) points acc).
Proof.
  induction points as [|slot rest IH]; intros acc Hin; [inversion Hin|].
  cbn. destruct slot as [point|]; cbn; [|trivial].
  apply elem_of_cons in Hin as [Heq|Hrest]; [discriminate|].
  destruct (ply_labelId point); cbn; apply IH, Hrest.
Qed.

Lemma countFace_hole (faces : list (option PlyFace)) : forall acc,
  None ∈ faces -> threw (Store.forEachC (countFace numberToString) faces acc).
Proof.
  induction faces as [|slot rest IH]; intros acc Hin; [inversion Hin|].
  cbn. destruct slot as [face|]; cbn; [|trivial].
  apply elem_of_cons in Hin as [Heq|Hrest]; [discriminate|].
  destruct (ply_faceLabelId face); cbn; [case_bool_decide; cbn|]; apply IH, Hrest.
Qed.















(** An ASCII buffer in which a declared vertex or face has no data line
    (the line at its position lies past the end of the buffer or is blank):
    the parser leaves the slot unfilled, and decoding ends in the exception
    of the statistics pass that reads the slot. *)
Lemma ascii_missing_line_throws (buffer : string) (st : HeaderState) (nv nf : Z) :
  headerLoop 0 (split "010" (String.substring 0 4096 buffer)) initialHeader = Return st ->
  isBinary st = false -> h_vertexCount st = NumZ nv -> h_faceCount st = NumZ nf ->
  lineMissing (split "010" buffer) (headerEndIndex st) nv nf ->
  threw (parsePLY parseFloat numberToString buffer).
Proof.
  intros Hheader Hascii Hnv Hnf Hmissing. unfold parsePLY. rewrite Hheader. cbn.
  destruct (headerEndIndex st =? -1); [exact I|].
  rewrite Hascii, Hnv, Hnf.
  destruct (parseAsciiPLY _ _ _ _ _ _ _) as [[points faces]|] eqn:Hparse; cbn; [|exact I].
  destruct (foldl scanComment _ _) as [textureFile labelDefinitions].
  destruct (parseAsciiPLY_hole _ _ _ _ _ _ _ _ Hparse Hmissing) as [Hpoints|(fs & -> & Hfs)].
  - apply threw_bind, countPoint_hole, Hpoints.
  - destruct (Store.forEachC (countPoint numberToString) points _); cbn; [|exact I].
    apply threw_bind, countFace_hole, Hfs.
Qed.


End PlyProperties.

Section PlyExamples.
Import PlyParser PlyFacts.


(** The ASCII parser on two declared vertices and one data line: it
    returns a list whose second slot is unfilled, and decoding ends in the
    [TypeError] of the statistics pass that reads the slot, not in an error
    about the end of the data. *)
Lemma ascii_short_buffer_type_error :
  exists st points,
    headerLoop 0 (split "010" (String.substring 0 4096 shortAscii)) initialHeader
      = Return st /\
    parseAsciiPLY (fun _ => 0%float) (split "010" shortAscii) (h_vertexCount st)
      (h_faceCount st) (h_properties st) (h_faceProperties st) (headerEndIndex st)
      = Return (points, None) /\
    length points = 2%nat /\ points !! 1%nat = Some None /\
    parsePLY (fun _ => 0%float) (fun _ => ""%string) shortAscii = Throw TypeError.
Proof.
  eexists _, _. split; [vm_compute; reflexivity|]. split; [vm_compute; reflexivity|].
  repeat split.
Qed.


End PlyExamples.

(** ** The two histories of the store *)

Section HistoryProperties.
Import Store Examples StoreFacts.

Lemma dropLast_snoc {A} (l : list A) (x : A) : dropLast (l ++ [x]) = l.
Proof.
  unfold dropLast. rewrite length_app. cbn.
  replace (length l + 1 - 1)%nat with (length l) by lia.
  apply take_app_length.
Qed.

Lemma last_drop_lt {A} (n : nat) (l : list A) :
  (n < length l)%nat -> last (drop n l) = last l.
Proof.
  revert l. induction n as [|n IH]; intros l Hn; [reflexivity|].
  destruct l as [|x l]; [cbn in Hn; lia|]. cbn [drop]. cbn in Hn.
  rewrite IH by lia. destruct l; [cbn in Hn; lia|reflexivity].
Qed.

Lemma isSameSelection_spec (a b : list Z) : isSameSelection a b = true <-> a = b.
Proof.
  unfold isSameSelection. rewrite andb_true_iff, bool_decide_eq_true. split.
  - intros [Hlen Hall]. revert b Hlen Hall.
    induction a as [|x a IH]; intros [|y b] Hlen Hall; try discriminate; [reflexivity|].
    cbn in *. apply andb_true_iff in Hall as [Hxy Hall]. apply Z.eqb_eq in Hxy.
    f_equal; [exact Hxy|]. apply IH; [lia|exact Hall].
  - intros <-. split; [reflexivity|].
    induction a as [|x a IH]; [reflexivity|]. cbn. rewrite Z.eqb_refl. exact IH.
Qed.

(** X1: after a command that pushes a snapshot of the points (SET_POINTS,
    SET_PLY_DATA, LOAD_FILE_DATA, APPLY_LABELS), UNDO succeeds and puts
    back the points and the undo history of before the command; the faces,
    the labels, the label statistics and the point selection stay as the
    command left them. *)
Theorem undo_restores_points_only (state : State) (action : Action) (s1 : State) :
  pushesSnapshot action = true ->
  annotationReducer state action = Return s1 ->
  exists s2, annotationReducer s1 UNDO = Return s2 /\
    points s2 = points state /\ history s2 = history state /\
    faces s2 = faces s1 /\ labels s2 = labels s1 /\ labelInfo s2 = labelInfo s1 /\
    selectedPoints s2 = selectedPoints s1.
Proof.
  intros Hpush Hstep.
  assert (Hhist : history s1 = history state ++ [points state]).
  { destruct action; try discriminate Hpush; cbn in Hstep.
    - injection Hstep as <-. reflexivity.
    - injection Hstep as <-. reflexivity.
    - injection Hstep as <-. reflexivity.
    - apply (applyLabels_history _ _ _ _ Hstep). }
  cbn. rewrite Hhist, last_snoc, dropLast_snoc. eexists. split; [reflexivity|].
  cbn. repeat split.
Qed.

Lemma undo_restores_points_only_witness :
  exists s1 s2,
    annotationReducer (with_points [aPoint None] initialState) (APPLY_LABELS [0] (Some 1))
      = Return s1 /\
    annotationReducer s1 UNDO = Return s2 /\
    points s2 = [aPoint None] /\
    (labeledCount <$> labelInfo s2) = Some 1.
Proof.
  eexists. 
  destruct (undo_restores_points_only (with_points [aPoint None] initialState)
              (APPLY_LABELS [0] (Some 1)) _ eq_refl eq_refl)
    as (s2 & Hundo & Hpoints & _ & _ & _ & Hinfo & _).
  exists s2. split; [reflexivity|]. split; [exact Hundo|]. split; [exact Hpoints|].
  rewrite Hinfo. reflexivity.
Defined.

(** X2: no sequence of commands makes the selection history longer than 10
    entries, when it starts with at most 10. *)
Theorem selection_history_stays_capped (actions : list Action) : forall (state s' : State),
  (length (selectedPointsHistory state) <= 10)%nat ->
  run state actions = Return s' ->
  (length (selectedPointsHistory s') <= 10)%nat.
Proof.
  induction actions as [|a rest IH]; intros state s' Hcap Hrun; cbn in Hrun.
  - injection Hrun as <-. exact Hcap.
  - destruct (annotationReducer state a) as [s1|] eqn:Hstep; cbn in Hrun; [|discriminate].
    apply (IH s1 s'); [|exact Hrun]. clear IH Hrun.
    destruct a; cbn in Hstep; try (injection Hstep as <-; exact Hcap).
    + injection Hstep as <-. unfold setSelectedPoints.
      destruct (isSameSelection _ _); [exact Hcap|]. cbn. apply length_lastN.
    + unfold applyLabels in Hstep.
      destruct (forEachC _ _ _) as [[stats delta]|]; cbn in Hstep; [|discriminate].
      injection Hstep as <-. exact Hcap.
    + destruct (last (history state)); injection Hstep as <-; exact Hcap.
    + destruct (last (selectedPointsHistory state)); injection Hstep as <-; [|exact Hcap].
      cbn. rewrite length_dropLast. lia.
    + injection Hstep as <-. unfold invertSelection. destruct (_ && _); exact Hcap.
    + injection Hstep as <-. unfold applyLabelToFaces. destruct (negb _); [exact Hcap|].
      destruct (foldl _ _ _). exact Hcap.
Qed.

Lemma selection_history_stays_capped_witness :
  exists s', run initialState manySelections = Return s' /\
    (length (selectedPointsHistory s') <= 10)%nat.
Proof.
  eexists. split; [vm_compute; reflexivity|].
  apply (selection_history_stays_capped manySelections initialState).
  - cbn. lia.
  - vm_compute. reflexivity.
Defined.

Lemma last_lastN_snoc {A} (n : nat) (l : list A) (x : A) :
  last (lastN (S n) (l ++ [x])) = Some x.
Proof.
  unfold lastN. rewrite last_drop_lt by (rewrite length_app; cbn; lia). apply last_snoc.
Qed.

Lemma dropLast_lastN_snoc {A} (n : nat) (l : list A) (x : A) :
  dropLast (lastN (S n) (l ++ [x])) = lastN n l.
Proof.
  unfold dropLast, lastN. rewrite length_drop, !length_app. cbn [length].
  replace (length l + 1 - S n)%nat with (length l - n)%nat by lia.
  rewrite drop_app_le by lia.
  rewrite take_app_le by (rewrite length_drop; lia).
  apply take_ge. rewrite length_drop. lia.
Qed.

(** X3: UNDO_SELECTION after a SET_SELECTED_POINTS that changed the
    selection puts the previous point selection back. The face selection is
    not put back: it stays empty and the manual flag cleared, as
    SET_SELECTED_POINTS left them. The selection history it leaves is the
    last 9 entries of the one before the two commands. *)
Theorem undo_selection_restores_selection (state : State) (newSelection : list Z) (s1 : State) :
  newSelection <> selectedPoints state ->
  annotationReducer state (SET_SELECTED_POINTS newSelection) = Return s1 ->
  exists s2, annotationReducer s1 UNDO_SELECTION = Return s2 /\
    selectedPoints s2 = selectedPoints state /\
    selectedPointsHistory s2 = lastN 9 (selectedPointsHistory state) /\
    selectedFaces s2 = ∅ /\
    isManualFaceSelection s2 = false.
Proof.
  intros Hne Hset. cbn in Hset. unfold setSelectedPoints in Hset.
  destruct (isSameSelection _ _) eqn:Hsame;
    [apply isSameSelection_spec in Hsame; contradiction|].
  injection Hset as <-. cbn.
  rewrite last_lastN_snoc. eexists. split; [reflexivity|]. cbn.
  repeat split. apply (dropLast_lastN_snoc 9).
Qed.

Lemma undo_selection_restores_selection_witness :
  exists s1 s2,
    annotationReducer meshState (SET_SELECTED_POINTS [0; 2]) = Return s1 /\
    annotationReducer s1 UNDO_SELECTION = Return s2 /\
    selectedPoints s2 = [1] /\ selectedFaces s2 = ∅.
Proof.
  eexists.
  destruct (undo_selection_restores_selection meshState [0; 2] _
              ltac:(discriminate) eq_refl) as (s2 & Hundo & Hsel & _ & Hfaces & _).
  exists s2. repeat split; assumption.
Defined.

(** *** Inverting twice *)

Lemma filter_ext_elem {A} (P Q : A -> Prop) `{forall x, Decision (P x)}
    `{forall x, Decision (Q x)} (l : list A) :
  (forall x, x ∈ l -> P x <-> Q x) -> filter P l = filter Q l.
Proof.
  induction l as [|x l IH]; intros Hext; [reflexivity|].
  assert (Hx : P x <-> Q x) by (apply Hext; left).
  assert (Hl : filter P l = filter Q l) by (apply IH; intros y Hy; apply Hext; right; exact Hy).
  destruct (decide (P x)) as [HP|HP].
  - rewrite !filter_cons_True by tauto. rewrite Hl. reflexivity.
  - rewrite !filter_cons_False by tauto. exact Hl.
Qed.

(** X4: inverting the selection twice gives the point indices of
    [0 .. points.length - 1] that were selected, in increasing order, and
    leaves the points alone; in a document with a mesh and at least one
    face, the faces selected after the two inversions are the formerly
    selected indices that name a face. *)
Theorem invert_twice_points (state : State) :
  exists s1 s2,
    annotationReducer state INVERT_SELECTION = Return s1 /\
    annotationReducer s1 INVERT_SELECTION = Return s2 /\
    selectedPoints s2
      = filter (fun i => i ∈ selectedPoints state) (upto (Z.of_nat (length (points state)))) /\
    points s2 = points state /\
    (hasMesh state = true -> faces state <> [] ->
     forall i, i ∈ selectedFaces s2 <->
               0 <= i < Z.of_nat (length (faces state)) /\ i ∈ selectedFaces state).
Proof.
  eexists _, _. split; [reflexivity|]. split; [reflexivity|].
  assert (Hpoints : points (invertSelection state) = points state)
    by (unfold invertSelection; destruct (_ && _); reflexivity).
  assert (Hfaces : faces (invertSelection state) = faces state)
    by (unfold invertSelection; destruct (_ && _); reflexivity).
  assert (Hmesh : hasMesh (invertSelection state) = hasMesh state)
    by (unfold invertSelection; destruct (_ && _); reflexivity).
  split; [|split].
  - assert (Hsel : selectedPoints (invertSelection (invertSelection state))
                   = complementOf (length (points state))
                       (list_to_set (selectedPoints (invertSelection state)))).
    { unfold invertSelection at 1. rewrite Hpoints. destruct (_ && _); reflexivity. }
    rewrite Hsel. unfold complementOf, upto. rewrite Nat2Z.id.
    apply filter_ext_elem. intros i Hi.
    rewrite elem_of_list_to_set, invertSelection_points.
    apply list_elem_of_fmap in Hi as (k & -> & Hk). apply elem_of_seq in Hk.
    split.
    + intros Hnot. destruct (decide (Z.of_nat k ∈ selectedPoints state)) as [Hin|Hout];
        [exact Hin|]. exfalso. apply Hnot. split; [lia|exact Hout].
    + intros Hin [_ Hout]. contradiction.
  - unfold invertSelection at 1. destruct (_ && _); cbn; exact Hpoints.
  - intros Hm Hf i.
    rewrite (invertSelection_faces (invertSelection state)) by congruence.
    rewrite Hfaces, (invertSelection_faces state) by assumption.
    split.
    + intros [Hrange Hnot]. split; [exact Hrange|].
      destruct (decide (i ∈ selectedFaces state)) as [Hin|Hout]; [exact Hin|].
      exfalso. apply Hnot. split; assumption.
    + intros [Hrange Hin]. split; [exact Hrange|]. intros [_ Hout]. contradiction.
Qed.

Lemma history_length_step_witness :
  exists s', annotationReducer busyState UNDO = Return s' /\
    length (history s') = pred (length (history busyState)).
Proof.
  eexists. split; [reflexivity|].
  apply (history_length_step busyState UNDO). reflexivity.
Defined.

End HistoryProperties.

(** ** Exact statistics under the label-assignment commands *)

Section Stats.
Import Store Examples StoreFacts.

Variable labeled : option Z -> bool.
Hypothesis labeled_None : labeled None = false.

(** *** Sums over a statistics object *)

Lemma statsSum_insert_fresh (m : gmap Z Z) (k v : Z) :
  m !! k = None -> statsSum (<[k := v]> m) = v + statsSum m.
Proof.
  intros Hk. unfold statsSum. apply (map_fold_insert_L (fun _ v acc => v + acc)); [|exact Hk].
  intros. lia.
Qed.

Lemma statsSum_lookup (m : gmap Z Z) (k c : Z) :
  m !! k = Some c -> statsSum m = c + statsSum (delete k m).
Proof.
  intros Hk. unfold statsSum. apply (map_fold_delete_L (fun _ v acc => v + acc)); [|exact Hk].
  intros. lia.
Qed.

Lemma statsSum_insert (m : gmap Z Z) (k v : Z) :
  statsSum (<[k := v]> m) = statsSum m - default 0 (m !! k) + v.
Proof.
  rewrite <- (insert_delete_eq m k v).
  rewrite statsSum_insert_fresh by apply lookup_delete_eq.
  destruct (m !! k) as [c|] eqn:Hk; cbn.
  - rewrite (statsSum_lookup m k c Hk). lia.
  - rewrite delete_id by exact Hk. lia.
Qed.

Lemma statsSum_delete (m : gmap Z Z) (k : Z) :
  statsSum (delete k m) = statsSum m - default 0 (m !! k).
Proof.
  destruct (m !! k) as [c|] eqn:Hk; cbn.
  - rewrite (statsSum_lookup m k c Hk). lia.
  - rewrite delete_id by exact Hk. lia.
Qed.

Lemma statsSum_zero (m : gmap Z Z) :
  (forall k, default 0 (m !! k) = 0) -> statsSum m = 0.
Proof.
  induction m as [|k v m Hk IH] using map_ind; intros Hzero.
  - reflexivity.
  - rewrite statsSum_insert_fresh by exact Hk.
    pose proof (Hzero k) as Hv. rewrite lookup_insert_eq in Hv. cbn in Hv.
    rewrite IH; [lia|]. intros j. destruct (decide (j = k)) as [->|Hne].
    + rewrite Hk. reflexivity.
    + specialize (Hzero j). rewrite lookup_insert_ne in Hzero by congruence. exact Hzero.
Qed.

(** *** Counting in a list *)

Lemma labelCount_cons (l : option Z) (ids : list (option Z)) (k : Z) :
  labelCount (l :: ids) k = (if bool_decide (l = Some k) then 1 else 0) + labelCount ids k.
Proof.
  unfold labelCount. case_bool_decide.
  - rewrite filter_cons_True by assumption. cbn [length]. lia.
  - rewrite filter_cons_False by assumption. lia.
Qed.

Lemma labelledCount_cons (l : option Z) (ids : list (option Z)) :
  labelledCount labeled (l :: ids) = (if labeled l then 1 else 0) + labelledCount labeled ids.
Proof.
  unfold labelledCount. destruct (labeled l) eqn:Hl.
  - rewrite filter_cons_True by assumption. cbn [length]. lia.
  - rewrite filter_cons_False by congruence. lia.
Qed.

Lemma labelCount_nonneg ids k : 0 <= labelCount ids k.
Proof. unfold labelCount. lia. Qed.

Lemma labelCount_insert (ids : list (option Z)) (i : nat) (oldL newL : option Z) (k : Z) :
  ids !! i = Some oldL ->
  labelCount (<[i := newL]> ids) k
    = labelCount ids k - (if bool_decide (oldL = Some k) then 1 else 0)
      + (if bool_decide (newL = Some k) then 1 else 0).
Proof.
  revert i. induction ids as [|l ids IH]; intros i Hi; [discriminate|].
  destruct i as [|i]; cbn in Hi.
  - injection Hi as ->. change (<[0%nat := newL]> (oldL :: ids)) with (newL :: ids).
    rewrite !labelCount_cons. lia.
  - change (<[S i := newL]> (l :: ids)) with (l :: <[i := newL]> ids).
    rewrite !labelCount_cons, (IH i Hi). lia.
Qed.

Lemma labelledCount_insert (ids : list (option Z)) (i : nat) (oldL newL : option Z) :
  ids !! i = Some oldL ->
  labelledCount labeled (<[i := newL]> ids)
    = labelledCount labeled ids - (if labeled oldL then 1 else 0)
      + (if labeled newL then 1 else 0).
Proof.
  revert i. induction ids as [|l ids IH]; intros i Hi; [discriminate|].
  destruct i as [|i]; cbn in Hi.
  - injection Hi as ->. change (<[0%nat := newL]> (oldL :: ids)) with (newL :: ids).
    rewrite !labelledCount_cons. lia.
  - change (<[S i := newL]> (l :: ids)) with (l :: <[i := newL]> ids).
    rewrite !labelledCount_cons, (IH i Hi). lia.
Qed.

Lemma labelCount_member (ids : list (option Z)) (i : nat) (k : Z) :
  ids !! i = Some (Some k) -> 1 <= labelCount ids k.
Proof.
  revert i. induction ids as [|l ids IH]; intros i Hi; [discriminate|].
  rewrite labelCount_cons. pose proof (labelCount_nonneg ids k).
  destruct i as [|i]; cbn in Hi.
  - injection Hi as ->. rewrite bool_decide_eq_true_2 by reflexivity. lia.
  - specialize (IH i Hi). case_bool_decide; lia.
Qed.

(** *** Exact statistics sum to the count *)

Lemma countsExactly_sum (ids : list (option Z)) : forall (stats : gmap Z Z) (n : Z),
  countsExactly labeled ids stats n -> statsSum stats = n.
Proof.
  induction ids as [|l ids IH]; intros stats n [Hstats ->].
  - rewrite statsSum_zero; [reflexivity|].
    intros k. rewrite Hstats. destruct (labeled (Some k)); reflexivity.
  - rewrite labelledCount_cons. destruct (labeled l) eqn:Hl.
    + destruct l as [k|]; [|congruence].
      pose proof (Hstats k) as Hk. rewrite Hl, labelCount_cons in Hk.
      rewrite bool_decide_eq_true_2 in Hk by reflexivity.
      assert (Hrest : statsSum (<[k := labelCount ids k]> stats) = labelledCount labeled ids).
      { apply IH. split; [|reflexivity]. intros j.
        destruct (decide (j = k)) as [->|Hne].
        - rewrite lookup_insert_eq, Hl. reflexivity.
        - rewrite lookup_insert_ne by congruence. rewrite Hstats, labelCount_cons.
          rewrite bool_decide_eq_false_2 by congruence. destruct (labeled (Some j)); lia. }
      rewrite statsSum_insert in Hrest. lia.
    + rewrite (IH stats (labelledCount labeled ids)); [lia|].
      split; [|reflexivity]. intros j. rewrite Hstats, labelCount_cons.
      destruct (labeled (Some j)) eqn:Hj; [|reflexivity].
      rewrite bool_decide_eq_false_2 by congruence. lia.
Qed.

(** *** One turn of the loop *)

Lemma stepStats_exact (ids : list (option Z)) (i : nat) (oldL newL : option Z)
    (stats : gmap Z Z) (delta base : Z) :
  ids !! i = Some oldL ->
  (forall k, default 0 (stats !! k) = if labeled (Some k) then labelCount ids k else 0) ->
  base + delta = labelledCount labeled ids ->
  let acc' := stepStats labeled oldL newL (stats, delta) in
  (forall k, default 0 (fst acc' !! k)
             = if labeled (Some k) then labelCount (<[i := newL]> ids) k else 0) /\
  base + snd acc' = labelledCount labeled (<[i := newL]> ids).
Proof.
  intros Hi Hstats Hcount. unfold stepStats.
  set (acc1 := countIf (labeled oldL) oldL removeOld (stats, delta)).
  assert (H1 : (forall k, default 0 (fst acc1 !! k)
                  = if labeled (Some k)
                    then labelCount ids k - (if bool_decide (oldL = Some k) then 1 else 0)
                    else 0) /\
               snd acc1 = delta - (if labeled oldL then 1 else 0)).
  { subst acc1. unfold countIf. destruct oldL as [key|].
    - destruct (labeled (Some key)) eqn:Hkey.
      + unfold removeOld. cbn [fst snd].
        pose proof (Hstats key) as Hk. rewrite Hkey in Hk.
        pose proof (labelCount_member ids i key Hi) as Hpos.
        destruct (stats !! key) as [c|] eqn:Hlook; cbn in Hk; [|lia]. subst c.
        rewrite (proj2 (Z.eqb_neq _ 0)) by lia.
        split; [|lia]. intros k. destruct (Z.leb_spec (labelCount ids key - 1) 0).
        * destruct (decide (k = key)) as [->|Hne].
          -- rewrite lookup_delete_eq, Hkey, bool_decide_eq_true_2 by reflexivity. cbn. lia.
          -- rewrite lookup_delete_ne by congruence. rewrite Hstats.
             rewrite bool_decide_eq_false_2 by congruence. destruct (labeled (Some k)); lia.
        * destruct (decide (k = key)) as [->|Hne].
          -- rewrite lookup_insert_eq, Hkey, bool_decide_eq_true_2 by reflexivity. reflexivity.
          -- rewrite lookup_insert_ne by congruence. rewrite Hstats.
             rewrite bool_decide_eq_false_2 by congruence. destruct (labeled (Some k)); lia.
      + cbn [fst snd]. split; [|lia]. intros k. rewrite Hstats.
        destruct (labeled (Some k)) eqn:Hk; [|reflexivity].
        rewrite bool_decide_eq_false_2 by congruence. lia.
    - rewrite labeled_None. cbn [fst snd]. split; [|lia]. intros k. rewrite Hstats.
      destruct (labeled (Some k)); [|reflexivity].
      rewrite bool_decide_eq_false_2 by discriminate. lia. }
  destruct acc1 as [stats1 delta1]. cbn [fst snd] in H1. destruct H1 as [Hstats1 ->].
  cbn zeta. unfold countIf. destruct newL as [key|].
  - destruct (labeled (Some key)) eqn:Hkey.
    + unfold addNew. cbn [fst snd]. split.
      * intros k. rewrite (labelCount_insert ids i oldL (Some key) k Hi).
        destruct (decide (k = key)) as [->|Hne].
        -- rewrite lookup_insert_eq, Hkey.
           rewrite (bool_decide_eq_true_2 (Some key = Some key)) by reflexivity.
           cbn. rewrite Hstats1, Hkey. lia.
        -- rewrite lookup_insert_ne by congruence. rewrite Hstats1.
           rewrite (bool_decide_eq_false_2 (Some key = Some k)) by congruence.
           destruct (labeled (Some k)); lia.
      * rewrite (labelledCount_insert ids i oldL (Some key) Hi), Hkey. lia.
    + cbn [fst snd]. split.
      * intros k. rewrite (labelCount_insert ids i oldL (Some key) k Hi), Hstats1.
        destruct (labeled (Some k)) eqn:Hk; [|reflexivity].
        rewrite (bool_decide_eq_false_2 (Some key = Some k)) by congruence. lia.
      * rewrite (labelledCount_insert ids i oldL (Some key) Hi), Hkey. lia.
  - cbn [fst snd]. split.
    + intros k. rewrite (labelCount_insert ids i oldL None k Hi), Hstats1.
      destruct (labeled (Some k)); [|reflexivity].
      rewrite (bool_decide_eq_false_2 (None = Some k)) by discriminate. lia.
    + rewrite (labelledCount_insert ids i oldL None Hi), labeled_None. lia.
Qed.

(** *** The whole loop *)

Lemma at_index_Some {A} (l : list A) (i : Z) (x : A) :
  at_index l i = Some x <-> 0 <= i /\ l !! Z.to_nat i = Some x.
Proof.
  unfold at_index. destruct (Z.ltb_spec i 0); split.
  - discriminate.
  - intros [? _]. lia.
  - intros Hx. split; [lia|exact Hx].
  - intros [_ Hx]. exact Hx.
Qed.

Lemma relabelled_lookup newL visited (ids : list (option Z)) (j : nat) :
  relabelled newL visited ids !! j
    = (fun l => if bool_decide (Z.of_nat j ∈ visited) then newL else l) <$> ids !! j.
Proof. unfold relabelled. apply list_lookup_imap. Qed.

Lemma relabelled_visit newL (visited : gset Z) (ids : list (option Z)) (i : Z) oldL :
  at_index ids i = Some oldL ->
  relabelled newL (visited ∪ {[i]}) ids = <[Z.to_nat i := newL]> (relabelled newL visited ids).
Proof.
  intros Hi. apply at_index_Some in Hi as [Hpos Hi]. apply list_eq. intros j.
  destruct (decide (j = Z.to_nat i)) as [->|Hne].
  - rewrite list_lookup_insert_eq
      by (unfold relabelled; rewrite length_imap; eapply lookup_lt_Some; exact Hi).
    rewrite relabelled_lookup, Hi. cbn.
    rewrite bool_decide_eq_true_2; [reflexivity|]. rewrite Z2Nat.id by exact Hpos.
    apply elem_of_union_r, elem_of_singleton. reflexivity.
  - rewrite list_lookup_insert_ne by congruence. rewrite !relabelled_lookup.
    destruct (ids !! j); [cbn|reflexivity]. f_equal.
    assert (Hj : Z.of_nat j <> i) by lia.
    destruct (decide (Z.of_nat j ∈ visited)) as [Hin|Hout].
    + rewrite !bool_decide_eq_true_2 by (try apply elem_of_union_l; exact Hin). reflexivity.
    + rewrite !bool_decide_eq_false_2
        by (rewrite ?not_elem_of_union, ?not_elem_of_singleton; tauto). reflexivity.
Qed.

Lemma relabelled_skip newL (visited : gset Z) (ids : list (option Z)) (i : Z) :
  at_index ids i = None ->
  relabelled newL (visited ∪ {[i]}) ids = relabelled newL visited ids.
Proof.
  intros Hi. apply list_eq. intros j. rewrite !relabelled_lookup.
  destruct (ids !! j) as [l|] eqn:Hj; [cbn|reflexivity]. f_equal.
  assert (Hne : Z.of_nat j <> i).
  { intros <-. unfold at_index in Hi. destruct (Z.ltb_spec (Z.of_nat j) 0); [lia|].
    rewrite Nat2Z.id in Hi. congruence. }
  destruct (decide (Z.of_nat j ∈ visited)) as [Hin|Hout].
  - rewrite !bool_decide_eq_true_2 by (try apply elem_of_union_l; exact Hin). reflexivity.
  - rewrite !bool_decide_eq_false_2
      by (rewrite ?not_elem_of_union, ?not_elem_of_singleton; tauto). reflexivity.
Qed.

Lemma loop_exact (oldIds : list (option Z)) (newL : option Z) (base : Z)
    (indices : list Z) : forall (visited : gset Z) (stats : gmap Z Z) (delta : Z),
  NoDup indices ->
  (forall i, i ∈ indices -> i ∉ visited) ->
  (forall k, default 0 (stats !! k)
             = if labeled (Some k) then labelCount (relabelled newL visited oldIds) k else 0) ->
  base + delta = labelledCount labeled (relabelled newL visited oldIds) ->
  let acc' := foldl (stepAt labeled oldIds newL) (stats, delta) indices in
  (forall k, default 0 (fst acc' !! k)
             = if labeled (Some k)
               then labelCount (relabelled newL (visited ∪ list_to_set indices) oldIds) k
               else 0) /\
  base + snd acc'
    = labelledCount labeled (relabelled newL (visited ∪ list_to_set indices) oldIds).
Proof.
  induction indices as [|i rest IH]; intros visited stats delta Hdup Hfresh Hstats Hcount.
  - cbn. rewrite (right_id_L ∅ (∪)). split; assumption.
  - apply NoDup_cons in Hdup as [Hi Hdup]. cbn [foldl list_to_set].
    rewrite (assoc_L (∪)).
    assert (Hfresh' : forall j, j ∈ rest -> j ∉ visited ∪ {[i]}).
    { intros j Hj. specialize (Hfresh j ltac:(right; exact Hj)).
      assert (j <> i) by (intros ->; contradiction).
      rewrite not_elem_of_union, not_elem_of_singleton. tauto. }
    unfold stepAt at 2 4. destruct (at_index oldIds i) as [oldL|] eqn:Hold.
    + assert (Hcur : relabelled newL visited oldIds !! Z.to_nat i = Some oldL).
      { apply at_index_Some in Hold as [Hpos Hold]. rewrite relabelled_lookup, Hold. cbn.
        rewrite bool_decide_eq_false_2; [reflexivity|].
        rewrite Z2Nat.id by exact Hpos. apply Hfresh. left. }
      destruct (stepStats_exact _ _ _ newL _ _ base Hcur Hstats Hcount) as [Hstats' Hcount'].
      rewrite <- (relabelled_visit newL visited oldIds i oldL Hold) in Hstats', Hcount'.
      destruct (stepStats labeled oldL newL (stats, delta)) as [stats' delta'].
      apply IH; assumption.
    + apply IH; try assumption; rewrite (relabelled_skip newL visited oldIds i Hold); assumption.
Qed.

Lemma relabelled_empty newL (ids : list (option Z)) : relabelled newL ∅ ids = ids.
Proof.
  apply list_eq. intros j. rewrite relabelled_lookup.
  destruct (ids !! j); [cbn|reflexivity].
  rewrite bool_decide_eq_false_2 by apply not_elem_of_empty. reflexivity.
Qed.

End Stats.

Section StatisticsOfAssignments.
Import Store Examples StoreFacts.

Lemma pointLabeled_None : pointLabeled None = false.
Proof. reflexivity. Qed.

Lemma faceLabeled_None : faceLabeled None = false.
Proof. reflexivity. Qed.

Lemma relabelAt_lookup {A} (relabel : A -> A) (indexSet : gset Z) (l : list A) (j : nat) :
  relabelAt relabel indexSet l !! j
    = (fun x => if bool_decide (Z.of_nat j ∈ indexSet) then relabel x else x) <$> l !! j.
Proof. unfold relabelAt. apply list_lookup_imap. Qed.

Lemma relabelAt_point_labels newL (indexSet : gset Z) (pts : list Point) :
  map point_labelId (relabelAt (setPointLabel newL) indexSet pts)
    = relabelled newL indexSet (map point_labelId pts).
Proof.
  apply list_eq. intros j.
  rewrite list_lookup_fmap, relabelAt_lookup, relabelled_lookup, list_lookup_fmap.
  destruct (pts !! j); [cbn|reflexivity]. case_bool_decide; reflexivity.
Qed.

Lemma relabelAt_face_labels newL (indexSet : gset Z) (fs : list Face) :
  map face_labelId (relabelAt (setFaceLabel newL) indexSet fs)
    = relabelled newL indexSet (map face_labelId fs).
Proof.
  apply list_eq. intros j.
  rewrite list_lookup_fmap, relabelAt_lookup, relabelled_lookup, list_lookup_fmap.
  destruct (fs !! j); [cbn|reflexivity]. case_bool_decide; reflexivity.
Qed.

Lemma at_index_fmap {A B} (f : A -> B) (l : list A) (i : Z) :
  at_index (map f l) i = f <$> at_index l i.
Proof. unfold at_index. destruct (i <? 0); [reflexivity|]. apply list_lookup_fmap. Qed.

Lemma at_index_relabelAt {A} (relabel : A -> A) (indexSet : gset Z) (l : list A) (i : Z) :
  at_index (relabelAt relabel indexSet l) i
    = (fun x => if bool_decide (i ∈ indexSet) then relabel x else x) <$> at_index l i.
Proof.
  unfold at_index. destruct (Z.ltb_spec i 0); [reflexivity|].
  rewrite relabelAt_lookup, Z2Nat.id by lia. reflexivity.
Qed.

Lemma at_index_in_range {A} (l : list A) (i : Z) :
  0 <= i < Z.of_nat (length l) -> exists x, at_index l i = Some x.
Proof.
  intros Hi. unfold at_index. destruct (Z.ltb_spec i 0); [lia|].
  apply lookup_lt_is_Some. lia.
Qed.

Lemma forEachC_applyLabelsStep (old : list Point) (indexSet : gset Z) newL (idxs : list Z) :
  forall acc,
  Forall (fun i => 0 <= i < Z.of_nat (length old) /\ i ∈ indexSet) idxs ->
  forEachC (applyLabelsStep old (relabelAt (setPointLabel newL) indexSet old)) idxs acc
    = Return (foldl (stepAt pointLabeled (map point_labelId old) newL) acc idxs).
Proof.
  induction idxs as [|i rest IH]; intros acc Hall; [reflexivity|].
  inversion Hall as [|? ? [Hrange Hin] Hrest]; subst. cbn [forEachC foldl].
  assert (Hstep : applyLabelsStep old (relabelAt (setPointLabel newL) indexSet old) acc i
                  = Return (stepAt pointLabeled (map point_labelId old) newL acc i)).
  { unfold applyLabelsStep, stepAt. rewrite at_index_relabelAt, at_index_fmap.
    destruct (at_index_in_range old i Hrange) as [oldPoint ->]. cbn.
    rewrite bool_decide_eq_true_2 by exact Hin. reflexivity. }
  rewrite Hstep. cbn. apply IH, Hrest.
Qed.

Lemma foldl_applyFaceLabelsStep (old : list Face) (indexSet : gset Z) newL (idxs : list Z) :
  forall acc,
  Forall (fun i => i ∈ indexSet) idxs ->
  foldl (applyFaceLabelsStep old (relabelAt (setFaceLabel newL) indexSet old)) acc idxs
    = foldl (stepAt faceLabeled (map face_labelId old) newL) acc idxs.
Proof.
  induction idxs as [|i rest IH]; intros acc Hall; [reflexivity|].
  inversion Hall as [|? ? Hin Hrest]; subst. cbn [foldl].
  rewrite <- (IH _ Hrest). f_equal.
  unfold applyFaceLabelsStep, stepAt. rewrite at_index_relabelAt, at_index_fmap.
  destruct (at_index old i) as [oldFace|]; [cbn|reflexivity].
  rewrite bool_decide_eq_true_2 by exact Hin. reflexivity.
Qed.

(** X6: when the point statistics of a document are exact (every entry of
    [labelStats] is the number of points carrying that label, [labeledCount]
    the number of labelled points, the two counts adding up to the number of
    points), APPLY_LABELS on distinct indices of existing points returns and
    leaves them exact; the entries of [labelStats] then sum to
    [labeledCount]. *)
Theorem apply_labels_keeps_point_statistics (state : State) (pointIndices : list Z)
    (labelId : option Z) (li : LabelInfo) :
  labelInfo state = Some li ->
  pointStatsExact state li ->
  NoDup pointIndices ->
  Forall (fun i => 0 <= i < Z.of_nat (length (points state))) pointIndices ->
  exists s' li',
    annotationReducer state (APPLY_LABELS pointIndices labelId) = Return s' /\
    labelInfo s' = Some li' /\
    pointStatsExact s' li' /\
    statsSum (labelStats li') = labeledCount li'.
Proof.
  intros Hli [[Hstats Hcount] Htotal] Hdup Hrange. cbn. unfold applyLabels.
  rewrite forEachC_applyLabelsStep.
  2:{ apply Forall_forall. intros i Hi. rewrite Forall_forall in Hrange.
      split; [apply Hrange, Hi|]. apply elem_of_list_to_set, Hi. }
  cbn. rewrite Hli. cbn.
  pose proof (loop_exact pointLabeled pointLabeled_None (map point_labelId (points state))
                labelId (labeledCount li) pointIndices ∅ (labelStats li) 0 Hdup) as Hloop.
  rewrite relabelled_empty, (left_id_L ∅ (∪)) in Hloop.
  specialize (Hloop ltac:(intros; apply not_elem_of_empty) Hstats ltac:(lia)).
  cbn zeta in Hloop.
  destruct (foldl _ _ pointIndices) as [stats' delta'] eqn:Hfold. cbn [fst snd] in Hloop.
  destruct Hloop as [Hstats' Hcount']. eexists _, _. split; [reflexivity|].
  cbn. split; [reflexivity|].
  assert (Hexact : countsExactly pointLabeled
                     (map point_labelId
                        (relabelAt (setPointLabel labelId) (list_to_set pointIndices)
                           (points state)))
                     stats' (labeledCount li + delta')).
  { rewrite relabelAt_point_labels. split; assumption. }
  split; [split|].
  - exact Hexact.
  - cbn. unfold relabelAt. rewrite length_imap. lia.
  - apply (countsExactly_sum pointLabeled pointLabeled_None _ _ _ Hexact).
Qed.

(** X7: in a document with a mesh whose face statistics are exact,
    APPLY_LABEL_TO_FACES on distinct indices (existing or not) leaves them
    exact; the entries of [faceLabelStats] then sum to [faceLabeledCount]. *)
Theorem apply_label_to_faces_keeps_face_statistics (state : State) (faceIndices : list Z)
    (labelId : option Z) (li : LabelInfo) :
  hasMesh state = true ->
  labelInfo state = Some li ->
  faceStatsExact state li ->
  NoDup faceIndices ->
  exists s' li',
    annotationReducer state (APPLY_LABEL_TO_FACES faceIndices labelId) = Return s' /\
    labelInfo s' = Some li' /\
    faceStatsExact s' li' /\
    statsSum (faceLabelStats li') = faceLabeledCount li'.
Proof.
  intros Hmesh Hli [[Hstats Hcount] Htotal] Hdup. cbn. unfold applyLabelToFaces.
  rewrite Hmesh, Hli. cbn.
  rewrite foldl_applyFaceLabelsStep
    by (apply Forall_forall; intros i Hi; apply elem_of_list_to_set, Hi).
  pose proof (loop_exact faceLabeled faceLabeled_None (map face_labelId (faces state))
                labelId (faceLabeledCount li) faceIndices ∅ (faceLabelStats li) 0 Hdup) as Hloop.
  rewrite relabelled_empty, (left_id_L ∅ (∪)) in Hloop.
  specialize (Hloop ltac:(intros; apply not_elem_of_empty) Hstats ltac:(lia)).
  cbn zeta in Hloop.
  destruct (foldl _ _ faceIndices) as [stats' delta'] eqn:Hfold. cbn [fst snd] in Hloop.
  destruct Hloop as [Hstats' Hcount']. eexists _, _. split; [reflexivity|].
  cbn. split; [reflexivity|].
  assert (Hexact : countsExactly faceLabeled
                     (map face_labelId
                        (relabelAt (setFaceLabel labelId) (list_to_set faceIndices)
                           (faces state)))
                     stats' (faceLabeledCount li + delta')).
  { rewrite relabelAt_face_labels. split; assumption. }
  split; [split|].
  - exact Hexact.
  - cbn. unfold relabelAt. rewrite length_imap. lia.
  - apply (countsExactly_sum faceLabeled faceLabeled_None _ _ _ Hexact).
Qed.

End StatisticsOfAssignments.

(** ** The label dialog and the default colours *)

Section LabelManagerProperties.
Import Store Examples StoreFacts Colors LabelManager.

Lemma labelledState_exact :
  forall li, labelInfo labelledState = Some li ->
  pointStatsExact labelledState li /\ faceStatsExact labelledState li.
Proof.
  intros li [= <-]. split; (split; [split|reflexivity]; [|reflexivity]); intros k; cbn.
  - destruct (decide (k = 1)) as [->|Hne]; [reflexivity|].
    rewrite lookup_singleton_ne by congruence. cbn.
    unfold labelCount. rewrite filter_cons_False by congruence.
    rewrite filter_cons_False by discriminate.
    match goal with |- context [if ?b then _ else _] => destruct b end; reflexivity.
  - destruct (decide (k = 3)) as [->|Hne]; [reflexivity|].
    rewrite lookup_singleton_ne by congruence. cbn.
    unfold labelCount. rewrite filter_cons_False by congruence.
    rewrite filter_cons_False by discriminate.
    match goal with |- context [if ?b then _ else _] => destruct b end; reflexivity.
Qed.

Lemma apply_labels_keeps_point_statistics_witness :
  exists s' li',
    annotationReducer labelledState (APPLY_LABELS [1; 0] (Some 2)) = Return s' /\
    labelInfo s' = Some li' /\
    pointStatsExact s' li' /\
    statsSum (labelStats li') = labeledCount li'.
Proof.
  apply (apply_labels_keeps_point_statistics labelledState [1; 0] (Some 2)
           (mkLabelInfo {[1 := 1]} {[3 := 1]} 1 1 1 1)).
  - reflexivity.
  - apply labelledState_exact. reflexivity.
  - repeat constructor; rewrite ?elem_of_cons, ?elem_of_nil; intuition discriminate.
  - repeat constructor; cbn; lia.
Defined.

Lemma apply_label_to_faces_keeps_face_statistics_witness :
  exists s' li',
    annotationReducer labelledState (APPLY_LABEL_TO_FACES [0; 1; 7] (Some (-1))) = Return s' /\
    labelInfo s' = Some li' /\
    faceStatsExact s' li' /\
    statsSum (faceLabelStats li') = faceLabeledCount li'.
Proof.
  apply (apply_label_to_faces_keeps_face_statistics labelledState [0; 1; 7] (Some (-1))
           (mkLabelInfo {[1 := 1]} {[3 := 1]} 1 1 1 1)).
  - reflexivity.
  - reflexivity.
  - apply labelledState_exact. reflexivity.
  - repeat constructor; rewrite ?elem_of_cons, ?elem_of_nil; intuition discriminate.
Defined.

(** *** New labels *)

Lemma foldl_max_ge (ids : list Z) : forall id,
  id <= foldl Z.max id ids /\ Forall (fun j => j <= foldl Z.max id ids) ids.
Proof.
  induction ids as [|j ids IH]; intros id; cbn; [split; [lia|constructor]|].
  destruct (IH (Z.max id j)) as [Hmax Hall]. split; [lia|]. constructor; [lia|exact Hall].
Qed.

Lemma toDouble_exact (z : Z) : Z.abs z <= 2 ^ 53 -> toDouble z = z.
Proof. intros Hz. unfold toDouble. destruct (Z.leb_spec (Z.abs z) (2 ^ 53)); [reflexivity|lia]. Qed.

(** The rounding agrees with the sums and differences of the kernel's
    doubles around 2^53, where integers stop being doubles. *)
Lemma toDouble_rounds_as_doubles :
  Forall (fun z => PlyParser.floatToZ (PlyParser.zToFloat z + 1)%float = Some (toDouble (z + 1)) /\
                   PlyParser.floatToZ (PlyParser.zToFloat z - 1)%float = Some (toDouble (z - 1)))
    [5; 2 ^ 53 - 1; 2 ^ 53; 2 ^ 53 + 2; 2 ^ 53 + 4; 2 ^ 54; 2 ^ 54 + 4; 2 ^ 60;
     - 2 ^ 53; - 2 ^ 53 - 2].
Proof. repeat constructor. Qed.

Lemma foldl_max_elem (ids : list Z) : forall id,
  foldl Z.max id ids = id \/ foldl Z.max id ids ∈ ids.
Proof.
  induction ids as [|j ids IH]; intros id; cbn; [left; reflexivity|].
  destruct (IH (Z.max id j)) as [Heq|Hin]; [|right; right; exact Hin].
  rewrite Heq. destruct (Z.max_spec id j) as [[_ ->]|[_ ->]];
    [right; left|left; reflexivity].
Qed.

(** With ids that are safe integers the sum is exact. *)
Lemma nextId_safe (l : Label) (labels : list Label) :
  Forall (fun l => Z.abs (label_id l) < 2 ^ 53) (l :: labels) ->
  nextId (l :: labels) = foldl Z.max (label_id l) (map label_id labels) + 1.
Proof.
  intros Hsafe. unfold nextId. cbn [map]. apply toDouble_exact.
  assert (Hmax : Z.abs (foldl Z.max (label_id l) (map label_id labels)) < 2 ^ 53).
  { rewrite Forall_forall in Hsafe.
    destruct (foldl_max_elem (map label_id labels) (label_id l)) as [->|Hin].
    - apply Hsafe. left.
    - apply list_elem_of_fmap in Hin as (l' & -> & Hl'). apply Hsafe. right. exact Hl'. }
  lia.
Qed.

(** X8: when the ids in use are safe integers (of magnitude below 2^53),
    the id the dialog proposes for a new label is above every id in use, so
    it is the id of no label: 1 when there is no label, and otherwise one
    more than some id in use. *)
Theorem new_label_id_is_fresh (labels : list Label) :
  Forall (fun l => Z.abs (label_id l) < 2 ^ 53) labels ->
  Forall (fun l => label_id l < nextId labels) labels /\
  (nextId labels ∉ map label_id labels) /\
  (labels = [] -> nextId labels = 1) /\
  (labels <> [] -> nextId labels - 1 ∈ map label_id labels).
Proof.
  intros Hsafe.
  assert (Habove : Forall (fun l => label_id l < nextId labels) labels).
  { destruct labels as [|l rest]; [constructor|]. rewrite (nextId_safe l rest Hsafe).
    destruct (foldl_max_ge (map label_id rest) (label_id l)) as [Hfirst Hrest].
    constructor; [lia|]. apply Forall_forall. intros l' Hl'. rewrite Forall_forall in Hrest.
    assert (Hle : label_id l' <= foldl Z.max (label_id l) (map label_id rest)).
    { apply Hrest, list_elem_of_fmap. exists l'. split; [reflexivity|exact Hl']. }
    lia. }
  split; [exact Habove|]. split; [|split].
  - intros Hin. apply list_elem_of_fmap in Hin as (l & Heq & Hl).
    rewrite Forall_forall in Habove. specialize (Habove l Hl). lia.
  - intros ->. reflexivity.
  - intros Hne. destruct labels as [|l0 rest]; [congruence|].
    rewrite (nextId_safe l0 rest Hsafe). cbn [map].
    replace (foldl Z.max (label_id l0) (map label_id rest) + 1 - 1)
      with (foldl Z.max (label_id l0) (map label_id rest)) by lia.
    destruct (foldl_max_elem (map label_id rest) (label_id l0)) as [->|Hin];
      [left|right; exact Hin].
Qed.

Lemma new_label_id_is_fresh_witness :
  nextId [mkLabel 2 "wall" None None None None; mkLabel 7 "roof" None None None None;
          mkLabel 4 "door" None None None None] = 8 /\
  8 ∉ [2; 7; 4].
Proof.
  destruct (new_label_id_is_fresh
              [mkLabel 2 "wall" None None None None; mkLabel 7 "roof" None None None None;
               mkLabel 4 "door" None None None None]) as (_ & Hfresh & _).
  - repeat constructor; cbn; lia.
  - split; [reflexivity|exact Hfresh].
Defined.

(** Beyond the safe integers the proposal need not be new: next to the id
    2^53 the dialog proposes 2^53 again. *)
Lemma nextId_beyond_safe_integers :
  nextId [mkLabel (2 ^ 53) "far" None None None None] = 2 ^ 53.
Proof. reflexivity. Qed.

(** X9: [handleOk] dispatches nothing for an id that is taken; for a free
    id it dispatches the ADD_LABEL that appends the label, visible, and
    labels with distinct ids keep distinct ids. *)
Theorem handle_ok_add_keeps_ids_distinct (state : State) (id : Z) (name : string)
    (color : option JsColor) :
  (id ∈ map label_id (labels state) ->
     handleOkAdd (labels state) id name color = None) /\
  (id ∉ map label_id (labels state) ->
     exists s',
       handleOkAdd (labels state) id name color
         = Some (ADD_LABEL (mkLabel id name color (Some true) None None)) /\
       annotationReducer state (ADD_LABEL (mkLabel id name color (Some true) None None))
         = Return s' /\
       labels s' = labels state ++ [mkLabel id name color (Some true) None None] /\
       (NoDup (map label_id (labels state)) -> NoDup (map label_id (labels s')))).
Proof.
  unfold handleOkAdd. split.
  - intros Hin. apply list_elem_of_fmap in Hin as (l & -> & Hl).
    rewrite (proj2 (existsb_exists _ _)); [reflexivity|].
    exists l. split; [apply list_elem_of_In; exact Hl|apply Z.eqb_refl].
  - intros Hout.
    assert (Hfree : existsb (fun l => label_id l =? id) (labels state) = false).
    { apply not_true_is_false. intros Htaken. apply existsb_exists in Htaken as (l & Hl & Heq).
      apply Z.eqb_eq in Heq. apply Hout, list_elem_of_fmap. exists l.
      split; [congruence|apply list_elem_of_In; exact Hl]. }
    rewrite Hfree. eexists. split; [reflexivity|]. split; [reflexivity|]. cbn.
    split; [reflexivity|]. intros Hdup. rewrite map_app. cbn.
    apply NoDup_app. split; [exact Hdup|]. split; [|apply NoDup_singleton].
    intros j Hj Hnew. apply list_elem_of_singleton in Hnew. subst j. contradiction.
Qed.

End LabelManagerProperties.

Section PaletteProperties.
Import Store Examples Colors.

Lemma palette_NoDup : NoDup DEFAULT_LABEL_COLORS.
Proof.
  unfold DEFAULT_LABEL_COLORS.
  repeat (apply NoDup_cons; split;
          [rewrite ?elem_of_cons, elem_of_nil; intuition discriminate|]).
  apply NoDup_nil_2.
Qed.

Lemma palette_lookup (k : Z) :
  0 <= k < 20 -> exists c, at_index DEFAULT_LABEL_COLORS k = Some c.
Proof.
  intros Hk. unfold at_index. destruct (Z.ltb_spec k 0); [lia|].
  apply lookup_lt_is_Some. cbn. lia.
Qed.

(** X10: the colour of a positive label id up to 2^53 is the palette
    entry at the id minus one, as [getDefaultColorByIndex] reads it; two
    such ids have the same colour exactly when they differ by a multiple of
    20, so the colours repeat with period 20. *)
Theorem default_color_cycles (labelId : Z) :
  1 <= labelId <= 2 ^ 53 ->
  getDefaultColorByIndex (labelId - 1) = Some (getDefaultColorForLabel labelId) /\
  getDefaultColorForLabel labelId ∈ DEFAULT_LABEL_COLORS /\
  (forall other, 1 <= other <= 2 ^ 53 ->
     getDefaultColorForLabel other = getDefaultColorForLabel labelId <->
     (other - labelId) mod 20 = 0) /\
  (labelId + 20 <= 2 ^ 53 ->
   getDefaultColorForLabel (labelId + 20) = getDefaultColorForLabel labelId).
Proof.
  intros Hpos.
  assert (Hcolor : forall id, 1 <= id <= 2 ^ 53 ->
            at_index DEFAULT_LABEL_COLORS ((id - 1) mod 20)
              = Some (getDefaultColorForLabel id)).
  { intros id Hid. unfold getDefaultColorForLabel.
    destruct (Z.leb_spec id 0); [lia|].
    rewrite toDouble_exact by lia.
    change (Z.of_nat (length DEFAULT_LABEL_COLORS)) with 20.
    destruct (palette_lookup ((id - 1) mod 20)) as [c ->]; [|reflexivity].
    apply Z.mod_pos_bound. lia. }
  assert (Hsame : forall other, 1 <= other <= 2 ^ 53 ->
            getDefaultColorForLabel other = getDefaultColorForLabel labelId <->
            (other - labelId) mod 20 = 0).
  { intros other Hother.
    pose proof (Hcolor labelId Hpos) as Hmine. pose proof (Hcolor other Hother) as Htheirs.
    pose proof (Z.mod_pos_bound (labelId - 1) 20 ltac:(lia)) as Hb1.
    pose proof (Z.mod_pos_bound (other - 1) 20 ltac:(lia)) as Hb2.
    unfold at_index in Hmine, Htheirs.
    destruct (Z.ltb_spec ((labelId - 1) mod 20) 0); [lia|].
    destruct (Z.ltb_spec ((other - 1) mod 20) 0); [lia|].
    split.
    + intros Heq. rewrite Heq in Htheirs.
      pose proof (NoDup_lookup _ _ _ _ palette_NoDup Htheirs Hmine) as Hidx.
      apply Z2Nat.inj in Hidx; [|lia|lia].
      replace (other - labelId) with ((other - 1) - (labelId - 1)) by lia.
      rewrite Zminus_mod, Hidx, Z.sub_diag. reflexivity.
    + intros Hmod.
      assert (Hidx : (other - 1) mod 20 = (labelId - 1) mod 20).
      { replace (other - 1) with ((labelId - 1) + (other - labelId)) by lia.
        rewrite Zplus_mod, Hmod, Z.add_0_r, Z.mod_mod by lia. reflexivity. }
      rewrite Hidx in Htheirs. congruence. }
  split; [|split; [|split]].
  - unfold getDefaultColorByIndex. change (Z.of_nat (length DEFAULT_LABEL_COLORS)) with 20.
    rewrite Z.rem_mod_nonneg by lia. apply Hcolor, Hpos.
  - specialize (Hcolor labelId Hpos). unfold at_index in Hcolor.
    destruct (_ <? 0); [discriminate|]. eapply list_elem_of_lookup_2, Hcolor.
  - exact Hsame.
  - intros Hbound. apply Hsame; [lia|].
    replace (labelId + 20 - labelId) with (1 * 20) by lia. apply Z.mod_mul. lia.
Qed.

Lemma default_color_cycles_witness :
  getDefaultColorByIndex (23 - 1) = Some (getDefaultColorForLabel 23) /\
  getDefaultColorForLabel 23 = getDefaultColorForLabel 3.
Proof.
  destruct (default_color_cycles 23 ltac:(lia)) as (Hindex & _ & Hsame & _).
  split; [exact Hindex|]. symmetry. apply Hsame; [lia|reflexivity].
Defined.

(** Beyond 2^53 the difference is rounded: the id 2^53 + 2 reads the palette
    entry of the id 21 below it. *)
Lemma default_color_beyond_safe_integers :
  getDefaultColorForLabel (2 ^ 53 + 2) = getDefaultColorForLabel (2 ^ 53 + 2 - 21).
Proof. reflexivity. Qed.

End PaletteProperties.

Section ColorRange.
Import Color.

(** X11: the result of [normalizeColorValue] is never below 0 and never
    above 1 (a NaN stays a NaN), and normalising it again changes nothing. *)
Theorem normalizeColorValue_idempotent (value : float) :
  PrimFloat.ltb (normalizeColorValue value) 0 = false /\
  PrimFloat.ltb 1 (normalizeColorValue value) = false /\
  normalizeColorValue (normalizeColorValue value) = normalizeColorValue value.
Proof.
  assert (Hfix : forall r, PrimFloat.ltb r 0 = false -> PrimFloat.ltb 1 r = false ->
                           normalizeColorValue r = r).
  { intros r Hlow Hhigh. unfold normalizeColorValue. rewrite Hhigh. cbn zeta.
    rewrite Hlow, Hhigh. reflexivity. }
  assert (Hrange : PrimFloat.ltb (normalizeColorValue value) 0 = false /\
                   PrimFloat.ltb 1 (normalizeColorValue value) = false).
  { unfold normalizeColorValue.
    set (normalized := if PrimFloat.ltb 1 value then PrimFloat.mul value inv255 else value).
    destruct (PrimFloat.ltb normalized 0) eqn:Hlow; [split; reflexivity|].
    destruct (PrimFloat.ltb 1 normalized) eqn:Hhigh; [split; reflexivity|].
    split; assumption. }
  destruct Hrange as [Hlow Hhigh]. split; [exact Hlow|]. split; [exact Hhigh|].
  apply Hfix; assumption.
Qed.

End ColorRange.

(** ** The faces a point selection selects *)

Section SelectedFaces.
Import Selection Examples.

Lemma forEachFace_elem vis sel mode (faces : list Face) : forall start acc i,
  i ∈ forEachFace vis sel mode start faces acc <->
  i ∈ acc \/ exists (k : nat) face, faces !! k = Some face /\ i = start + Z.of_nat k /\
                                     selects vis sel mode face = true.
Proof.
  induction faces as [|face rest IH]; intros start acc i; cbn [forEachFace].
  - split; [auto|]. intros [Hacc|(k & f & Hk & _)]; [exact Hacc|discriminate].
  - rewrite IH. split.
    + intros [Hacc|(k & f & Hk & -> & Hsel)].
      * destruct (selects vis sel mode face) eqn:Hface; [|left; exact Hacc].
        apply elem_of_union in Hacc as [Hnew|Hacc]; [|left; exact Hacc].
        apply elem_of_singleton in Hnew. right. exists 0%nat, face.
        split; [reflexivity|]. split; [lia|exact Hface].
      * right. exists (S k), f. split; [exact Hk|]. split; [lia|exact Hsel].
    + intros [Hacc|(k & f & Hk & -> & Hsel)].
      * left. destruct (selects vis sel mode face); [apply elem_of_union_r|]; exact Hacc.
      * destruct k as [|k]; cbn in Hk.
        -- injection Hk as ->. left. rewrite Hsel. apply elem_of_union_l, elem_of_singleton.
           lia.
        -- right. exists k, f. split; [exact Hk|]. split; [lia|exact Hsel].
Qed.

Lemma selects_true vis (sel : gset Z) mode face :
  selects vis sel mode face = true <->
  hidden vis face = false /\
  match mode with
  | TOUCHING => exists idx, idx ∈ indices face /\ idx ∈ sel
  | ENCLOSED => forall idx, idx ∈ indices face -> idx ∈ sel
  | OtherMode _ => False
  end.
Proof.
  unfold selects.
  destruct (hidden vis face); [split; [discriminate|intros [? _]; discriminate]|].
  destruct mode.
  - rewrite existsb_exists. split.
    + intros (idx & Hin & Hsel). apply bool_decide_eq_true in Hsel.
      split; [reflexivity|]. exists idx. split; [apply list_elem_of_In; exact Hin|exact Hsel].
    + intros [_ (idx & Hin & Hsel)]. exists idx.
      split; [apply list_elem_of_In; exact Hin|apply bool_decide_eq_true; exact Hsel].
  - rewrite forallb_forall. split.
    + intros Hall. split; [reflexivity|]. intros idx Hin.
      apply list_elem_of_In, Hall in Hin. apply bool_decide_eq_true in Hin. exact Hin.
    + intros [_ Hall] idx Hin. apply bool_decide_eq_true, Hall, list_elem_of_In, Hin.
  - split; [discriminate|intros [_ []]].
Qed.

Lemma calculateSelectedFaces_elem (fs : list Face) (labels : list Label)
    (sp : PointCollection) (mode : MeshSelectionMode) (i : Z) :
  i ∈ calculateSelectedFaces (Some fs) labels (Some sp) mode <->
  size_of sp <> Some 0%nat /\
  exists face, at_index fs i = Some face /\
               selects (labelVisibilityMap labels) (toSet sp) mode face = true.
Proof.
  unfold calculateSelectedFaces.
  destruct (bool_decide (length fs = 0%nat)) eqn:Hlen; cbn [orb].
  - apply bool_decide_eq_true in Hlen. destruct fs; [|discriminate]. split.
    + intros Hin. exfalso. exact (not_elem_of_empty (C := gset Z) _ Hin).
    + intros (_ & face & Hface & _). unfold at_index in Hface.
      destruct (i <? 0); discriminate.
  - destruct (bool_decide (size_of sp = Some 0%nat)) eqn:Hsize.
    + apply bool_decide_eq_true in Hsize. split.
      * intros Hin. exfalso. exact (not_elem_of_empty (C := gset Z) _ Hin).
      * intros [Hne _]. contradiction.
    + apply bool_decide_eq_false in Hsize. rewrite forEachFace_elem. split.
      * intros [Hin|(k & face & Hk & -> & Hsel)];
          [exfalso; exact (not_elem_of_empty (C := gset Z) _ Hin)|].
        split; [exact Hsize|]. exists face. split; [|exact Hsel].
        unfold at_index. destruct (Z.ltb_spec (0 + Z.of_nat k) 0); [lia|].
        replace (Z.to_nat (0 + Z.of_nat k)) with k by lia. exact Hk.
      * intros (_ & face & Hface & Hsel). right.
        unfold at_index in Hface. destruct (Z.ltb_spec i 0); [discriminate|].
        exists (Z.to_nat i), face. split; [exact Hface|]. split; [lia|exact Hsel].
Qed.

(** X12: a face index is selected exactly when the selection passes the
    size guard (its [size] is not 0, which holds of a [Set] that is not
    empty and of every array, the empty one included, an array having no
    [size]), the index names a face whose label is not hidden, and the face
    has a selected vertex (touching mode) or only selected vertices
    (enclosed mode, which holds of a face without vertices); any other mode
    selects nothing. *)
Theorem selected_face_characterisation (fs : list Face) (labels : list Label)
    (sp : PointCollection) (mode : MeshSelectionMode) (i : Z) :
  i ∈ calculateSelectedFaces (Some fs) labels (Some sp) mode <->
  size_of sp <> Some 0%nat /\
  exists face, at_index fs i = Some face /\
    hidden (labelVisibilityMap labels) face = false /\
    match mode with
    | TOUCHING => exists idx, idx ∈ indices face /\ idx ∈ toSet sp
    | ENCLOSED => forall idx, idx ∈ indices face -> idx ∈ toSet sp
    | OtherMode _ => False
    end.
Proof.
  rewrite calculateSelectedFaces_elem. split.
  - intros (Hsize & face & Hface & Hsel). split; [exact Hsize|]. exists face.
    split; [exact Hface|]. apply selects_true, Hsel.
  - intros (Hsize & face & Hface & Hsel). split; [exact Hsize|]. exists face.
    split; [exact Hface|]. apply selects_true, Hsel.
Qed.

(** X13: selecting more points never deselects a face, in either mode. *)
Theorem more_points_select_more_faces (fs : list Face) (labels : list Label)
    (selected more : list Z) (mode : MeshSelectionMode) :
  selected ⊆ more ->
  calculateSelectedFaces (Some fs) labels (Some (PointArray selected)) mode ⊆
  calculateSelectedFaces (Some fs) labels (Some (PointArray more)) mode.
Proof.
  intros Hsub i. rewrite !calculateSelectedFaces_elem.
  intros (_ & face & Hface & Hsel). split; [discriminate|].
  exists face. split; [exact Hface|]. apply selects_true in Hsel as [Hvisible Hmode].
  apply selects_true. split; [exact Hvisible|]. cbn [toSet] in *.
  destruct mode.
  - destruct Hmode as (idx & Hidx & Hsel). exists idx. split; [exact Hidx|].
    apply elem_of_list_to_set in Hsel. apply elem_of_list_to_set, Hsub, Hsel.
  - intros idx Hidx. specialize (Hmode idx Hidx).
    apply elem_of_list_to_set in Hmode. apply elem_of_list_to_set, Hsub, Hmode.
  - exact Hmode.
Qed.

Lemma more_points_select_more_faces_witness :
  calculateSelectedFaces (Some [aFace [0; 1; 2]; aFace [1; 2; 3]]) []
    (Some (PointArray [0; 1; 2])) ENCLOSED ⊆
  calculateSelectedFaces (Some [aFace [0; 1; 2]; aFace [1; 2; 3]]) []
    (Some (PointArray [3; 2; 1; 0])) ENCLOSED.
Proof.
  apply more_points_select_more_faces.
  intros x Hx. rewrite !elem_of_cons in *. tauto.
Defined.

End SelectedFaces.

(** ** The decoder's normalisation and its interaction mapping *)

Section MappingProperties.
Import Store Three GlbExporter GlbParser Examples ExportFacts DecodeFacts SceneFacts.

Lemma standardize_node (node : NodeData) :
  standardized node (standardizeUserDataStructure node) /\
  standardizeUserDataStructure (standardizeUserDataStructure node)
    = standardizeUserDataStructure node.
Proof.
  destruct node as [u m name g mw ud]. unfold standardized, standardizeUserDataStructure. cbn.
  destruct m; cbn; [|repeat split].
  destruct (hasAnyCustom (top ud)) eqn:Hany; cbn; rewrite ?Hany; repeat split.
Qed.

(** X14: the normalisation of the decoder keeps the number and the order
    of the nodes of a traversal and, node for node, the uuid, the kind, the
    name, the geometry and the transform; on a mesh with custom keys at the
    top level it moves them below [extras] and leaves none at the top, every
    other node it leaves as it is, and normalising twice is normalising
    once. *)
Theorem standardizeScene_settles (o : Object3D) :
  Forall2 standardized (traverse o) (traverse (standardizeScene o)) /\
  standardizeScene (standardizeScene o) = standardizeScene o.
Proof.
  split.
  - rewrite traverse_standardizeScene. induction (traverse o) as [|n rest IH]; constructor;
      [apply standardize_node|exact IH].
  - induction o as [node children IH] using Object3D_tree_ind. cbn.
    rewrite (proj2 (standardize_node node)). f_equal.
    rewrite map_map. induction IH as [|c cs Hc _ IHcs]; [reflexivity|].
    cbn. rewrite Hc, IHcs. reflexivity.
Qed.

(** *** The face-to-mesh table *)

Lemma faceToMeshEntries_lookup (u : Uuid) (faceOffset faceCount : Z)
    (m : gmap Z (Uuid * Z)) (i : Z) :
  faceToMeshEntries u faceOffset faceCount m !! i
    = if bool_decide (faceOffset <= i < faceOffset + faceCount)
      then Some (u, i - faceOffset) else m !! i.
Proof.
  unfold faceToMeshEntries, upto.
  assert (Hgen : forall (n : nat) (m : gmap Z (Uuid * Z)),
             foldl (fun m k => <[faceOffset + k := (u, k)]> m) m (map Z.of_nat (seq 0 n)) !! i
             = if bool_decide (faceOffset <= i < faceOffset + Z.of_nat n)
               then Some (u, i - faceOffset) else m !! i).
  { clear m. induction n as [|n IH]; intros m.
    - cbn. rewrite bool_decide_eq_false_2 by lia. reflexivity.
    - rewrite seq_S, map_app, foldl_app. cbn [map foldl].
      destruct (decide (i = faceOffset + Z.of_nat n)) as [->|Hne].
      + rewrite lookup_insert_eq, bool_decide_eq_true_2 by lia. do 2 f_equal. lia.
      + rewrite lookup_insert_ne by lia. rewrite IH.
        destruct (decide (faceOffset <= i < faceOffset + Z.of_nat n)).
        * rewrite !bool_decide_eq_true_2 by lia. reflexivity.
        * rewrite !bool_decide_eq_false_2 by lia. reflexivity. }
  rewrite Hgen. destruct (Z.le_gt_cases 0 faceCount).
  - rewrite Z2Nat.id by lia. reflexivity.
  - replace (Z.to_nat faceCount) with 0%nat by lia.
    rewrite !bool_decide_eq_false_2 by lia. reflexivity.
Qed.

Lemma mapping_pass_table store (nodes : list NodeData) :
  forall faceRanges pointRanges f2m fo vo faceRanges' pointRanges' f2m' fo' vo',
  forEachC (mapMesh store) nodes (faceRanges, pointRanges, f2m, fo, vo)
    = Return (faceRanges', pointRanges', f2m', fo', vo') ->
  NoDup (map uuid (meshesOf nodes)) ->
  (forall n, n ∈ meshesOf nodes -> faceRanges !! uuid n = None) ->
  (forall u r, faceRanges !! u = Some r -> range_end r <= fo) ->
  tableAgrees faceRanges f2m ->
  (forall u r, faceRanges' !! u = Some r -> range_end r <= fo') /\
  tableAgrees faceRanges' f2m'.
Proof.
  unfold meshesOf.
  induction nodes as [|n rest IH];
    intros faceRanges pointRanges f2m fo vo faceRanges' pointRanges' f2m' fo' vo'
      Hrun Hdup Hfresh Hbound Hagree; cbn in Hrun.
  - injection Hrun as <- _ <- <- _. split; assumption.
  - unfold mapMesh at 1 in Hrun. destruct (isMesh n) eqn:Hmesh; cbn in Hrun.
    + rewrite filter_cons_True in Hdup, Hfresh by exact Hmesh.
      cbn in Hdup. apply NoDup_cons in Hdup as [Hnew Hdup].
      destruct (geometryOf store n) as [g|] eqn:Hg; cbn in Hrun; [|discriminate].
      destruct (faceCountOf g) as [c|] eqn:Hc; cbn in Hrun; [|discriminate].
      destruct (vertexCountOf g) as [v|] eqn:Hv; cbn in Hrun; [|discriminate].
      pose proof (faceCountOf_nonneg g c Hc) as Hpos.
      assert (Hn : faceRanges !! uuid n = None) by (apply Hfresh; left).
      apply (IH _ _ _ _ _ _ _ _ _ _ Hrun Hdup).
      * intros n' Hn'. rewrite lookup_insert_ne.
        -- apply Hfresh. right. exact Hn'.
        -- intros Heq. apply Hnew. rewrite Heq. apply list_elem_of_fmap. eauto.
      * intros u r Hu. destruct (decide (u = uuid n)) as [->|Hne].
        -- rewrite lookup_insert_eq in Hu. injection Hu as <-. cbn. lia.
        -- rewrite lookup_insert_ne in Hu by congruence. specialize (Hbound u r Hu). lia.
      * intros i u k. rewrite faceToMeshEntries_lookup. case_bool_decide as Hin.
        -- split.
           ++ intros [= <- <-]. exists (mkRange fo (fo + c)).
              rewrite lookup_insert_eq. cbn. repeat split; lia.
           ++ intros (r & Hr & Hrange & ->). destruct (decide (u = uuid n)) as [->|Hne].
              ** rewrite lookup_insert_eq in Hr. injection Hr as <-. reflexivity.
              ** rewrite lookup_insert_ne in Hr by congruence.
                 specialize (Hbound u r Hr). lia.
        -- rewrite (Hagree i u k). split.
           ++ intros (r & Hr & Hrange & ->). exists r.
              rewrite lookup_insert_ne by congruence. repeat split; assumption || lia.
           ++ intros (r & Hr & Hrange & ->). destruct (decide (u = uuid n)) as [->|Hne].
              ** rewrite lookup_insert_eq in Hr. injection Hr as <-. cbn in Hrange. lia.
              ** rewrite lookup_insert_ne in Hr by congruence. exists r.
                 repeat split; assumption || lia.
    + rewrite filter_cons_False in Hdup, Hfresh by (rewrite Hmesh; discriminate).
      apply (IH _ _ _ _ _ _ _ _ _ _ Hrun Hdup Hfresh Hbound Hagree).
Qed.

(** X15: in the interaction mapping of a scene whose meshes have distinct
    uuids, the face-to-mesh table is the inverse of the face ranges: global
    face [i] maps to mesh [u] and local index [k] exactly when [i] lies in
    the range of [u] and [k] is its offset from the start of the range. *)
Theorem face_to_mesh_inverts_face_ranges (store : GeomStore) (scene : Object3D)
    (mapping : InteractionMapping) :
  buildInteractionMapping store scene = Return mapping ->
  NoDup (map uuid (collectMeshes scene)) ->
  exists faceRanges,
    meshToFaceRange mapping = Some faceRanges /\
    forall i u k,
      faceToMesh mapping !! i = Some (u, k) <->
      exists r, faceRanges !! u = Some r /\
                range_start r <= i < range_end r /\ k = i - range_start r.
Proof.
  unfold buildInteractionMapping. intros Hrun Hdup.
  destruct (forEachC (mapMesh store) (traverse scene) (∅, ∅, ∅, 0, 0))
    as [[[[[faceRanges pointRanges] f2m] fo] vo]|] eqn:Hmap; cbn in Hrun; [|discriminate].
  injection Hrun as <-. cbn. exists faceRanges. split; [reflexivity|].
  apply (mapping_pass_table store _ _ _ _ _ _ _ _ _ _ _ Hmap Hdup).
  - intros n _. apply lookup_empty.
  - intros u r Hu. rewrite lookup_empty in Hu. discriminate.
  - intros i u k. rewrite lookup_empty. split; [discriminate|].
    intros (r & Hr & _). rewrite lookup_empty in Hr. discriminate.
Qed.

Lemma face_to_mesh_inverts_face_ranges_witness :
  exists mapping faceRanges,
    buildInteractionMapping twoMeshStore twoMeshScene = Return mapping /\
    meshToFaceRange mapping = Some faceRanges /\
    faceRanges !! 2 = Some (mkRange 1 3) /\
    faceToMesh mapping !! 2 = Some (2, 1).
Proof.
  eexists.
  destruct (face_to_mesh_inverts_face_ranges twoMeshStore twoMeshScene _
              ltac:(vm_compute; reflexivity))
    as (faceRanges & Hranges & Htable).
  - vm_compute. repeat constructor; rewrite ?elem_of_cons, ?elem_of_nil; intuition discriminate.
  - exists faceRanges. split; [reflexivity|]. split; [exact Hranges|].
    assert (Hr : faceRanges !! 2 = Some (mkRange 1 3)).
    { cbn in Hranges. injection Hranges as <-. vm_compute. reflexivity. }
    split; [exact Hr|]. apply Htable. exists (mkRange 1 3). cbn. repeat split; [exact Hr|lia..].
Defined.

End MappingProperties.

Section IndexProperties.
Import Store Three GlbExporter GlbParser Examples ExportFacts DecodeFacts SceneFacts.

Lemma length_extractVertices (g : BufferGeometry) (matrixWorld : list float) :
  Z.of_nat (length (extractVerticesFromGeometry g matrixWorld))
    = match attr_position g with Some positions => count positions | None => 0 end.
Proof.
  unfold extractVerticesFromGeometry. destruct (attr_position g) as [positions|]; [|reflexivity].
  rewrite length_map. unfold upto. rewrite length_map, length_seq. unfold count. lia.
Qed.

Lemma elem_of_upto (n k : Z) : k ∈ upto n <-> 0 <= k < n.
Proof.
  unfold upto. rewrite list_elem_of_fmap. setoid_rewrite elem_of_seq. split.
  - intros (j & -> & Hj). lia.
  - intros Hk. exists (Z.to_nat k). lia.
Qed.

Lemma elem_of_strides (n i : Z) : i ∈ strides n -> 0 <= i /\ i mod 3 = 0 /\ i < n + 2 - (n + 2) mod 3.
Proof.
  unfold strides. rewrite list_elem_of_fmap. intros (k & -> & Hk).
  apply elem_of_upto in Hk. rewrite Z.mul_comm, Z.mod_mul by lia.
  pose proof (Z.div_mod (n + 2) 3 ltac:(lia)). lia.
Qed.

Lemma extractFaces_indices (g : BufferGeometry) (matrixWorld : list float) (fs : list Face) :
  wellIndexed g ->
  extractFacesFromGeometry g = Return fs ->
  Forall (indicesBelow (Z.of_nat (length (extractVerticesFromGeometry g matrixWorld)))) fs.
Proof.
  unfold wellIndexed, extractFacesFromGeometry. rewrite length_extractVertices.
  destruct (index g) as [idx|].
  - intros Hwell Hret.
    match type of Hret with Return ?t = _ => assert (Hfs : fs = t) by congruence end.
    subst fs. clear Hret. apply Forall_forall. intros face Hface.
    apply list_elem_of_fmap in Hface as (i & -> & Hi). unfold indicesBelow.
    apply Forall_forall. intros v Hv. unfold indices in Hv.
    assert (Hin : v ∈ idx).
    { apply list_elem_of_omap in Hv as (x & Hx & Hsome). cbn in Hsome. subst x.
      rewrite !elem_of_cons, elem_of_nil in Hx.
      assert (Hlookup : exists k, at_index idx k = Some v) by (destruct Hx as [H|[H|[H|[]]]]; eauto).
      destruct Hlookup as (k & Hk). unfold at_index in Hk.
      destruct (k <? 0); [discriminate|]. eapply list_elem_of_lookup_2, Hk. }
    destruct (attr_position g) as [positions|].
    + rewrite Forall_forall in Hwell. apply Hwell, Hin.
    + subst idx. inversion Hin.
  - destruct (attr_position g) as [positions|]; [|discriminate].
    intros Hwell [= <-]. apply Forall_forall. intros face Hface.
    apply list_elem_of_fmap in Hface as (i & -> & Hi). unfold indicesBelow. cbn [indices].
    apply elem_of_strides in Hi. rewrite Z.add_mod, Hwell in Hi by lia.
    change ((0 + 2 mod 3) mod 3) with 2 in Hi.
    pose proof (Z.div_mod i 3 ltac:(lia)) as Hdi.
    pose proof (Z.div_mod (count positions) 3 ltac:(lia)) as Hdc.
    repeat (constructor; [lia|]). constructor.
Qed.

Lemma applyFaceLabels_indices (P : list Z -> Prop) ids (fs : list Face) :
  Forall (fun f => P (indices f)) fs -> Forall (fun f => P (indices f)) (applyFaceLabels ids fs).
Proof.
  intros Hall. unfold applyFaceLabels. destruct ids as [ids|]; [|exact Hall].
  case_bool_decide; [|exact Hall].
  apply Forall_lookup. intros k f Hk. rewrite list_lookup_imap in Hk.
  destruct (fs !! k) as [f0|] eqn:Hf0; [|discriminate]. cbn in Hk.
  rewrite Forall_lookup in Hall. specialize (Hall k f0 Hf0).
  destruct (positiveLabel (ids !! k)); injection Hk as <-; exact Hall.
Qed.

Lemma extract_pass_indices store (nodes : list NodeData) :
  forall allPoints allFaces allPoints' allFaces',
  forEachC (extractMesh store) nodes (allPoints, allFaces) = Return (allPoints', allFaces') ->
  Forall (fun n => isMesh n = true -> forall g, geometryOf store n = Some g -> wellIndexed g)
    nodes ->
  Forall (indicesBelow (Z.of_nat (length allPoints))) allFaces ->
  Forall (indicesBelow (Z.of_nat (length allPoints'))) allFaces'.
Proof.
  induction nodes as [|n rest IH]; intros allPoints allFaces allPoints' allFaces' Hrun Hwell Hinv;
    cbn in Hrun.
  - injection Hrun as <- <-. exact Hinv.
  - inversion Hwell as [|? ? Hn Hrest]; subst. unfold extractMesh at 1 in Hrun.
    destruct (isMesh n) eqn:Hmesh; cbn in Hrun; [|apply (IH _ _ _ _ Hrun Hrest Hinv)].
    destruct (geometryOf store n) as [g|] eqn:Hg; cbn in Hrun; [|discriminate].
    destruct (extractFacesFromGeometry g) as [localFaces|] eqn:Hfaces; cbn in Hrun;
      [|discriminate].
    apply (IH _ _ _ _ Hrun Hrest). rewrite length_app, Nat2Z.inj_add.
    pose proof (extractFaces_indices g (matrixWorld n) localFaces (Hn eq_refl g eq_refl) Hfaces)
      as Hlocal.
    apply Forall_app. split.
    + eapply Forall_impl; [exact Hinv|]. intros f Hf. unfold indicesBelow in *.
      eapply Forall_impl; [exact Hf|]. cbn. intros; lia.
    + apply Forall_fmap. 
      apply (applyFaceLabels_indices
               (Forall (fun idx => 0 <= idx
                                   < Z.of_nat (length (extractVerticesFromGeometry g (matrixWorld n)))))
               (extras (userData n) ≫= faceLabels)) in Hlocal.
      eapply Forall_impl; [exact Hlocal|]. intros f Hf. unfold indicesBelow, shiftIndices.
      cbn [indices]. apply Forall_fmap. eapply Forall_impl; [exact Hf|]. cbn. intros; lia.
Qed.

(** X16: when every index buffer of the loaded scene names existing
    vertices (a geometry without index buffer holding whole triangles, one
    without positions an empty index buffer), every face of the decoded
    payload is a face object all of whose point indices name a point of the
    payload. *)
Theorem decoded_faces_reference_decoded_points (store : GeomStore) (loaded : Object3D)
    (fileName : string) (payload : Payload) :
  processScene store loaded fileName = Return payload ->
  Forall (fun m => forall g, geometryOf store m = Some g -> wellIndexed g)
    (collectMeshes loaded) ->
  Forall (fun f => exists face, f = FaceObject face /\
                     indicesBelow (Z.of_nat (length (pl_points payload))) face)
    (default [] (pl_faces payload)).
Proof.
  unfold processScene. intros Hrun Hwell.
  set (scene := standardizeScene loaded) in *.
  destruct (forEachC (extractMesh store) (traverse scene) ([], [])) as [[allPoints allFaces]|]
    eqn:Hextract; cbn in Hrun; [|discriminate].
  destruct (buildInteractionMapping store scene); cbn in Hrun; [|discriminate].
  injection Hrun as <-. cbn.
  assert (Hall : Forall (indicesBelow (Z.of_nat (length allPoints))) allFaces).
  { apply (extract_pass_indices store _ _ _ _ _ Hextract); [|constructor].
    subst scene. rewrite traverse_standardizeScene. apply Forall_forall.
    intros n Hn Hmesh g Hg. apply list_elem_of_fmap in Hn as (n0 & -> & Hn0).
    rewrite standardize_isMesh in Hmesh. rewrite standardize_geometry in Hg.
    rewrite Forall_forall in Hwell. apply (Hwell n0); [|exact Hg].
    apply list_elem_of_filter. split; assumption. }
  case_bool_decide; cbn; [|constructor].
  apply Forall_fmap. eapply Forall_impl; [exact Hall|]. cbn. eauto.
Qed.

Lemma decoded_faces_reference_decoded_points_witness :
  exists payload,
    processScene twoMeshStore twoMeshScene "two.glb" = Return payload /\
    length (pl_points payload) = 7%nat /\
    Forall (fun f => exists face, f = FaceObject face /\
                       indicesBelow (Z.of_nat (length (pl_points payload))) face)
      (default [] (pl_faces payload)).
Proof.
  eexists. split; [vm_compute; reflexivity|]. split; [reflexivity|].
  apply (decoded_faces_reference_decoded_points twoMeshStore twoMeshScene "two.glb").
  - vm_compute. reflexivity.
  - unfold collectMeshes, twoMeshScene. cbn.
    repeat constructor; intros g Hg; vm_compute in Hg; injection Hg as <-;
      unfold wellIndexed; cbn; repeat constructor; cbn; lia.
Defined.

End IndexProperties.

(** ** The scene the encoder is handed *)

Section ExportedSceneProperties.
Import Store Three GlbExporter GlbParser Examples ExportFacts DecodeFacts SceneFacts.

Lemma buildPointLabelMap_unlabelled (points : list Point) :
  Forall (fun p => truthy (point_labelId p) = false) points ->
  buildPointLabelMap points = ∅.
Proof.
  intros Hall. unfold buildPointLabelMap.
  assert (Hgen : forall (l : list (Z * Point)) (m : gmap Z Z),
             Forall (fun p => truthy (point_labelId (snd p)) = false) l ->
             foldl (fun m p => match point_labelId (snd p) with
                               | Some l => if l =? 0 then m else <[fst p := l]> m
                               | None => m
                               end) m l = m).
  { induction l as [|p l IH]; intros m Hl; [reflexivity|].
    inversion Hl as [|? ? Hp Hrest]; subst. cbn [foldl].
    destruct (point_labelId (snd p)) as [z|]; [|apply IH, Hrest].
    cbn in Hp. destruct (z =? 0); [apply IH, Hrest|discriminate]. }
  apply Hgen. apply Forall_forall. intros [k p] Hp. apply elem_of_zip_r in Hp.
  rewrite Forall_forall in Hall. apply Hall, Hp.
Qed.

(** X17: exporting a document none of whose points carries a label
    (missing or 0) writes nothing to the geometry store, whatever else the
    encoder is given. *)
Theorem export_of_unlabelled_points_keeps_geometries (store : GeomStore) (freshUuid : Uuid)
    originalScene interactionMapping (points : list Point) faces labels originalHeader :
  Forall (fun p => truthy (point_labelId p) = false) points ->
  fst (exportGLB store freshUuid originalScene interactionMapping points faces labels
         originalHeader) = store.
Proof.
  intros Hall. apply export_without_point_labels_keeps_geometries.
  rewrite (buildPointLabelMap_unlabelled points Hall). apply map_size_empty.
Qed.

Lemma export_of_unlabelled_points_keeps_geometries_witness :
  fst (exportGLB twoMeshStore 100 (Some twoMeshScene)
         (Some (mkMapping (Some {[1 := mkRange 0 1; 2 := mkRange 1 3]})
                  (Some {[1 := mkRange 0 3; 2 := mkRange 3 7]}) ∅))
         [aPoint None; aPoint (Some 0)] (Some threeFaces) [] None) = twoMeshStore.
Proof.
  apply export_of_unlabelled_points_keeps_geometries.
  repeat constructor.
Defined.

(** *** The shape of the exported scene *)

Lemma sameButTop_refl n : sameButTop n n.
Proof. repeat split. Qed.

Lemma attachPair_sameButTop faceRanges pointRanges nPoints pointLabelMap faceLabelIds labels
    originalHeader i originalMesh clonedMesh (store : GeomStore) :
  isMesh clonedMesh = true ->
  sameButTop clonedMesh
    (fst (attachPair faceRanges pointRanges nPoints pointLabelMap faceLabelIds labels
            originalHeader i originalMesh clonedMesh store)).
Proof.
  intros Hmesh. unfold attachPair.
  destruct (geometry clonedMesh) as [gref|]; [|apply sameButTop_refl].
  destruct (store !! gref); [|apply sameButTop_refl].
  destruct (pointRanges !! uuid originalMesh), (faceRanges !! uuid originalMesh);
    try apply sameButTop_refl.
  cbn [fst]. unfold sameButTop. rewrite Hmesh.
  destruct (bool_decide (0 < length faceLabelIds)%nat), (bool_decide (i = 0%nat)),
    (bool_decide (0 < length labels)%nat), originalHeader; cbn; repeat split; congruence.
Qed.

Lemma attachLoop_sameButTop faceRanges pointRanges nPoints pointLabelMap faceLabelIds labels
    originalHeader (originalMeshes : list NodeData) :
  forall (clonedMeshes : list NodeData) (i : nat) (store : GeomStore),
  Forall (fun c => isMesh c = true) clonedMeshes ->
  Forall2 sameButTop clonedMeshes
    (fst (attachLoop faceRanges pointRanges nPoints pointLabelMap faceLabelIds labels
            originalHeader i originalMeshes clonedMeshes store)).
Proof.
  assert (Hrefl : forall l, Forall2 sameButTop l l)
    by (induction l; constructor; [apply sameButTop_refl|assumption]).
  induction originalMeshes as [|o os IH]; intros clonedMeshes i store Hmesh; cbn;
    [apply Hrefl|].
  destruct clonedMeshes as [|c cs]; [constructor|].
  inversion Hmesh as [|? ? Hc Hcs]; subst.
  pose proof (attachPair_sameButTop faceRanges pointRanges nPoints pointLabelMap faceLabelIds
                labels originalHeader i o c store Hc) as Hpair.
  destruct (attachPair _ _ _ _ _ _ _ i o c store) as [c' store1]. cbn [fst] in Hpair.
  specialize (IH cs (S i) store1 Hcs).
  destruct (attachLoop _ _ _ _ _ _ _ (S i) os cs store1) as [cs' store2]. cbn [fst] in *.
  constructor; assumption.
Qed.

Lemma putList_sameButTop (nodes : list NodeData) : forall meshes,
  Forall2 sameButTop (meshesOf nodes) meshes ->
  Forall2 sameButTop nodes (fst (putList nodes meshes)).
Proof.
  unfold meshesOf. induction nodes as [|n rest IH]; intros meshes Hall; cbn [putList];
    [constructor|].
  destruct (isMesh n) eqn:Hn.
  - rewrite filter_cons_True in Hall by exact Hn.
    inversion Hall as [|? m ? ms Hm Hms]; subst.
    specialize (IH ms Hms). destruct (putList rest ms) as [rest' remaining].
    constructor; assumption.
  - rewrite filter_cons_False in Hall by (rewrite Hn; discriminate).
    specialize (IH meshes Hall). destruct (putList rest meshes) as [rest' remaining].
    constructor; [apply sameButTop_refl|exact IH].
Qed.

Lemma renumber_lookup (nodes : list NodeData) : forall u k n,
  nodes !! k = Some n -> renumber u nodes !! k = Some (reidentify (u + Z.of_nat k) n).
Proof.
  induction nodes as [|n0 rest IH]; intros u k n Hk; [discriminate|].
  destruct k as [|k]; cbn in Hk.
  - injection Hk as ->. cbn. do 2 f_equal. lia.
  - refine (eq_trans (IH (u + 1) k n Hk) _). do 2 f_equal. lia.
Qed.

Lemma length_renumber (nodes : list NodeData) : forall u,
  length (renumber u nodes) = length nodes.
Proof. induction nodes as [|n rest IH]; intros u; cbn; [reflexivity|]. rewrite IH. reflexivity. Qed.

(** X18: the scene handed to the encoder has as many nodes as the
    original, and its node at each position of the traversal stands for the
    original's under a new uuid, the uuids being consecutive; apart from the
    uuid only the top-level custom keys of mesh nodes can differ. *)
Theorem exported_scene_mirrors_original (store : GeomStore) (freshUuid : Uuid)
    (scene : Object3D) interactionMapping (points : list Point) faces labels originalHeader
    (store' : GeomStore) (exported : Object3D) :
  exportGLB store freshUuid (Some scene) interactionMapping points faces labels originalHeader
    = (store', Return exported) ->
  length (traverse exported) = length (traverse scene) /\
  forall (k : nat) (original : NodeData),
    traverse scene !! k = Some original ->
    exists node, traverse exported !! k = Some node /\
      uuid node = freshUuid + Z.of_nat k /\
      exportedFrom original node.
Proof.
  unfold exportGLB.
  destruct interactionMapping as [[[faceRanges|] [pointRanges|] f2m]|]; try discriminate.
  case_bool_decide; [discriminate|].
  pose proof (attachLoop_sameButTop faceRanges pointRanges (Z.of_nat (length points))
                (buildPointLabelMap points) (buildFaceLabelIds faces) labels originalHeader
                (collectMeshes scene) (collectMeshes (fst (clone scene freshUuid))) 0%nat store)
    as Hloop.
  destruct (attachLoop _ _ _ _ _ _ _ 0%nat _ _ store) as [cs' store1]. cbn [fst] in Hloop.
  intros [= <- <-].
  rewrite (proj1 (traverse_putMeshes _ _)), (proj1 (traverse_clone scene freshUuid)).
  assert (Hall : Forall2 sameButTop (renumber freshUuid (traverse scene))
                   (fst (putList (renumber freshUuid (traverse scene)) cs'))).
  { apply putList_sameButTop. unfold collectMeshes in Hloop.
    rewrite (proj1 (traverse_clone scene freshUuid)) in Hloop. apply Hloop.
    apply Forall_forall. intros c Hc. apply list_elem_of_filter in Hc. apply Hc. }
  split.
  - rewrite <- (Forall2_length _ _ _ Hall). apply length_renumber.
  - intros k original Hk.
    pose proof (renumber_lookup _ freshUuid k original Hk) as Hclone.
    destruct (Forall2_lookup_l _ _ _ _ _ Hall Hclone)
      as (node & Hnode & Hu & Hm & Hname & Hg & Hmw & Hextras & Hplain).
    exists node. split; [exact Hnode|]. split; [exact Hu|].
    unfold exportedFrom. cbn in *. repeat split; try assumption.
    intros Hfalse. rewrite (Hplain Hfalse). reflexivity.
Qed.

Lemma exported_scene_mirrors_original_witness :
  exists store' exported,
    exportGLB twoMeshStore 100 (Some twoMeshScene)
      (Some (mkMapping (Some {[1 := mkRange 0 1; 2 := mkRange 1 3]})
               (Some {[1 := mkRange 0 3; 2 := mkRange 3 7]}) ∅))
      [] (Some threeFaces) [] None = (store', Return exported) /\
    length (traverse exported) = 3%nat /\
    exists node, traverse exported !! 2%nat = Some node /\
                 uuid node = 102 /\ node_name node = "quad"%string.
Proof.
  destruct (exportGLB twoMeshStore 100 (Some twoMeshScene)
      (Some (mkMapping (Some {[1 := mkRange 0 1; 2 := mkRange 1 3]})
               (Some {[1 := mkRange 0 3; 2 := mkRange 3 7]}) ∅))
      [] (Some threeFaces) [] None) as [store' [exported|e]] eqn:Hexport;
    [|vm_compute in Hexport; discriminate].
  exists store', exported. split; [reflexivity|].
  destruct (exported_scene_mirrors_original _ _ _ _ _ _ _ _ _ _ Hexport) as [Hlen Hnodes].
  split; [exact Hlen|].
  destruct (Hnodes 2%nat _ eq_refl) as (node & Hnode & Hu & _ & Hname & _).
  exists node. repeat split; assumption.
Defined.

End ExportedSceneProperties.

(** ** Decoding what was exported *)

Section RoundTrip.
Import Store Three GlbExporter GlbParser Examples ExportFacts DecodeFacts SceneFacts.

Lemma extract_pass_labels store (nodes : list NodeData) :
  forall allPoints allFaces allPoints' allFaces',
  forEachC (extractMesh store) nodes (allPoints, allFaces) = Return (allPoints', allFaces') ->
  map face_labelId allFaces'
    = map face_labelId allFaces ++ concat (map (meshFaceLabels store) (meshesOf nodes)).
Proof.
  unfold meshesOf.
  induction nodes as [|n rest IH]; intros allPoints allFaces allPoints' allFaces' Hrun;
    cbn in Hrun.
  - injection Hrun as <- <-. cbn. rewrite app_nil_r. reflexivity.
  - unfold extractMesh at 1 in Hrun. destruct (isMesh n) eqn:Hmesh; cbn in Hrun.
    + rewrite filter_cons_True by exact Hmesh. cbn [map concat].
      destruct (geometryOf store n) as [g|] eqn:Hg; cbn in Hrun; [|discriminate].
      destruct (extractFacesFromGeometry g) as [localFaces|] eqn:Hfaces; cbn in Hrun;
        [|discriminate].
      rewrite (IH _ _ _ _ Hrun), map_app, <- app_assoc. f_equal. f_equal.
      unfold meshFaceLabels. rewrite Hg, Hfaces, map_map. reflexivity.
    + rewrite filter_cons_False by (rewrite Hmesh; discriminate). apply (IH _ _ _ _ Hrun).
Qed.

Lemma extractFaces_of_positions (g : BufferGeometry) positions :
  attr_position g = Some positions ->
  exists localFaces, extractFacesFromGeometry g = Return localFaces /\
                     Forall (fun f => face_labelId f = None) localFaces.
Proof.
  intros Hp. unfold extractFacesFromGeometry. rewrite Hp.
  destruct (index g); eexists; (split; [reflexivity|]);
    apply Forall_fmap, Forall_forall; intros; reflexivity.
Qed.

Lemma extract_pass_total store (nodes : list NodeData) :
  Forall (decodable store) nodes ->
  forall acc, exists r, forEachC (extractMesh store) nodes acc = Return r.
Proof.
  induction nodes as [|n rest IH]; intros Hall [allPoints allFaces]; cbn; [eauto|].
  inversion Hall as [|? ? Hn Hrest]; subst. unfold extractMesh at 1.
  destruct (isMesh n) eqn:Hmesh; cbn; [|apply IH, Hrest].
  destruct (Hn Hmesh) as (g & positions & -> & Hp).
  destruct (extractFaces_of_positions g positions Hp) as (localFaces & -> & _). cbn.
  apply IH, Hrest.
Qed.

Lemma mapping_pass_total store (nodes : list NodeData) :
  Forall (decodable store) nodes ->
  forall acc, exists r, forEachC (mapMesh store) nodes acc = Return r.
Proof.
  induction nodes as [|n rest IH]; intros Hall [[[[fr pr] f2m] fo] vo]; cbn; [eauto|].
  inversion Hall as [|? ? Hn Hrest]; subst. unfold mapMesh at 1.
  destruct (isMesh n) eqn:Hmesh; cbn; [|apply IH, Hrest].
  destruct (Hn Hmesh) as (g & positions & -> & Hp).
  unfold faceCountOf, vertexCountOf. rewrite Hp. destruct (index g); cbn; apply IH, Hrest.
Qed.

Lemma mapping_pass_decodable store (nodes : list NodeData) : forall acc r,
  forEachC (mapMesh store) nodes acc = Return r -> Forall (decodable store) nodes.
Proof.
  induction nodes as [|n rest IH]; intros [[[[fr pr] f2m] fo] vo] r Hrun; [constructor|].
  cbn in Hrun. unfold mapMesh at 1 in Hrun.
  destruct (isMesh n) eqn:Hmesh; cbn in Hrun.
  - destruct (geometryOf store n) as [g|] eqn:Hg; cbn in Hrun; [|discriminate].
    destruct (faceCountOf g) as [c|]; cbn in Hrun; [|discriminate].
    destruct (vertexCountOf g) as [v|] eqn:Hv; cbn in Hrun; [|discriminate].
    constructor; [|apply (IH _ _ Hrun)].
    intros _. unfold vertexCountOf in Hv. destruct (attr_position g) as [p|] eqn:Hp;
      [|discriminate]. rewrite Hg. eauto.
  - constructor; [|apply (IH _ _ Hrun)]. intros Hm. congruence.
Qed.

(** The ranges of the mapping pass with their sizes. *)
Lemma mapping_pass_sizes store (nodes : list NodeData) :
  forall faceRanges pointRanges f2m fo vo faceRanges' pointRanges' f2m' fo' vo',
  forEachC (mapMesh store) nodes (faceRanges, pointRanges, f2m, fo, vo)
    = Return (faceRanges', pointRanges', f2m', fo', vo') ->
  NoDup (map uuid (meshesOf nodes)) ->
  0 <= fo ->
  (forall u, u ∉ map uuid (meshesOf nodes) ->
     faceRanges' !! u = faceRanges !! u /\ pointRanges' !! u = pointRanges !! u) /\
  exists ranges,
    Forall2 (fun m r => registered faceRanges' pointRanges' m r /\
                        fo <= range_start r /\ range_start r <= range_end r <= fo' /\
                        range_end r - range_start r = nodeFaces store m)
      (meshesOf nodes) ranges /\
    contiguous ranges fo fo'.
Proof.
  unfold meshesOf.
  induction nodes as [|n rest IH];
    intros faceRanges pointRanges f2m fo vo faceRanges' pointRanges' f2m' fo' vo' Hrun Hdup Hfo;
    cbn in Hrun.
  - injection Hrun as <- <- _ <- _. split; [auto|].
    exists []. split; [constructor|reflexivity].
  - unfold mapMesh at 1 in Hrun. destruct (isMesh n) eqn:Hmesh; cbn in Hrun.
    + rewrite filter_cons_True in Hdup |- * by exact Hmesh.
      cbn in Hdup. apply NoDup_cons in Hdup as [Hfresh Hdup].
      destruct (geometryOf store n) as [g|] eqn:Hg; cbn in Hrun; [|discriminate].
      destruct (faceCountOf g) as [c|] eqn:Hc; cbn in Hrun; [|discriminate].
      destruct (vertexCountOf g) as [v|] eqn:Hv; cbn in Hrun; [|discriminate].
      pose proof (faceCountOf_nonneg g c Hc) as Hpos.
      destruct (IH _ _ _ _ _ _ _ _ _ _ Hrun Hdup ltac:(lia)) as (Hkeep & ranges & Hreg & Hcont).
      pose proof (contiguous_le _ _ _ Hcont) as Hle.
      split.
      * intros u Hu. cbn in Hu. apply not_elem_of_cons in Hu as [Hne Hu].
        destruct (Hkeep u Hu) as [-> ->]. rewrite !lookup_insert_ne by congruence. auto.
      * exists (mkRange fo (fo + c) :: ranges). split.
        -- constructor.
           ++ destruct (Hkeep (uuid n) Hfresh) as [Hf Hp].
              unfold registered. rewrite Hf, Hp, !lookup_insert_eq. cbn.
              unfold nodeFaces. rewrite Hmesh, Hg, Hc.
              split; [split; [reflexivity|eauto]|]. lia.
           ++ eapply Forall2_impl; [exact Hreg|]. cbn.
              intros m r (Hr & ? & ? & ?). split; [exact Hr|]. lia.
        -- cbn. repeat split; [lia|exact Hcont].
    + rewrite filter_cons_False in Hdup |- * by (rewrite Hmesh; discriminate).
      apply (IH _ _ _ _ _ _ _ _ _ _ Hrun Hdup Hfo).
Qed.

Lemma sameButLabelId_decode (g g' : BufferGeometry) :
  sameButLabelId (Some g) (Some g') ->
  attr_position g' = attr_position g /\
  extractFacesFromGeometry g' = extractFacesFromGeometry g /\
  faceCountOf g' = faceCountOf g.
Proof.
  intros (Hp & _ & Huv & _ & Hidx & _). split; [exact Hp|].
  unfold extractFacesFromGeometry, faceCountOf, uvTriple. rewrite Hp, Huv, Hidx.
  split; reflexivity.
Qed.

(** The labels one mesh gets back from the label array the encoder wrote. *)
Lemma relabelled_faces (ids : list Z) (start end_ : Z) (used : option (list Z))
    (localFaces : list Face) :
  0 <= start <= end_ -> end_ <= Z.of_nat (length ids) ->
  Z.of_nat (length localFaces) = end_ - start ->
  Forall (fun f => face_labelId f = None) localFaces ->
  (localFaces <> [] -> used = Some (slice ids start end_)) ->
  map face_labelId (applyFaceLabels used localFaces)
    = map (fun l => positiveLabel (Some l)) (slice ids start end_).
Proof.
  intros Hrange Hend Hlen Hnone Hused.
  assert (Hslice : length (slice ids start end_) = length localFaces).
  { rewrite slice_within by lia. rewrite length_take, length_drop. lia. }
  destruct localFaces as [|f0 rest].
  { destruct (slice ids start end_); [|discriminate].
    unfold applyFaceLabels. destruct used as [u|]; [|reflexivity].
    case_bool_decide; reflexivity. }
  rewrite (Hused ltac:(discriminate)). unfold applyFaceLabels.
  rewrite bool_decide_eq_true_2 by (rewrite Hslice; cbn; lia).
  apply list_eq. intros k. rewrite !list_lookup_fmap, list_lookup_imap.
  destruct ((f0 :: rest) !! k) as [f|] eqn:Hf.
  - destruct (lookup_lt_is_Some_2 (slice ids start end_) k) as [l Hl].
    { rewrite Hslice. eapply lookup_lt_Some, Hf. }
    rewrite Hl. cbn. rewrite Forall_forall in Hnone.
    specialize (Hnone f ltac:(eapply list_elem_of_lookup_2; exact Hf)).
    unfold positiveLabel. destruct (0 <? l); cbn; [reflexivity|]. f_equal. exact Hnone.
  - assert (Hk : slice ids start end_ !! k = None)
      by (apply lookup_ge_None; rewrite Hslice; apply lookup_ge_None; exact Hf).
    rewrite Hk. reflexivity.
Qed.

Lemma contiguous_within ranges : forall from to,
  contiguous ranges from to ->
  Forall (fun r => from <= range_start r /\ range_start r <= range_end r <= to) ranges.
Proof.
  induction ranges as [|r rest IH]; intros from to; cbn; [constructor|].
  intros (Hstart & Hle & Hrest). pose proof (contiguous_le _ _ _ Hrest) as Hend.
  constructor; [lia|]. eapply Forall_impl; [apply (IH _ _ Hrest)|]. cbn. intros; lia.
Qed.

Lemma geometryOf_Some store n g :
  geometryOf store n = Some g -> exists ref, geometry n = Some ref /\ store !! ref = Some g.
Proof.
  unfold geometryOf. destruct (geometry n) as [ref|]; [|discriminate]. cbn. eauto.
Qed.

Lemma concat_fmap_Forall2 {A B C} (f : A -> list C) (g : B -> list C) (l : list A)
    (k : list B) :
  Forall2 (fun a b => f a = g b) l k -> concat (map f l) = concat (map g k).
Proof. induction 1 as [|a b l k Hab _ IH]; [reflexivity|]. cbn. rewrite Hab, IH. reflexivity. Qed.

(** The scene pass of the decoder on the scene the encoder is handed: it
    returns, and the labels of its faces are the entries of the array the
    encoder sliced, an entry that is not positive read as none. *)
Lemma scene_pass_after_export (store : GeomStore) (freshUuid : Uuid)
    (scene : Object3D) (mapping : InteractionMapping) (points : list Point)
    (faces : option (list Face)) (labels : list Label) (originalHeader : option FileHeader)
    (fileName : string) :
  buildInteractionMapping store scene = Return mapping ->
  NoDup (map uuid (collectMeshes scene)) ->
  Forall (fun m => faceLabels (top (userData m)) = None) (collectMeshes scene) ->
  Forall (fun m => forall g, geometryOf store m = Some g -> triangleList g)
    (collectMeshes scene) ->
  Z.of_nat (length (buildFaceLabelIds faces)) = sumFaces store (traverse scene) ->
  exists store' exported payload,
    exportGLB store freshUuid (Some scene) (Some mapping) points faces labels originalHeader
      = (store', Return exported) /\
    processScene store' exported fileName = Return payload /\
    map payloadFaceLabel (default [] (pl_faces payload))
      = map (fun l => positiveLabel (Some l)) (buildFaceLabelIds faces).
Proof.
  intros Hmap Hdup Hnone Htri Hcount.
  unfold buildInteractionMapping in Hmap.
  destruct (forEachC (mapMesh store) (traverse scene) (∅, ∅, ∅, 0, 0))
    as [[[[[faceRanges pointRanges] f2m] fo] vo]|] eqn:Hpass; cbn in Hmap; [|discriminate].
  injection Hmap as <-.
  pose proof (mapping_pass_decodable store _ _ _ Hpass) as Hdec.
  destruct (mapping_pass store _ _ _ _ _ _ _ _ _ _ _ Hpass Hdup) as (Hfo & _ & _).
  destruct (mapping_pass_sizes store _ _ _ _ _ _ _ _ _ _ _ Hpass Hdup ltac:(lia))
    as (_ & ranges & Hreg & Hcont).
  rewrite Z.add_0_l, <- Hcount in Hfo. subst fo.
  set (ids := buildFaceLabelIds faces) in *.
  change (filter (fun n => isMesh n = true) (traverse scene)) with (collectMeshes scene)
    in Hreg.
  unfold exportGLB.
  pose proof (collectMeshes_clone scene freshUuid) as Hclone.
  set (sceneToExport := fst (clone scene freshUuid)) in *.
  set (originalMeshes := collectMeshes scene) in *.
  set (clonedMeshes := collectMeshes sceneToExport) in *.
  pose proof (Forall2_length _ _ _ Hclone) as Hlen.
  rewrite bool_decide_eq_false_2 by (intros Hne; apply Hne; exact Hlen).
  assert (Horig : Forall (fun o => isMesh o = true /\ decodable store o) originalMeshes).
  { apply Forall_forall. intros o Ho. apply list_elem_of_filter in Ho as [Hm Hin].
    split; [exact Hm|]. rewrite Forall_forall in Hdec. apply Hdec, Hin. }
  assert (Hcmesh : Forall (fun c => isMesh c = true) clonedMeshes).
  { apply Forall_forall. intros c Hc. apply list_elem_of_filter in Hc. apply Hc. }
  assert (Hcgeom : Forall (fun c => is_Some (geometryOf store c)) clonedMeshes).
  { apply Forall_lookup. intros i c Hc.
    destruct (Forall2_lookup_r _ _ _ _ _ Hclone Hc) as (o & Ho & _ & Hg & _).
    rewrite Forall_lookup in Horig. destruct (Horig i o Ho) as [Hm Hd].
    destruct (Hd Hm) as (g & p & Hgo & _). unfold geometryOf in *. rewrite Hg, Hgo. eauto. }
  assert (Hcnone : Forall (fun c => faceLabels (top (userData c)) = None) clonedMeshes).
  { apply Forall_lookup. intros i c Hc.
    destruct (Forall2_lookup_r _ _ _ _ _ Hclone Hc) as (o & Ho & _ & _ & Hu).
    rewrite Hu. rewrite Forall_lookup in Hnone. apply (Hnone i o Ho). }
  assert (Hreg' : Forall2 (registered faceRanges pointRanges) originalMeshes ranges).
  { eapply Forall2_impl; [exact Hreg|]. cbn. intros m r Hr. apply Hr. }
  pose proof (attachLoop_result faceRanges pointRanges (Z.of_nat (length points))
                (buildPointLabelMap points) ids labels originalHeader
                originalMeshes clonedMeshes ranges 0%nat store (eq_sym Hlen) Hreg'
                Hcgeom Hcmesh Hcnone) as (Hrlen & Hrmesh & Hrslices).
  pose proof (attachLoop_sameButTop faceRanges pointRanges (Z.of_nat (length points))
                (buildPointLabelMap points) ids labels originalHeader
                originalMeshes clonedMeshes 0%nat store Hcmesh) as Hsame.
  assert (Hstore : forall ref,
             sameButLabelId (store !! ref)
               (snd (attachLoop faceRanges pointRanges (Z.of_nat (length points))
                       (buildPointLabelMap points) ids labels originalHeader 0%nat
                       originalMeshes clonedMeshes store) !! ref)).
  { intros ref. apply attachLoop_store. }
  destruct (attachLoop _ _ _ _ _ _ _ 0%nat originalMeshes clonedMeshes store)
    as [clonedMeshes' store'].
  cbn [fst snd] in *.
  set (exported := fst (putMeshes sceneToExport clonedMeshes')).
  assert (Hexported : collectMeshes exported = clonedMeshes')
    by (apply collectMeshes_putMeshes; assumption).
  exists store', exported.
  (* every mesh of the export, with its original and its range *)
  assert (Hper : Forall2 (fun c' r =>
                    isMesh c' = true /\
                    (exists g' positions, geometryOf store' c' = Some g' /\
                                          attr_position g' = Some positions) /\
                    meshFaceLabels store' (standardizeUserDataStructure c')
                      = map (fun l => positiveLabel (Some l))
                          (slice ids (range_start r) (range_end r)))
                  clonedMeshes' ranges).
  { apply Forall2_same_length_lookup_2;
      [rewrite Hrlen, <- Hlen; apply (Forall2_length _ _ _ Hreg)|].
    intros i c' r Hc' Hr.
    destruct (Forall2_lookup_r _ _ _ _ _ Hsame Hc')
      as (c & Hc & _ & Hm' & _ & Hg' & _ & _ & _).
    destruct (Forall2_lookup_r _ _ _ _ _ Hclone Hc) as (o & Ho & _ & Hg & _).
    pose proof (Forall2_lookup_lr _ _ _ _ _ _ Hreg Ho Hr) as (_ & Hlow & Hhigh & Hsize).
    pose proof (Forall2_lookup_lr _ _ _ _ _ _ Hrslices Hc' Hr) as Hslice.
    rewrite Forall_lookup in Horig. destruct (Horig i o Ho) as [Hm Hd].
    destruct (Hd Hm) as (g & positions & Hgo & Hp).
    destruct (geometryOf_Some _ _ _ Hgo) as (ref & Href & Hsg).
    pose proof (Hstore ref) as Hsb. rewrite Hsg in Hsb.
    destruct (store' !! ref) as [g'|] eqn:Hsg'; [|contradiction].
    destruct (sameButLabelId_decode g g' Hsb) as (Hp' & Hfaces' & _).
    assert (Hgeo' : geometryOf store' c' = Some g').
    { unfold geometryOf. rewrite Hg', Hg, Href. exact Hsg'. }
    assert (Hcm : isMesh c' = true).
    { rewrite Forall_lookup in Hcmesh. rewrite Hm'. apply (Hcmesh i c Hc). }
    split; [exact Hcm|]. split; [exists g', positions; split; [exact Hgeo'|congruence]|].
    destruct (extractFaces_of_positions g positions Hp) as (localFaces & Hlf & Hunlabelled).
    unfold meshFaceLabels. rewrite standardize_geometry, Hgeo', Hfaces', Hlf.
    assert (Hnf : nodeFaces store o = Z.of_nat (length localFaces)).
    { unfold nodeFaces. rewrite Hm, Hgo.
      destruct (faceCountOf g) as [c0|] eqn:Hc0;
        [|unfold faceCountOf in Hc0; rewrite Hp in Hc0; destruct (index g); discriminate].
      symmetry. apply (extracted_face_count g localFaces c0); [|exact Hlf|exact Hc0].
      rewrite Forall_lookup in Htri. apply (Htri i o Ho g Hgo). }
    apply relabelled_faces; try lia; [exact Hunlabelled|].
    intros Hne.
    assert (Hlen' : length (slice ids (range_start r) (range_end r)) = length localFaces).
    { rewrite slice_within by lia. rewrite length_take, length_drop. lia. }
    assert (Htop : faceLabels (top (userData c'))
                   = Some (slice ids (range_start r) (range_end r))).
    { unfold faceLabelsOf in Hslice. destruct (faceLabels (top (userData c'))) as [v|];
        cbn in Hslice; [congruence|].
      rewrite <- Hslice in Hlen'. destruct localFaces; [congruence|discriminate]. }
    unfold standardizeUserDataStructure. rewrite Hcm. cbn [negb].
    assert (Hany : hasAnyCustom (top (userData c')) = true).
    { unfold hasAnyCustom. rewrite (bool_decide_eq_true_2 (faceLabels _ <> None));
        [reflexivity|]. rewrite Htop. discriminate. }
    rewrite Hany. cbn. exact Htop. }
  (* the decoder on the exported scene *)
  unfold processScene.
  set (scene2 := standardizeScene exported).
  assert (Hnodes2 : traverse scene2 = map standardizeUserDataStructure (traverse exported))
    by apply traverse_standardizeScene.
  assert (Hmeshes2 : meshesOf (traverse scene2)
                     = map standardizeUserDataStructure clonedMeshes').
  { rewrite Hnodes2, meshesOf_standardize. f_equal. exact Hexported. }
  assert (Hdec2 : Forall (decodable store') (traverse scene2)).
  { rewrite Hnodes2. apply Forall_forall. intros n2 Hn2 Hm2.
    apply list_elem_of_fmap in Hn2 as (e & -> & He).
    rewrite standardize_isMesh in Hm2. rewrite standardize_geometry.
    assert (Hin : e ∈ clonedMeshes').
    { rewrite <- Hexported. apply list_elem_of_filter. split; assumption. }
    apply list_elem_of_lookup in Hin as (i & Hi).
    destruct (Forall2_lookup_l _ _ _ _ _ Hper Hi) as (r & _ & _ & Hgeo & _). exact Hgeo. }
  destruct (extract_pass_total store' _ Hdec2 ([], [])) as ([allPoints allFaces] & Hextract).
  destruct (mapping_pass_total store' _ Hdec2 (∅, ∅, ∅, 0, 0))
    as ([[[[fr2 pr2] f2m2] fo2] vo2] & Hmap2).
  rewrite Hextract. cbn. unfold buildInteractionMapping. fold scene2. rewrite Hmap2. cbn.
  eexists. split; [reflexivity|]. split; [reflexivity|]. cbn.
  pose proof (extract_pass_labels store' _ _ _ _ _ Hextract) as Hlabels.
  rewrite Hmeshes2, map_map in Hlabels. cbn [map app] in Hlabels.
  assert (Hall : map face_labelId allFaces = map (fun l => positiveLabel (Some l)) ids).
  { rewrite Hlabels.
    rewrite (concat_fmap_Forall2
               (fun c' => meshFaceLabels store' (standardizeUserDataStructure c'))
               (fun r => map (fun l => positiveLabel (Some l))
                           (slice ids (range_start r) (range_end r)))
               clonedMeshes' ranges)
      by (eapply Forall2_impl; [exact Hper|]; cbn; intros c' r (_ & _ & Heq); exact Heq).
    rewrite <- (map_map (fun r => slice ids (range_start r) (range_end r))
                  (map (fun l => positiveLabel (Some l)))).
    rewrite <- concat_map. rewrite (concat_slices ids ranges 0) by (lia || exact Hcont).
    reflexivity. }
  case_bool_decide as Hnonempty; cbn [pl_faces default].
  - unfold id. rewrite map_map. exact Hall.
  - etransitivity; [|exact Hall]. destruct allFaces; [reflexivity|cbn in Hnonempty; lia].
Qed.

(** X19: for a document none of whose points carries a label, over a scene
    of triangle lists with distinct uuids and no top-level face-label key,
    exported under the scene's own interaction mapping with as many faces as
    the scene has: the export succeeds and writes to no geometry, and the
    scene pass of the decoder (what [parseGLB] does with a loaded scene),
    run on the scene the encoder is handed, returns a payload whose face
    labels are the labels of the document's faces, a label that is missing
    or not positive read as none. The encoder and the loader that lie between
    the two in the application are outside the model. *)
Theorem decode_of_export_recovers_face_labels (store : GeomStore) (freshUuid : Uuid)
    (scene : Object3D) (mapping : InteractionMapping) (points : list Point)
    (faces : option (list Face)) (labels : list Label) (originalHeader : option FileHeader)
    (fileName : string) :
  buildInteractionMapping store scene = Return mapping ->
  NoDup (map uuid (collectMeshes scene)) ->
  Forall (fun m => faceLabels (top (userData m)) = None) (collectMeshes scene) ->
  Forall (fun m => forall g, geometryOf store m = Some g -> triangleList g)
    (collectMeshes scene) ->
  Z.of_nat (length (default [] faces)) = sumFaces store (traverse scene) ->
  Forall (fun p => truthy (point_labelId p) = false) points ->
  exists exported payload,
    exportGLB store freshUuid (Some scene) (Some mapping) points faces labels originalHeader
      = (store, Return exported) /\
    processScene store exported fileName = Return payload /\
    map payloadFaceLabel (default [] (pl_faces payload))
      = map (fun face => positiveLabel (face_labelId face)) (default [] faces).
Proof.
  intros Hmap Hdup Hnone Htri Hcount Hunlabelled.
  assert (Hlabels : map (fun l => positiveLabel (Some l)) (buildFaceLabelIds faces)
                    = map (fun face => positiveLabel (face_labelId face)) (default [] faces)).
  { rewrite buildFaceLabelIds_labels. unfold globalFaceLabels. rewrite map_map.
    apply map_ext. intros face. destruct (face_labelId face) as [l|]; reflexivity. }
  assert (Hlength : Z.of_nat (length (buildFaceLabelIds faces))
                    = sumFaces store (traverse scene)).
  { rewrite buildFaceLabelIds_labels. unfold globalFaceLabels. rewrite length_map.
    exact Hcount. }
  destruct (scene_pass_after_export store freshUuid scene mapping points faces labels
              originalHeader fileName Hmap Hdup Hnone Htri Hlength)
    as (store' & exported & payload & Hexport & Hdecode & Hread).
  assert (Hstore : fst (exportGLB store freshUuid (Some scene) (Some mapping) points faces
                          labels originalHeader) = store).
  { apply export_without_point_labels_keeps_geometries.
    rewrite (buildPointLabelMap_unlabelled points Hunlabelled). apply map_size_empty. }
  rewrite Hexport in Hstore. cbn in Hstore. subst store'.
  exists exported, payload. split; [exact Hexport|]. split; [exact Hdecode|].
  rewrite Hread. exact Hlabels.
Qed.

Lemma decode_of_export_recovers_face_labels_witness :
  exists exported payload,
    exportGLB twoMeshStore 100 (Some twoMeshScene)
      (Some (mkMapping (Some {[1 := mkRange 0 1; 2 := mkRange 1 3]})
               (Some {[1 := mkRange 0 3; 2 := mkRange 3 7]})
               {[0 := (1, 0); 1 := (2, 0); 2 := (2, 1)]}))
      [aPoint None; aPoint (Some 0)] (Some threeFaces) [] None
      = (twoMeshStore, Return exported) /\
    processScene twoMeshStore exported "scene.glb" = Return payload /\
    map payloadFaceLabel (default [] (pl_faces payload)) = [Some 3; None; Some 5].
Proof.
  apply (decode_of_export_recovers_face_labels twoMeshStore 100 twoMeshScene
           (mkMapping (Some {[1 := mkRange 0 1; 2 := mkRange 1 3]})
              (Some {[1 := mkRange 0 3; 2 := mkRange 3 7]})
              {[0 := (1, 0); 1 := (2, 0); 2 := (2, 1)]})
           [aPoint None; aPoint (Some 0)] (Some threeFaces) [] None "scene.glb").
  - vm_compute. reflexivity.
  - vm_compute. repeat constructor; rewrite ?elem_of_cons, ?elem_of_nil; intuition discriminate.
  - repeat constructor.
  - unfold collectMeshes, twoMeshScene. cbn. repeat constructor; intros g Hg;
      vm_compute in Hg; injection Hg as <-; reflexivity.
  - reflexivity.
  - repeat constructor.
Defined.

Lemma decode_meets_export_hypotheses_witness :
  exists payload scene faceRanges pointRanges f2m ranges,
    processScene twoMeshStore twoMeshScene "scene.glb" = Return payload /\
    pl_originalScene payload = Some scene /\
    pl_interactionMapping payload
      = Some (mkMapping (Some faceRanges) (Some pointRanges) f2m) /\
    Forall2 (registered faceRanges pointRanges) (collectMeshes scene) ranges /\
    contiguous ranges 0 3.
Proof.
  destruct (processScene twoMeshStore twoMeshScene "scene.glb") as [payload|e] eqn:Hrun;
    [|vm_compute in Hrun; discriminate].
  destruct (decode_meets_export_hypotheses twoMeshStore twoMeshScene "scene.glb" payload Hrun)
    as (scene & faceRanges & pointRanges & f2m & ranges & Hscene & Hmap & _ & _ & Hreg & Hcont).
  - vm_compute. repeat constructor; rewrite ?elem_of_cons, ?elem_of_nil; intuition discriminate.
  - unfold collectMeshes, twoMeshScene. cbn. repeat constructor; intros g Hg;
      vm_compute in Hg; injection Hg as <-; reflexivity.
  - exists payload, scene, faceRanges, pointRanges, f2m, ranges.
    split; [reflexivity|]. split; [exact Hscene|]. split; [exact Hmap|].
    split; [exact Hreg|].
    replace 3 with (Z.of_nat (length (default [] (pl_faces payload)))); [exact Hcont|].
    clear -Hrun. vm_compute in Hrun. injection Hrun as <-. reflexivity.
Defined.

End RoundTrip.

(** ** Payloads of the point-cloud decoder *)

Section PlyPayloadProperties.
Import PlyParser PlyFacts PlyPayloadFacts.

Local Arguments isPositive : simpl never.
Local Arguments arrayLength : simpl never.

Variable parseFloat : option string -> float.
Variable numberToString : float -> string.



Lemma forEachC_countPoint (points : list (option PlyPoint)) : forall acc acc',
  Store.forEachC (countPoint numberToString) points acc = Return acc' ->
  Forall is_Some points /\
  snd acc <= snd acc' <= snd acc + Z.of_nat (length points).
Proof.
  induction points as [|slot rest IH]; intros acc acc' Hrun; cbn in Hrun.
  - injection Hrun as <-. split; [constructor|cbn; lia].
  - destruct (countPoint numberToString acc slot) as [acc1|] eqn:Hstep; cbn in Hrun;
      [|discriminate].
    destruct (IH _ _ Hrun) as [Hrest Hbounds].
    destruct slot as [point|]; [|discriminate]. cbn in Hstep.
    split; [constructor; [eauto|exact Hrest]|].
    cbn [length]. destruct (ply_labelId point); injection Hstep as <-; cbn in *; lia.
Qed.

Lemma forEachC_countFace (faces : list (option PlyFace)) : forall acc acc',
  Store.forEachC (countFace numberToString) faces acc = Return acc' ->
  Forall is_Some faces /\
  snd acc <= snd acc' <= snd acc + Z.of_nat (length faces).
Proof.
  induction faces as [|slot rest IH]; intros acc acc' Hrun; cbn in Hrun.
  - injection Hrun as <-. split; [constructor|cbn; lia].
  - destruct (countFace numberToString acc slot) as [acc1|] eqn:Hstep; cbn in Hrun;
      [|discriminate].
    destruct (IH _ _ Hrun) as [Hrest Hbounds].
    destruct slot as [face|]; [|discriminate]. cbn in Hstep.
    split; [constructor; [eauto|exact Hrest]|].
    cbn [length]. destruct (ply_faceLabelId face); [case_bool_decide|];
      injection Hstep as <-; cbn in *; lia.
Qed.

Lemma arrayLength_count (n : JsNumber) (k : nat) :
  arrayLength n = Return k -> asInteger n = Some (Z.of_nat k).
Proof.
  unfold arrayLength. destruct (asInteger n) as [z|]; [|discriminate].
  destruct (0 <=? z) eqn:Hlow; cbn; [|discriminate].
  destruct (z <? 4294967296); [|discriminate]. intros [= <-]. f_equal. lia.
Qed.

Lemma length_fillSlots {A} (turn : Z -> Completion (option A)) (ks : list Z) :
  forall slots, fillSlots turn ks = Return slots -> length slots = length ks.
Proof.
  induction ks as [|k rest IH]; intros slots Hrun; cbn in Hrun.
  - injection Hrun as <-. reflexivity.
  - destruct (turn k); cbn in Hrun; [|discriminate].
    destruct (fillSlots turn rest); cbn in Hrun; [|discriminate].
    injection Hrun as <-. cbn. f_equal. apply IH. reflexivity.
Qed.

Lemma length_binaryVertices buffer props (n : nat) : forall offset vs,
  binaryVertices buffer props n offset = Return vs -> length (fst vs) = n.
Proof.
  induction n as [|n IH]; intros offset vs Hrun; cbn in Hrun.
  - injection Hrun as <-. reflexivity.
  - destruct (binaryVertexProps _ _ _ _); cbn in Hrun; [|discriminate].
    destruct (binaryVertices _ _ _ _) eqn:Hrest; cbn in Hrun; [|discriminate].
    injection Hrun as <-. cbn. f_equal. apply (IH _ _ Hrest).
Qed.

Lemma length_binaryFaces buffer props (n : nat) : forall offset fs,
  binaryFaces buffer props n offset = Return fs -> length (fst fs) = n.
Proof.
  induction n as [|n IH]; intros offset fs Hrun; cbn in Hrun.
  - injection Hrun as <-. reflexivity.
  - destruct (binaryFaceProps _ _ _ _); cbn in Hrun; [|discriminate].
    destruct (binaryFaces _ _ _ _) eqn:Hrest; cbn in Hrun; [|discriminate].
    injection Hrun as <-. cbn. f_equal. apply (IH _ _ Hrest).
Qed.

Lemma parseAsciiPLY_counts lines nv nf properties faceProperties startLine points faces :
  parseAsciiPLY parseFloat lines nv nf properties faceProperties startLine
    = Return (points, faces) ->
  countsMatch nv points /\ forall fs, faces = Some fs -> countsMatch nf fs.
Proof.
  unfold parseAsciiPLY, countsMatch. intros Hrun.
  destruct (arrayLength nv) as [n|] eqn:Hn; cbn in Hrun; [|discriminate].
  apply arrayLength_count in Hn.
  destruct (isPositive nf).
  - destruct (arrayLength nf) as [m|] eqn:Hm; cbn in Hrun; [|discriminate].
    apply arrayLength_count in Hm.
    destruct (fillSlots _ _) as [slots|] eqn:Hfill; cbn in Hrun; [|discriminate].
    apply length_fillSlots in Hfill. injection Hrun as <- <-.
    rewrite length_map. unfold upto in *. rewrite length_map, length_seq, Nat2Z.id in *.
    split; [exact Hn|]. intros fs [= <-]. rewrite Hfill. exact Hm.
  - injection Hrun as <- <-. rewrite length_map. unfold upto.
    rewrite length_map, length_seq, Nat2Z.id. split; [exact Hn|]. discriminate.
Qed.

Lemma parseBinaryPLY_counts buffer nv nf properties faceProperties dataOffset points faces :
  parseBinaryPLY buffer nv nf properties faceProperties dataOffset = Return (points, faces) ->
  countsMatch nv points /\ forall fs, faces = Some fs -> countsMatch nf fs.
Proof.
  unfold parseBinaryPLY, countsMatch. intros Hrun.
  destruct (arrayLength nv) as [n|] eqn:Hn; cbn in Hrun; [|discriminate].
  apply arrayLength_count in Hn.
  destruct (binaryVertices _ _ _ _) as [vs|] eqn:Hvs; cbn in Hrun; [|discriminate].
  apply length_binaryVertices in Hvs.
  destruct (isPositive nf).
  - destruct (arrayLength nf) as [m|] eqn:Hm; cbn in Hrun; [|discriminate].
    apply arrayLength_count in Hm.
    destruct (binaryFaces _ _ _ _) as [fs0|] eqn:Hfs; cbn in Hrun; [|discriminate].
    apply length_binaryFaces in Hfs. injection Hrun as <- <-.
    rewrite Hvs. split; [exact Hn|]. intros fs [= <-]. rewrite Hfs. exact Hm.
  - injection Hrun as <- <-. rewrite Hvs. split; [exact Hn|]. discriminate.
Qed.

(** X23: whenever decoding returns, the point list has no hole and has
    exactly the number of entries the header declares, and so has a face
    list that is returned; the labelled count lies between 0 and the length
    of the list, and the labelled and unlabelled counts add up to it, for
    points and for faces. *)
Theorem decoded_payload_is_complete (buffer : string) (payload : PlyPayload) :
  parsePLY parseFloat numberToString buffer = Return payload ->
  Forall is_Some (pp_points payload) /\
  vertexCount (pp_header payload) = Some (Z.of_nat (length (pp_points payload))) /\
  (forall fs, pp_faces payload = Some fs ->
     Forall is_Some fs /\
     hdr_faceCount (pp_header payload) = Some (Z.of_nat (length fs)) /\
     0 <= ply_faceLabeledCount (pp_labelInfo payload) <= Z.of_nat (length fs) /\
     ply_faceLabeledCount (pp_labelInfo payload)
       + ply_faceUnlabeledCount (pp_labelInfo payload) = Z.of_nat (length fs)) /\
  0 <= ply_labeledCount (pp_labelInfo payload) <= Z.of_nat (length (pp_points payload)) /\
  ply_labeledCount (pp_labelInfo payload) + ply_unlabeledCount (pp_labelInfo payload)
    = Z.of_nat (length (pp_points payload)).
Proof.
  unfold parsePLY. intros Hrun.
  destruct (headerLoop 0 _ initialHeader) as [st|] eqn:Hloop; cbn in Hrun; [|discriminate].
  destruct (headerEndIndex st =? -1); [discriminate|].
  match type of Hrun with
  | context [if isBinary st then ?b else ?a] =>
      assert (Hbody : forall points faces,
                 (if isBinary st then b else a) = Return (points, faces) ->
                 countsMatch (h_vertexCount st) points /\
                 forall fs, faces = Some fs -> countsMatch (h_faceCount st) fs);
      [intros points faces Hbody; destruct (isBinary st);
       [eapply parseBinaryPLY_counts|eapply parseAsciiPLY_counts]; exact Hbody|];
      destruct (if isBinary st then b else a) as [[points faces]|]; cbn in Hrun;
      [|discriminate]
  end.
  destruct (Hbody points faces eq_refl) as [Hnv Hnf]. clear Hbody.
  destruct (foldl scanComment _ _) as [textureFile labelDefinitions].
  destruct (Store.forEachC (countPoint numberToString) points (∅, 0)) as [pointStats|]
    eqn:Hpoints; cbn in Hrun; [|discriminate].
  apply forEachC_countPoint in Hpoints as [Hsome Hbounds]. cbn in Hbounds.
  destruct faces as [fs0|].
  - destruct (Store.forEachC (countFace numberToString) fs0 (∅, 0)) as [faceStats|]
      eqn:Hfaces; cbn in Hrun; [|discriminate].
    apply forEachC_countFace in Hfaces as [Hfsome Hfbounds]. cbn in Hfbounds.
    injection Hrun as <-. cbn.
    split; [exact Hsome|]. split; [exact Hnv|].
    split; [|lia]. intros fs [= <-].
    split; [exact Hfsome|]. split; [exact (Hnf _ eq_refl)|]. lia.
  - injection Hrun as <-. cbn.
    split; [exact Hsome|]. split; [exact Hnv|]. split; [discriminate|lia].
Qed.

End PlyPayloadProperties.

Section PlyPayloadExamples.
Import PlyParser PlyFacts PlyPayloadFacts.


Lemma decoded_payload_is_complete_witness :
  exists payload,
    parsePLY (fun _ => 0%float) (fun _ => ""%string) completeAscii = Return payload /\
    Forall is_Some (pp_points payload) /\
    vertexCount (pp_header payload) = Some (Z.of_nat (length (pp_points payload))) /\
    ply_labeledCount (pp_labelInfo payload) + ply_unlabeledCount (pp_labelInfo payload)
      = Z.of_nat (length (pp_points payload)).
Proof.
  destruct (parsePLY (fun _ => 0%float) (fun _ => ""%string) completeAscii)
    as [payload|e] eqn:Hparse; [|vm_compute in Hparse; discriminate].
  exists payload. split; [reflexivity|].
  destruct (decoded_payload_is_complete _ _ completeAscii payload Hparse)
    as (Hsome & Hcount & _ & _ & Hsum).
  repeat split; assumption.
Defined.

End PlyPayloadExamples.

(** ** The mesh geometry of the viewport *)

Section MeshProperties.
Import Store Examples MeshGeometries.

Lemma at_index_elem {A} (l : list A) (i : Z) (x : A) : at_index l i = Some x -> x ∈ l.
Proof.
  unfold at_index. destruct (i <? 0); [discriminate|]. apply list_elem_of_lookup_2.
Qed.

Lemma elem_at_index {A} (l : list A) (x : A) :
  x ∈ l -> exists i, 0 <= i < Z.of_nat (length l) /\ at_index l i = Some x.
Proof.
  intros Hx. apply list_elem_of_lookup in Hx as (j & Hj). exists (Z.of_nat j).
  pose proof (lookup_lt_Some _ _ _ Hj). split; [lia|].
  unfold at_index. destruct (Z.of_nat j <? 0) eqn:Hneg; [lia|]. rewrite Nat2Z.id. exact Hj.
Qed.

Lemma triangleAt_is_Some (face : Face) (index i : Z) :
  1 <= i -> i + 1 < Z.of_nat (length (indices face)) -> is_Some (triangleAt face index i).
Proof.
  intros Hlow Hhigh. unfold triangleAt.
  destruct (at_index_in_range (indices face) 0 ltac:(lia)) as [v0 ->].
  destruct (at_index_in_range (indices face) i ltac:(lia)) as [vi ->].
  destruct (at_index_in_range (indices face) (i + 1) ltac:(lia)) as [vj ->].
  cbn. eauto.
Qed.

Lemma elem_of_faceTriangles (index : Z) (face : Face) (t : Triangle) :
  t ∈ faceTriangles index face <->
  exists i, 1 <= i /\ i + 1 < Z.of_nat (length (indices face)) /\
            triangleAt face index i = Some t.
Proof.
  unfold faceTriangles. destruct (3 <=? Z.of_nat (length (indices face))) eqn:Hn.
  - rewrite list_elem_of_omap. split.
    + intros (i & Hi & Ht). apply list_elem_of_fmap in Hi as (k & -> & Hk).
      apply elem_of_upto in Hk. exists (1 + k). repeat split; [lia|lia|exact Ht].
    + intros (i & Hlow & Hhigh & Ht). exists i. split; [|exact Ht].
      apply list_elem_of_fmap. exists (i - 1). split; [lia|]. apply elem_of_upto. lia.
  - split; [intros Hin; inversion Hin|].
    intros (i & Hlow & Hhigh & _). lia.
Qed.

Lemma length_omap_total {A B} (f : A -> option B) (l : list A) :
  Forall (fun x => is_Some (f x)) l -> length (omap f l) = length l.
Proof.
  induction 1 as [|x l [y Hy] _ IH]; [reflexivity|]. cbn. rewrite Hy. cbn. f_equal. exact IH.
Qed.

Lemma length_faceTriangles (index : Z) (face : Face) :
  length (faceTriangles index face) = (length (indices face) - 2)%nat.
Proof.
  unfold faceTriangles. destruct (3 <=? Z.of_nat (length (indices face))) eqn:Hn.
  - rewrite length_omap_total.
    + rewrite length_map, length_upto. lia.
    + apply Forall_forall. intros i Hi. apply list_elem_of_fmap in Hi as (k & -> & Hk).
      apply elem_of_upto in Hk. apply triangleAt_is_Some; lia.
  - cbn. lia.
Qed.

Lemma elem_of_triangulate (faces : list Face) (t : Triangle) :
  t ∈ triangulate faces <->
  exists (k : nat) face, faces !! k = Some face /\ t ∈ faceTriangles (Z.of_nat k) face.
Proof.
  unfold triangulate. rewrite list_elem_of_In, in_concat. split.
  - intros (ts & Hts & Ht). apply list_elem_of_In, elem_of_lookup_imap in Hts
      as (k & face & -> & Hk).
    exists k, face. split; [exact Hk|]. apply list_elem_of_In, Ht.
  - intros (k & face & Hk & Ht). exists (faceTriangles (Z.of_nat k) face).
    split; [|apply list_elem_of_In, Ht].
    apply list_elem_of_In.
    apply (elem_of_lookup_imap_2 (fun k face => faceTriangles (Z.of_nat k) face) _ _ _ Hk).
Qed.

Lemma length_triangulate_from (faces : list Face) : forall (f : nat -> Z),
  length (concat (imap (fun k face => faceTriangles (f k) face) faces))
    = sum_list (map (fun face => (length (indices face) - 2)%nat) faces).
Proof.
  induction faces as [|face rest IH]; intros f; [reflexivity|].
  rewrite imap_cons. cbn [concat map sum_list sum_list_with].
  rewrite length_app, length_faceTriangles. f_equal. apply (IH (f ∘ S)).
Qed.

Lemma triangulate_triangles_from (faces : list Face) : forall (f : nat -> Z),
  Forall (fun face => length (indices face) = 3%nat) faces ->
  map vertices (concat (imap (fun k face => faceTriangles (f k) face) faces))
    = map indices faces /\
  map faceIndex (concat (imap (fun k face => faceTriangles (f k) face) faces))
    = imap (fun k _ => f k) faces.
Proof.
  induction faces as [|face rest IH]; intros f Hall; [split; reflexivity|].
  apply Forall_cons in Hall as [Hface Hrest].
  specialize (IH (fun k => f (S k)) Hrest). cbn beta in IH. destruct IH as [Hv Hi].
  rewrite !imap_cons. unfold compose. cbn [concat map]. rewrite !map_app, Hv, Hi.
  destruct face as [idx l tc c]. cbn in Hface.
  destruct idx as [|a [|b [|c0 [|? ?]]]]; try discriminate.
  split; reflexivity.
Qed.

Lemma createLabelMeshGeometry_Some (hasMesh : bool) (faces : list Face) (points : list Point)
    (triangles : list Triangle) :
  createLabelMeshGeometry hasMesh faces points = Return (Some triangles) ->
  triangles = triangulate faces /\
  Forall (fun t => Forall (fun v => is_Some (at_index points v)) (vertices t)) triangles.
Proof.
  unfold createLabelMeshGeometry.
  destruct (negb hasMesh || _ || _); [discriminate|].
  destruct (forallb _ (triangulate faces)) eqn:Hall; [|discriminate].
  intros [= <-]. split; [reflexivity|].
  apply Forall_forall. intros t Ht. apply Forall_forall. intros v Hv.
  rewrite forallb_forall in Hall. apply list_elem_of_In, Hall in Ht.
  rewrite forallb_forall in Ht. apply list_elem_of_In, Ht in Hv.
  apply bool_decide_eq_true in Hv. exact Hv.
Qed.

(** X24: a mesh geometry that is returned has [n - 2] triangles for every
    face of [n >= 3] vertices and none for a smaller face; every triangle
    names existing points only, belongs to the face at its [faceIndex],
    spans the first vertex of that face and two consecutive ones, and
    carries the face's label (none for 0); for a list of triangular faces
    the triangles are the faces, in order. *)
Theorem label_mesh_triangles_follow_faces (hasMesh : bool) (faces : list Face)
    (points : list Point) (triangles : list Triangle) :
  createLabelMeshGeometry hasMesh faces points = Return (Some triangles) ->
  length triangles = sum_list (map (fun face => (length (indices face) - 2)%nat) faces) /\
  Forall (fun t =>
            Forall (fun v => is_Some (at_index points v)) (vertices t) /\
            exists face i,
              at_index faces (faceIndex t) = Some face /\
              1 <= i /\ i + 1 < Z.of_nat (length (indices face)) /\
              map Some (vertices t)
                = [at_index (indices face) 0; at_index (indices face) i;
                   at_index (indices face) (i + 1)] /\
              tri_labelId t = orElse (face_labelId face) None) triangles /\
  (Forall (fun face => length (indices face) = 3%nat) faces ->
   map vertices triangles = map indices faces /\
   map faceIndex triangles = upto (Z.of_nat (length faces))).
Proof.
  intros Hrun. apply createLabelMeshGeometry_Some in Hrun as [-> Hpoints].
  split; [apply (length_triangulate_from faces Z.of_nat)|]. split.
  - apply Forall_forall. intros t Ht. split; [rewrite Forall_forall in Hpoints; auto|].
    apply elem_of_triangulate in Ht as (k & face & Hk & Ht).
    apply elem_of_faceTriangles in Ht as (i & Hlow & Hhigh & Ht).
    exists face, i. unfold triangleAt in Ht.
    destruct (at_index (indices face) 0) as [v0|]; [|discriminate].
    destruct (at_index (indices face) i) as [vi|]; [|discriminate].
    destruct (at_index (indices face) (i + 1)) as [vj|]; [|discriminate].
    cbn in Ht. injection Ht as <-. cbn.
    unfold at_index. destruct (Z.ltb_spec (Z.of_nat k) 0) as [Hneg|_]; [lia|]. rewrite Nat2Z.id.
    repeat split; try assumption; lia.
  - intros Hall.
    destruct (triangulate_triangles_from faces Z.of_nat Hall) as [Hv Hi].
    split; [exact Hv|]. unfold triangulate. rewrite Hi, imap_seq_0.
    unfold upto. rewrite Nat2Z.id. reflexivity.
Qed.

Lemma label_mesh_triangles_follow_faces_witness :
  exists triangles,
    createLabelMeshGeometry true squareFaces fourPoints = Return (Some triangles) /\
    map vertices triangles = [[0; 1; 2]; [0; 2; 3]] /\
    map faceIndex triangles = [0; 0] /\
    length triangles
      = sum_list (map (fun face => (length (indices face) - 2)%nat) squareFaces).
Proof.
  destruct (createLabelMeshGeometry true squareFaces fourPoints) as [[triangles|]|e]
    eqn:Hrun; try (vm_compute in Hrun; discriminate).
  exists triangles. split; [reflexivity|].
  destruct (label_mesh_triangles_follow_faces true squareFaces fourPoints triangles Hrun)
    as (Hcount & _ & _).
  split; [|split; [|exact Hcount]]; vm_compute in Hrun; injection Hrun as <-; reflexivity.
Defined.

(** X25: with a mesh and at least one point, a face of 3 or more vertices
    one of which names no point makes [createLabelMeshGeometry] throw a
    [TypeError]. *)
Theorem label_mesh_dangling_vertex_throws (faces : list Face) (points : list Point)
    (face : Face) (v : Z) :
  points <> [] ->
  face ∈ faces ->
  (3 <= length (indices face))%nat ->
  v ∈ indices face ->
  at_index points v = None ->
  createLabelMeshGeometry true faces points = Throw TypeError.
Proof.
  intros Hpoints Hface Hn Hv Hmissing. unfold createLabelMeshGeometry. cbn [negb orb].
  rewrite (bool_decide_eq_false_2 (length faces = 0%nat))
    by (destruct faces; [inversion Hface|discriminate]).
  rewrite (bool_decide_eq_false_2 (length points = 0%nat))
    by (destruct points; [congruence|discriminate]).
  cbn [orb].
  destruct (forallb _ (triangulate faces)) eqn:Hall; [|reflexivity]. exfalso.
  rewrite forallb_forall in Hall.
  apply list_elem_of_lookup in Hface as (k & Hk).
  apply elem_at_index in Hv as (j & Hj & Hvj).
  (* the turn of the loop whose triangle holds position [j] *)
  set (i := if j =? 0 then 1 else if j + 1 =? Z.of_nat (length (indices face))
                                  then j - 1 else j).
  assert (Hi : 1 <= i /\ i + 1 < Z.of_nat (length (indices face))).
  { unfold i. destruct (Z.eqb_spec j 0); [lia|].
    destruct (Z.eqb_spec (j + 1) (Z.of_nat (length (indices face)))); lia. }
  destruct (triangleAt_is_Some face (Z.of_nat k) i ltac:(lia) ltac:(lia)) as [t Ht].
  assert (Hin : t ∈ triangulate faces).
  { apply elem_of_triangulate. exists k, face. split; [exact Hk|].
    apply elem_of_faceTriangles. exists i. repeat split; [lia|lia|exact Ht]. }
  apply list_elem_of_In, Hall in Hin. rewrite forallb_forall in Hin.
  assert (Hvt : In v (vertices t)).
  { unfold triangleAt in Ht.
    destruct (at_index (indices face) 0) as [v0|] eqn:H0; [|discriminate].
    destruct (at_index (indices face) i) as [vi|] eqn:H1; [|discriminate].
    destruct (at_index (indices face) (i + 1)) as [vj|] eqn:H2; [|discriminate].
    cbn in Ht. injection Ht as <-. cbn.
    unfold i in *. destruct (Z.eqb_spec j 0) as [->|Hj0]; [left; congruence|].
    destruct (Z.eqb_spec (j + 1) (Z.of_nat (length (indices face)))) as [Hlast|Hlast].
    - right. right. left. replace (j - 1 + 1) with j in H2 by lia. congruence.
    - right. left. congruence. }
  apply Hin in Hvt. apply bool_decide_eq_true in Hvt. rewrite Hmissing in Hvt.
  destruct Hvt as [? Hvt]. discriminate.
Qed.

Lemma label_mesh_dangling_vertex_throws_witness :
  createLabelMeshGeometry true danglingFaces fourPoints = Throw TypeError.
Proof.
  apply (label_mesh_dangling_vertex_throws danglingFaces fourPoints
           (mkFace [0; 1; 4] None None None) 4).
  - discriminate.
  - apply list_elem_of_here.
  - cbn. lia.
  - apply list_elem_of_In. cbn. tauto.
  - reflexivity.
Defined.

End MeshProperties.

(** ** The export command *)

Section OverviewProperties.
Import Three Store GlbExporter DataOverview.

(** X26: the export command never takes the branch of a failed validation:
    it returns early on an empty point list, and [validateExportData]
    reports an error for nothing else. With points, a scene and a mapping
    its outcome is the encoder's, faces being handed over only in a document
    with a mesh. *)
Theorem export_handler_never_rejects (store : GeomStore) (freshUuid : Uuid) (state : State) :
  (forall errors, snd (handleGLBExport store freshUuid state) <> Rejected errors) /\
  (points state <> [] -> is_Some (originalScene state) ->
   is_Some (interactionMapping state) ->
   handleGLBExport store freshUuid state
     = let '(store', result) :=
         exportGLB store freshUuid (originalScene state) (interactionMapping state)
           (points state) (if hasMesh state then Some (faces state) else None)
           (labels state) (fileHeader state) in
       (store', match result with Return scene => Exported scene | Throw e => Failed e end)).
Proof.
  unfold handleGLBExport, validateExportData. split.
  - intros errors. case_bool_decide as Hlen; [discriminate|].
    destruct (originalScene state); [|discriminate].
    destruct (interactionMapping state); [|discriminate].
    destruct (points state) as [|p ps]; [contradiction Hlen; reflexivity|]. cbn [negb valid].
    destruct (exportGLB _ _ _ _ _ _ _ _) as [store' [scene|e]]; discriminate.
  - intros Hpoints [scene Hscene] [mapping Hmapping]. rewrite Hscene, Hmapping.
    rewrite bool_decide_eq_false_2
      by (destruct (points state); [congruence|discriminate]).
    destruct (points state) as [|p ps]; [congruence|]. reflexivity.
Qed.

End OverviewProperties.
